(** * The voter model with speciation and log-spaced sampling

    A shallow embedding of [code/voter_model.py]: the simulation engine
    [voter_model] and the truncated logarithmic-series builder
    [logseries_distribution].

    Conventions of the embedding.
    - Python and numpy integers are [Z]; array lengths are [nat].
    - numpy arrays of integers that the caller can hand in, or that the
      function binds to a name it later reassigns ([IC], [opinions],
      [opinion_counts]), live in an explicit object store ([heap]) and are
      manipulated through references, so that aliasing is visible; the
      output arrays, which the function allocates and only it holds until
      it returns, are plain values.
    - Exceptions are values of [exn]; a computation is a function from the
      store to the store and a [result].
    - The random generator is an interface ([Generator]); its state is
      threaded explicitly.
    - Floating-point numbers are idealised: the speciation probability and
      the generation times are rationals ([Q]); the logarithmic schedule and
      the log-series weights are computed over the reals ([R]), without
      rounding error. *)

From Stdlib Require Import ZArith QArith Reals Lia Lra List Sorted.
From stdpp Require Import base list numbers.


(** ** Exceptions and the store/exception monad *)

(** The exceptions of the modelled operations. [NoObject] stands for the
    use of a reference the store does not hold, which no Python program
    can do; it keeps the store operations total. *)
Inductive exn : Type :=
| IndexError
| ValueError
| ZeroDivisionError
| NoObject.

Inductive result (A : Type) : Type :=
| Ok (a : A)
| Raise (e : exn).
Arguments Ok {A} a.
Arguments Raise {A} e.

Definition is_ok {A} (r : result A) : bool :=
  match r with Ok _ => true | Raise _ => false end.

Abbreviation loc := nat (only parsing).
Abbreviation heap := (list (list Z)) (only parsing).

(** A computation reads and writes the store and either yields a value or
    raises; the store it leaves behind is kept in both cases. *)
Definition M (A : Type) : Type := heap → heap * result A.

Definition ret {A} (a : A) : M A := λ h, (h, Ok a).
Definition bind {A B} (f : A → M B) (m : M A) : M B :=
  λ h, match m h with
       | (h', Ok a) => f a h'
       | (h', Raise e) => (h', Raise e)
       end.
Definition lift {A} (r : result A) : M A := λ h, (h, r).

#[global] Instance M_ret : MRet M := @ret.
#[global] Instance M_bind : MBind M := @bind.

Definition rbind {A B} (r : result A) (f : A → result B) : result B :=
  match r with Ok a => f a | Raise e => Raise e end.

(** ** numpy primitives *)

Module Numpy.

(** Index normalisation: [a[i]] accepts [-len <= i < len]. *)
Definition np_index (len : nat) (i : Z) : result nat :=
  if (0 <=? i)%Z && (i <? Z.of_nat len)%Z then Ok (Z.to_nat i)
  else if (- Z.of_nat len <=? i)%Z && (i <? 0)%Z then Ok (Z.to_nat (Z.of_nat len + i))
  else Raise IndexError.

(** [a[i]] *)
Definition np_get {A} (a : list A) (i : Z) : result A :=
  rbind (np_index (length a) i) (λ j,
    match a !! j with Some v => Ok v | None => Raise IndexError end).

(** [a[i] = v] *)
Definition np_set {A} (a : list A) (i : Z) (v : A) : result (list A) :=
  rbind (np_index (length a) i) (λ j, Ok (<[j := v]> a)).

(** [a[:n]] *)
Definition np_slice_to {A} (a : list A) (n : Z) : list A :=
  if (0 <=? n)%Z then take (Z.to_nat n) a
  else take (length a - Z.to_nat (- n)) a.

(** [np.zeros(n, dtype=int)] *)
Definition np_zeros (n : Z) : result (list Z) :=
  if (n <? 0)%Z then Raise ValueError else Ok (replicate (Z.to_nat n) 0%Z).

(** [np.zeros(n)] with the default float dtype, here rationals. *)
Definition np_zeros_float (n : Z) : result (list Q) :=
  if (n <? 0)%Z then Raise ValueError else Ok (replicate (Z.to_nat n) 0%Q).

(** [np.zeros((rows, cols), dtype=int)], kept as the list of its columns. *)
Definition np_zeros2 (rows cols : Z) : result (list (list Z)) :=
  if (rows <? 0)%Z || (cols <? 0)%Z then Raise ValueError
  else Ok (replicate (Z.to_nat cols) (replicate (Z.to_nat rows) 0%Z)).

(** [m[:, c] = v] on a table of [rows] rows: [v] must have [rows] entries,
    or a single one that is broadcast. *)
Definition np_set_column (rows : Z) (m : list (list Z)) (c : Z) (v : list Z)
  : result (list (list Z)) :=
  rbind (np_index (length m) c) (λ j,
    if (Z.of_nat (length v) =? rows)%Z then Ok (<[j := v]> m)
    else match v with
         | [x] => Ok (<[j := replicate (Z.to_nat rows) x]> m)
         | _ => Raise ValueError
         end).

(** [np.unique]: the sorted list of the distinct values. *)
Fixpoint unique_insert (x : Z) (l : list Z) : list Z :=
  match l with
  | [] => [x]
  | y :: l' =>
      if (x <? y)%Z then x :: l
      else if (x =? y)%Z then l
      else y :: unique_insert x l'
  end.

Definition np_unique (l : list Z) : list Z := foldr unique_insert [] l.

(** [np.sum(a > 0)] *)
Definition count_positive (a : list Z) : Z :=
  Z.of_nat (length (filter (λ c, (0 < c)%Z) a)).

(** [collections.Counter(a)]: keys in order of first occurrence. *)
Fixpoint counter_add (key : Z) (c : list (Z * Z)) : list (Z * Z) :=
  match c with
  | [] => [(key, 1%Z)]
  | (k, v) :: c' =>
      if (k =? key)%Z then (k, (v + 1)%Z) :: c'
      else (k, v) :: counter_add key c'
  end.

Definition Counter (a : list Z) : list (Z * Z) :=
  foldl (λ c x, counter_add x c) [] a.

End Numpy.
Import Numpy.

(** ** The object store *)

Definition load (l : loc) : M (list Z) :=
  λ h, match h !! l with
       | Some a => (h, Ok a)
       | None => (h, Raise NoObject)
       end.

(** A new object: [np.array(x)], [x.copy()], [np.zeros(n)]. *)
Definition alloc (a : list Z) : M loc :=
  λ h, (h ++ [a], Ok (length h)).

Definition store (l : loc) (a : list Z) : M unit :=
  λ h, match h !! l with
       | Some _ => (<[l := a]> h, Ok tt)
       | None => (h, Raise NoObject)
       end.

(** [r[i]] through a reference. *)
Definition read_at (l : loc) (i : Z) : M Z :=
  a ← load l; lift (np_get a i).

(** [r[i] = v] through a reference. *)
Definition write_at (l : loc) (i v : Z) : M unit :=
  a ← load l; a' ← lift (np_set a i v); store l a'.

(** ** The random generator interface *)

(** [next_integer lo hi] is the draw behind [rng.integers(lo, hi)] for
    [lo < hi]; [next_double] the one behind [rng.random()]. *)
Class Generator (G : Type) : Type := {
  next_integer : Z → Z → G → Z * G;
  next_double : G → Q * G
}.

Class GeneratorContract (G : Type) `{Generator G} : Prop := {
  next_integer_range : ∀ lo hi g,
    (lo < hi)%Z → (lo ≤ (next_integer lo hi g).1 < hi)%Z;
  next_double_range : ∀ g,
    (0 <= (next_double g).1)%Q ∧ ((next_double g).1 < 1)%Q
}.

(** A small linear congruential generator, used to run the model on
    concrete inputs. *)
Definition lcg_next (s : Z) : Z := ((1103515245 * s + 12345) mod 2147483648)%Z.

Record lcg_state : Type := Lcg { lcg_word : Z }.

#[global] Instance lcg : Generator lcg_state := {
  next_integer lo hi s :=
    let w := lcg_next (lcg_word s) in
    ((lo + (w / 65536) mod (hi - lo))%Z, Lcg w);
  next_double s :=
    let w := lcg_next (lcg_word s) in
    (Qmake ((w / 65536) mod 1024) 1024, Lcg w)
}.

(** [np.random.default_rng(seed)] for this generator. *)
Definition default_rng (seed : Z) : lcg_state := Lcg seed.

(** The same generator with a count of the draws made: another kind of
    state, the same draws. *)
Record counting_lcg : Type := Counting { inner : lcg_state; draws : nat }.

#[global] Instance counting : Generator counting_lcg := {
  next_integer lo hi s :=
    let '(x, s') := next_integer lo hi (inner s) in
    (x, Counting s' (S (draws s)));
  next_double s :=
    let '(u, s') := next_double (inner s) in
    (u, Counting s' (S (draws s)))
}.

Section Draws.
Context {G : Type} `{Generator G}.

(** [rng.integers(lo, hi)] *)
Definition rng_integers (lo hi : Z) (g : G) : result (Z * G) :=
  if (lo <? hi)%Z then Ok (next_integer lo hi g) else Raise ValueError.

(** [rng.integers(lo, hi, size=n)] *)
Fixpoint draw_many (n : nat) (lo hi : Z) (g : G) : list Z * G :=
  match n with
  | O => ([], g)
  | S n' =>
      let '(x, g1) := next_integer lo hi g in
      let '(xs, g2) := draw_many n' lo hi g1 in
      (x :: xs, g2)
  end.

Definition rng_integers_size (lo hi size : Z) (g : G) : result (list Z * G) :=
  if (size <? 0)%Z then Raise ValueError
  else if (lo <? hi)%Z then Ok (draw_many (Z.to_nat size) lo hi g)
  else Raise ValueError.

End Draws.

(** ** The logarithmic sampling schedule (lines 65-66) *)

Module Schedule.

Definition log10 (x : R) : R := (ln x / ln 10)%R.

(** [np.linspace(start, stop, num)]: [num - 1] equal steps from [start],
    the last sample being [stop] itself. *)
Definition linspace (start stop : R) (num : nat) : list R :=
  match num with
  | O => []
  | S O => [start]
  | S (S m as d) =>
      let step := ((stop - start) / INR d)%R in
      map (λ i, (INR i * step + start)%R) (seq 0 d) ++ [stop]
  end.

(** [np.logspace(start, stop, num)] *)
Definition logspace (start stop : R) (num : nat) : list R :=
  map (Rpower 10) (linspace start stop num).

(** [np.round] followed by [astype(int)]: nearest integer, ties to the
    even one. *)
Definition np_round (x : R) : Z :=
  let f := Int_part x in
  let d := (x - IZR f)%R in
  if Rlt_dec d (1 / 2) then f
  else if Rlt_dec (1 / 2) d then (f + 1)%Z
  else if Z.even f then f else (f + 1)%Z.

(** [np.unique(np.round(np.logspace(np.log10(J), np.log10(total_time),
    num)).astype(int))] *)
Definition log_schedule (J total_time num : Z) : result (list Z) :=
  if (num <? 0)%Z then Raise ValueError
  else Ok (np_unique (map np_round
             (logspace (log10 (IZR J)) (log10 (IZR total_time)) (Z.to_nat num)))).

End Schedule.
Import Schedule.

(** ** The simulation engine (lines 44-117) *)

Module VoterModel.

(** The four returned arrays; the abundance table is the list of its
    columns. *)
Record outputs : Type := Outputs {
  out_counts : list (list Z);
  out_richness : list Z;
  out_time : list Q;
  out_time_c : list Q
}.

Section Engine.
Context {G : Type} `{Generator G}.

(** The local variables of [voter_model] while the loop runs. *)
Record frame : Type := Frame {
  opinions : loc;
  opinion_counts : loc;
  richness : list Z;
  opinion_counts_store : list (list Z);
  time : list Q;
  time_c : list Q;
  k : Z;
  k_c : Z;
  rng : G
}.

Inductive control : Type :=
| Continue (f : frame)
| Return (o : outputs).

(** [t / J], as a fraction in lowest terms *)
Definition divide (t J : Z) : result Q :=
  if (J =? 0)%Z then Raise ZeroDivisionError
  else Ok (Qred (inject_Z t / inject_Z J)).

(** Lines 50-56: the population array. *)
Definition init_opinions (S J : Z) (IC : option loc) (g : G) : M (loc * G) :=
  '(ic, g1) ← match IC with
              | None =>
                  '(xs, g1) ← lift (rng_integers_size 0 S J g);
                  l ← alloc xs;
                  mret (l, g1)
              | Some l0 =>
                  a ← load l0;
                  l ← alloc a;
                  mret (l, g)
              end;
  a ← load ic;
  ops ← alloc a;
  mret (ops, g1).

(** Line 62: [opinion_counts[o] += 1] *)
Definition increment (c : loc) (o : Z) : M unit :=
  v ← read_at c o; write_at c o (v + 1)%Z.

Fixpoint for_each {A} (body : A → M unit) (l : list A) : M unit :=
  match l with
  | [] => mret tt
  | x :: l' => _ ← body x; for_each body l'
  end.

(** Lines 59-62: the count vector, the caller's own object when supplied. *)
Definition init_counts (S : Z) (ops : loc) (oc : option loc) : M loc :=
  match oc with
  | Some c => mret c
  | None =>
      z ← lift (np_zeros S);
      c ← alloc z;
      a ← load ops;
      _ ← for_each (increment c) a;
      mret c
  end.

(** Lines 84-91: one elementary update. *)
Definition update_step (S J : Z) (nu : Q) (ops : loc) (g : G) : M G :=
  '(i, g1) ← lift (rng_integers 0 J g);
  let '(u, g2) := next_double g1 in
  if Qle_bool nu u then
    '(j, g3) ← lift (rng_integers 0 J g2);
    v ← read_at ops j;
    _ ← write_at ops i v;
    mret g3
  else
    '(v, g3) ← lift (rng_integers 0 S g2);
    _ ← write_at ops i v;
    mret g3.

(** Lines 94-100: the richness checkpoint and the early return. *)
Definition record_richness (J : Z) (nu : Q) (log_steps : list Z) (t : Z)
    (f : frame) : M control :=
  if (k f <? Z.of_nat (length log_steps))%Z then
    s ← lift (np_get log_steps (k f - 1));
    if (t =? s)%Z then
      a ← load (opinions f);
      richness1 ← lift (np_set (richness f) (k f) (Z.of_nat (length (np_unique a))));
      q ← lift (divide t J);
      time1 ← lift (np_set (time f) (k f) q);
      r ← lift (np_get richness1 (k f));
      if Qeq_bool nu 0 && (r =? 1)%Z then
        mret (Return (Outputs (opinion_counts_store f)
                              (np_slice_to richness1 (k f + 1))
                              (np_slice_to time1 (k f + 1))
                              (np_slice_to (time_c f) (k_c f))))
      else
        mret (Continue (Frame (opinions f) (opinion_counts f) richness1
                              (opinion_counts_store f) time1 (time_c f)
                              (k f + 1) (k_c f) (rng f)))
    else mret (Continue f)
  else mret (Continue f).

(** Lines 103-110: the abundance checkpoint. *)
Definition record_counts (S J : Z) (log_steps_count : list Z) (t : Z)
    (f : frame) : M frame :=
  if (k_c f <? Z.of_nat (length log_steps_count))%Z then
    s ← lift (np_get log_steps_count (k_c f - 1));
    if (t =? s)%Z then
      a ← load (opinions f);
      let counts := Counter a in
      z ← lift (np_zeros S);
      c ← alloc z;
      _ ← for_each (λ kv, write_at c kv.1 kv.2) counts;
      col ← load c;
      store1 ← lift (np_set_column S (opinion_counts_store f) (k_c f) col);
      q ← lift (divide t J);
      time_c1 ← lift (np_set (time_c f) (k_c f) q);
      mret (Frame (opinions f) c (richness f) store1 (time f) time_c1
                  (k f) (k_c f + 1) (rng f))
    else mret f
  else mret f.

(** Lines 113-115: dropping a trailing zero slot of [richness] and [time]. *)
Definition trim_trailing (log_steps : list Z) (f : frame) : M frame :=
  if (k f =? Z.of_nat (length log_steps))%Z then
    r ← lift (np_get (richness f) (-1));
    if (r =? 0)%Z then
      mret (Frame (opinions f) (opinion_counts f) (np_slice_to (richness f) (-1))
                  (opinion_counts_store f) (np_slice_to (time f) (-1)) (time_c f)
                  (k f) (k_c f) (rng f))
    else mret f
  else mret f.

(** Lines 83-115: the body of the loop at step [t]. *)
Definition loop_body (S J : Z) (nu : Q) (log_steps log_steps_count : list Z)
    (t : Z) (f : frame) : M control :=
  g ← update_step S J nu (opinions f) (rng f);
  let f0 := Frame (opinions f) (opinion_counts f) (richness f)
                  (opinion_counts_store f) (time f) (time_c f) (k f) (k_c f) g in
  c ← record_richness J nu log_steps t f0;
  match c with
  | Return o => mret (Return o)
  | Continue f1 =>
      f2 ← record_counts S J log_steps_count t f1;
      f3 ← trim_trailing log_steps f2;
      mret (Continue f3)
  end.

(** The loop over the steps [ts], stopping at the first [return]. *)
Fixpoint run_steps (S J : Z) (nu : Q) (log_steps log_steps_count : list Z)
    (ts : list Z) (f : frame) : M control :=
  match ts with
  | [] => mret (Continue f)
  | t :: ts' =>
      c ← loop_body S J nu log_steps log_steps_count t f;
      match c with
      | Return o => mret (Return o)
      | Continue f' => run_steps S J nu log_steps log_steps_count ts' f'
      end
  end.

(** Lines 69-80: the output containers and the initial state. *)
Definition init_frame (S : Z) (log_steps log_steps_count : list Z)
    (ops oc : loc) (g : G) : M frame :=
  richness0 ← lift (np_zeros (Z.of_nat (length log_steps) + 1));
  store0 ← lift (np_zeros2 S (Z.of_nat (length log_steps_count) + 1));
  time0 ← lift (np_zeros_float (Z.of_nat (length log_steps) + 1));
  time_c0 ← lift (np_zeros_float (Z.of_nat (length log_steps_count) + 1));
  a ← load oc;
  richness1 ← lift (np_set richness0 0 (count_positive a));
  copy ← alloc a;
  col ← load copy;
  store1 ← lift (np_set_column S store0 0 col);
  time1 ← lift (np_set time0 0 0%Q);
  time_c1 ← lift (np_set time_c0 0 0%Q);
  mret (Frame ops oc richness1 store1 time1 time_c1 1 1 g).

(** Line 117 *)
Definition final_outputs (f : frame) : outputs :=
  Outputs (opinion_counts_store f) (richness f) (time f) (time_c f).

(** Lines 69-117 for given schedules. *)
Definition simulate (S J T : Z) (nu : Q) (log_steps log_steps_count : list Z)
    (ops oc : loc) (g : G) : M outputs :=
  f ← init_frame S log_steps log_steps_count ops oc g;
  c ← run_steps S J nu log_steps log_steps_count (seqZ 1 (T * J)) f;
  match c with
  | Return o => mret o
  | Continue f' => mret (final_outputs f')
  end.

(** [voter_model(S, J, T, nu, num_log_steps, num_log_steps_count, IC,
    opinion_counts, rng)]; the two array arguments are references into the
    caller's store, [None] when absent, and [g] is the state of the
    generator in use, the caller's or the one line 45 creates.
    [voter_model_with] is the function for given results of lines 65-66. *)
Definition voter_model_with (schedule schedule_count : result (list Z))
    (S J T : Z) (nu : Q) (IC opinion_counts : option loc) (g : G) : M outputs :=
  '(ops, g1) ← init_opinions S J IC g;
  oc ← init_counts S ops opinion_counts;
  log_steps ← lift schedule;
  log_steps_count ← lift schedule_count;
  simulate S J T nu log_steps log_steps_count ops oc g1.

Definition voter_model (S J T : Z) (nu : Q)
    (num_log_steps num_log_steps_count : Z)
    (IC opinion_counts : option loc) (g : G) : M outputs :=
  voter_model_with (log_schedule J (T * J) num_log_steps)
                   (log_schedule J (T * J) num_log_steps_count)
                   S J T nu IC opinion_counts g.

End Engine.

End VoterModel.
Import VoterModel.

(** ** The truncated logarithmic-series distribution (lines 140-154) *)

Module LogSeries.

(** What [scipy.stats.rv_discrete(values=(xk, pk))] keeps: the support and
    the probability of each point. *)
Record rv_discrete : Type := RvDiscrete {
  xk : list Z;
  pk : list R
}.

(** [rv_discrete.pmf]: the tabulated probability on the support, 0 off it
    (behaviour of the library class, which is not part of this code). *)
Fixpoint table_lookup (xs : list Z) (ps : list R) (k : Z) : R :=
  match xs, ps with
  | x :: xs', p :: ps' => if (x =? k)%Z then p else table_lookup xs' ps' k
  | _, _ => 0%R
  end.

Definition pmf (d : rv_discrete) (k : Z) : R := table_lookup (xk d) (pk d) k.

(** [a.sum()] *)
Definition Rsum (l : list R) : R := foldr Rplus 0%R l.

(** Line 147, one entry: [-theta ** k / (k * np.log(1 - theta))] *)
Definition weight (theta : R) (k : Z) : R :=
  (- theta ^ Z.to_nat k / (IZR k * ln (1 - theta)))%R.

Definition logseries_distribution (theta : R) (max_integer : Z)
  : result rv_discrete :=
  if Rlt_dec 0 theta then
    if Rlt_dec theta 1 then
      let ks := seqZ 1 max_integer in
      let pmf0 := map (weight theta) ks in
      let total := Rsum pmf0 in
      Ok (RvDiscrete ks (map (λ p, (p / total)%R) pmf0))
    else Raise ValueError
  else Raise ValueError.

End LogSeries.

(** ** Specification vocabulary *)

(** [hoare P m Q E]: from a store satisfying [P], [m] ends in a store
    satisfying [Q a] when it yields [a] and [E e] when it raises [e]. *)
Definition hoare {A} (P : heap → Prop) (m : M A)
    (Q : A → heap → Prop) (E : exn → heap → Prop) : Prop :=
  ∀ h, P h →
    match m h with
    | (h', Ok a) => Q a h'
    | (h', Raise e) => E e h'
    end.

(** [a.sum()] on integers *)
Definition Zsum (l : list Z) : Z := foldr Z.add 0%Z l.

(** A label of the range [0, S) *)
Definition in_range (S x : Z) : Prop := (0 ≤ x < S)%Z.

(** The population array behind [ops]: [J] labels of [0, S) *)
Definition population (S J : Z) (ops : loc) (h : heap) : Prop :=
  ∃ a, h !! ops = Some a ∧ length a = Z.to_nat J ∧ Forall (in_range S) a.

(** The array behind [ops] holds only labels of [0, S), whatever its
    length. *)
Definition labels_in_range (S : Z) (ops : loc) (h : heap) : Prop :=
  ∃ a, h !! ops = Some a ∧ Forall (in_range S) a.

(** A count vector over [S] opinions for [J] individuals *)
Definition valid_counts (S J : Z) (col : list Z) : Prop :=
  length col = Z.to_nat S ∧ Forall (λ c, (0 ≤ c)%Z) col ∧ Zsum col = J.

(** The caller's store [h0] is an initial segment of the current one. *)
Definition keeps (h0 h : heap) : Prop := h0 `prefix_of` h.

(** A computation that keeps the caller's store whatever happens, and
    whose value satisfies [Q] *)
Definition framed (h0 : heap) {A} (m : M A) (Q : A → Prop) : Prop :=
  hoare (keeps h0) m (λ a h, keeps h0 h ∧ Q a) (λ _ h, keeps h0 h).

(** The array left by [for key, val in counts.items(): arr[key] = val] *)
Definition scatter (counts : list (Z * Z)) (arr : list Z) : list Z :=
  foldl (λ arr kv, <[Z.to_nat kv.1 := kv.2]> arr) arr counts.

(** The array left by [for o in a: arr[o] += 1] *)
Definition tally (a : list Z) (arr : list Z) : list Z :=
  foldl (λ arr o, <[Z.to_nat o := (default 0%Z (arr !! Z.to_nat o) + 1)%Z]> arr) arr a.

(** The richness array with [k] slots written, for a schedule of [L]
    entries: the written slots hold positive values; the other slots are
    still zero, unless the single trailing one has been dropped. *)
Definition richness_shape (L k : Z) (r : list Z) : Prop :=
  ∃ written,
    length written = Z.to_nat k ∧ Forall (λ x, (1 ≤ x)%Z) written ∧
    (r = written ++ replicate (Z.to_nat (L + 1 - k)) 0%Z ∨ (k = L ∧ r = written)).

(** The abundance table with [kc] columns written, for a schedule of [Lc]
    entries. *)
Definition table_shape (S J Lc kc : Z) (m : list (list Z)) : Prop :=
  length m = Z.to_nat (Lc + 1) ∧
  ∀ (c : nat) col, m !! c = Some col →
    if (Z.of_nat c <? kc)%Z then valid_counts S J col
    else col = replicate (Z.to_nat S) 0%Z.

(** The abundance times with [kc] slots written *)
Definition times_shape (Lc kc : Z) (tc : list Q) : Prop :=
  length tc = Z.to_nat (Lc + 1) ∧
  ∀ (c : nat) q, (kc ≤ Z.of_nat c)%Z → tc !! c = Some q → q = 0%Q.

(** The invariant of the loop on the local variables, for schedules of
    [L] and [Lc] entries *)
Definition frame_ok {G} (S J L Lc : Z) (f : @frame G) : Prop :=
  (1 ≤ k f ≤ Z.max 1 L)%Z ∧ (1 ≤ k_c f ≤ Z.max 1 Lc)%Z ∧
  length (time f) = length (richness f) ∧
  richness_shape L (k f) (richness f) ∧
  table_shape S J Lc (k_c f) (opinion_counts_store f) ∧
  times_shape Lc (k_c f) (time_c f).

(** After an iteration, a run whose richness index has reached the
    schedule length has dropped the trailing slot. *)
Definition settled {G} (L : Z) (f : @frame G) : Prop :=
  k f = L → length (richness f) = Z.to_nat L.

(** What a valid run returns: either the final arrays of a completed loop
    ([ran] tells whether the loop made at least one iteration), or the
    truncated series of an early return, in both cases with the full
    table. [k] and [kc] are the numbers of richness and abundance slots
    written. *)
Definition outputs_ok (S J L Lc : Z) (ran : bool) (o : outputs) : Prop :=
  ∃ k kc : Z,
    (1 ≤ k ≤ Z.max 1 L)%Z ∧ (1 ≤ kc ≤ Z.max 1 Lc)%Z ∧
    table_shape S J Lc kc (out_counts o) ∧
    ((length (out_time o) = length (out_richness o) ∧
      richness_shape L k (out_richness o) ∧
      times_shape Lc kc (out_time_c o) ∧
      (ran = true → k = L → length (out_richness o) = Z.to_nat L))
     ∨
     ((2 ≤ k)%Z ∧
      length (out_richness o) = Z.to_nat k ∧
      Forall (λ x, (1 ≤ x)%Z) (out_richness o) ∧
      length (out_time o) = Z.to_nat k ∧
      length (out_time_c o) = Z.to_nat kc)).

(** A supplied initial condition is an array of [J] labels of [0, S). *)
Definition valid_IC (S J : Z) (IC : option loc) (h : heap) : Prop :=
  match IC with
  | None => True
  | Some l => population S J l h
  end.

(** A supplied count vector has [S] non-negative entries that sum to [J]. *)
Definition valid_opinion_counts (S J : Z) (oc : option loc) (h : heap) : Prop :=
  match oc with
  | None => True
  | Some c => ∃ cv, h !! c = Some cv ∧ valid_counts S J cv
  end.

(** Two generators, possibly of different kinds, whose states related by
    [R] give the same draws and related next states: what two sources
    initialised from the same seed do. *)
Definition same_draws {G1 G2 : Type} `{Generator G1} `{Generator G2}
    (R : G1 → G2 → Prop) : Prop :=
  (∀ lo hi g1 g2, R g1 g2 →
     (next_integer lo hi g1).1 = (next_integer lo hi g2).1 ∧
     R (next_integer lo hi g1).2 (next_integer lo hi g2).2) ∧
  (∀ g1 g2, R g1 g2 →
     (next_double g1).1 = (next_double g2).1 ∧
     R (next_double g1).2 (next_double g2).2).

(** Two computations that leave the same store and related values, or
    raise the same exception *)
Definition sim {A1 A2} (rel : A1 → A2 → Prop) (m1 : M A1) (m2 : M A2) : Prop :=
  ∀ h, match m1 h, m2 h with
       | (h1, Ok a1), (h2, Ok a2) => h1 = h2 ∧ rel a1 a2
       | (h1, Raise e1), (h2, Raise e2) => h1 = h2 ∧ e1 = e2
       | _, _ => False
       end.

(** Local variables that agree except for the generator states, which
    are related *)
Definition frame_rel {G1 G2} (R : G1 → G2 → Prop)
    (f1 : @frame G1) (f2 : @frame G2) : Prop :=
  opinions f1 = opinions f2 ∧ opinion_counts f1 = opinion_counts f2 ∧
  richness f1 = richness f2 ∧
  opinion_counts_store f1 = opinion_counts_store f2 ∧
  time f1 = time f2 ∧ time_c f1 = time_c f2 ∧
  k f1 = k f2 ∧ k_c f1 = k_c f2 ∧ R (rng f1) (rng f2).

Definition control_rel {G1 G2} (R : G1 → G2 → Prop)
    (c1 : @control G1) (c2 : @control G2) : Prop :=
  match c1, c2 with
  | Continue f1, Continue f2 => frame_rel R f1 f2
  | Return o1, Return o2 => o1 = o2
  | _, _ => False
  end.

(** ** Vocabulary of the further properties *)

(** [t / J] as line 96 and line 109 store it *)
Definition generation_time (J t : Z) : Q := Qred (inject_Z t / inject_Z J).

(** The number of individuals of [a] that hold the label [o] *)
Definition count_label (o : Z) (a : list Z) : Z :=
  Z.of_nat (length (filter (λ x, x = o) a)).

(** The count of every label of [0, S) in [a], in the order of the labels *)
Definition label_counts (S : Z) (a : list Z) : list Z :=
  (λ o, count_label o a) <$> seqZ 0 S.

(** The array behind [ops] holds only labels that satisfy [P]. *)
Definition labels_among (P : Z → Prop) (ops : loc) (h : heap) : Prop :=
  ∃ a, h !! ops = Some a ∧ Forall P a.

(** [c[key]] on a [Counter]: the count of [key], 0 when it is missing *)
Fixpoint counter_get (key : Z) (c : list (Z * Z)) : Z :=
  match c with
  | [] => 0%Z
  | (k, v) :: c' => if (k =? key)%Z then v else counter_get key c'
  end.

(** The entry of [sched] that the index [idx] is waiting for is [t]. *)
Definition pending (sched : list Z) (idx t : Z) : Prop :=
  (idx < Z.of_nat (length sched))%Z ∧ sched !! Z.to_nat (idx - 1) = Some t.

(** The first [idx] slots of [times] hold 0 and then the generation
    times of the first [idx - 1] entries of [sched]. *)
Definition times_recorded (J : Z) (sched : list Z) (idx : Z) (times : list Q)
  : Prop :=
  take (Z.to_nat idx) times
  = 0%Q :: (generation_time J <$> take (Z.to_nat (idx - 1)) sched).

(** The entry that [idx] is waiting for, if any, is not before step [t]. *)
Definition not_passed (sched : list Z) (idx t : Z) : Prop :=
  (idx < Z.of_nat (length sched))%Z →
  ∃ s, sched !! Z.to_nat (idx - 1) = Some s ∧ (t ≤ s)%Z.

(** What the loop has recorded: the times of the schedule entries met so
    far, in order, no entry before step [t] (richness) or [tc] (abundance)
    skipped, and the initial richness [r0] and counts [c0] still in
    slot 0. *)
Definition trace_ok {G} (J : Z) (log_steps log_steps_count : list Z)
    (r0 : Z) (c0 : list Z) (t tc : Z) (f : @frame G) : Prop :=
  times_recorded J log_steps (k f) (time f) ∧
  times_recorded J log_steps_count (k_c f) (time_c f) ∧
  not_passed log_steps (k f) t ∧
  not_passed log_steps_count (k_c f) tc ∧
  richness f !! 0 = Some r0 ∧
  opinion_counts_store f !! 0 = Some c0.

(** The initial richness and counts, and the two times 0, are in slot 0
    of what is returned. *)
Definition initial_slot (r0 : Z) (c0 : list Z) (o : outputs) : Prop :=
  out_richness o !! 0 = Some r0 ∧ out_counts o !! 0 = Some c0 ∧
  out_time o !! 0 = Some 0%Q ∧ out_time_c o !! 0 = Some 0%Q.

(** * Verification *)

(** ** A Hoare logic for store computations *)

Lemma hoare_ret {A} (P : heap → Prop) (a : A) Q E :
  (∀ h, P h → Q a h) → hoare P (mret a) Q E.
Proof. intros HQ h HP. by apply HQ. Qed.

Lemma hoare_bind {A B} (P : heap → Prop) (m : M A) (f : A → M B) R Q E :
  hoare P m R E → (∀ a, hoare (R a) (f a) Q E) → hoare P (m ≫= f) Q E.
Proof.
  intros Hm Hf h HP. specialize (Hm h HP).
  unfold mbind, M_bind, bind. destruct (m h) as [h' [a|e]]; [|done].
  by apply Hf.
Qed.

Lemma hoare_lift {A} (P : heap → Prop) (r : result A) Q E :
  (∀ h, P h → match r with Ok a => Q a h | Raise e => E e h end) →
  hoare P (lift r) Q E.
Proof. intros Hr h HP. specialize (Hr h HP). unfold lift. by destruct r. Qed.

Lemma hoare_conseq {A} (P P' : heap → Prop) (m : M A) (Q Q' : A → heap → Prop)
    (E E' : exn → heap → Prop) :
  hoare P' m Q' E' →
  (∀ h, P h → P' h) → (∀ a h, Q' a h → Q a h) → (∀ e h, E' e h → E e h) →
  hoare P m Q E.
Proof.
  intros Hm HP HQ HE h Hh. specialize (Hm h (HP h Hh)).
  destruct (m h) as [h' [a|e]]; auto.
Qed.

Lemma hoare_load (P : heap → Prop) (l : loc) Q E :
  (∀ h, P h → match h !! l with Some a => Q a h | None => E NoObject h end) →
  hoare P (load l) Q E.
Proof. intros Hl h HP. specialize (Hl h HP). unfold load. by destruct (h !! l). Qed.

Lemma hoare_alloc (P : heap → Prop) (a : list Z) Q E :
  (∀ h, P h → Q (length h) (h ++ [a])) → hoare P (alloc a) Q E.
Proof. intros Ha h HP. by apply Ha. Qed.

Lemma hoare_store (P : heap → Prop) (l : loc) (a : list Z) Q E :
  (∀ h, P h → match h !! l with
              | Some _ => Q tt (<[l := a]> h)
              | None => E NoObject h
              end) →
  hoare P (store l a) Q E.
Proof. intros Hs h HP. specialize (Hs h HP). unfold store. by destruct (h !! l). Qed.

(** ** The caller's objects are never written (frame) *)

Section Frame.
Context {G : Type} `{Generator G}.
Variable h0 : heap.

#[local] Abbreviation keeps := (keeps h0).
#[local] Abbreviation framed := (framed h0).

Lemma keeps_alloc h a : keeps h → keeps (h ++ [a]).
Proof. intros Hk. by apply prefix_app_r. Qed.

Lemma keeps_insert h l a : length h0 ≤ l → keeps h → keeps (<[l := a]> h).
Proof.
  intros Hl [t ->]. exists (<[l - length h0 := a]> t).
  by rewrite insert_app_r_alt.
Qed.

Lemma keeps_length h : keeps h → length h0 ≤ length h.
Proof. intros [t ->]. rewrite length_app. lia. Qed.

Lemma framed_ret {A} (a : A) (Q : A → Prop) : Q a → framed (mret a) Q.
Proof. intros HQ. by apply hoare_ret. Qed.

Lemma framed_bind {A B} (m : M A) (f : A → M B) (R : A → Prop) (Q : B → Prop) :
  framed m R → (∀ a, R a → framed (f a) Q) → framed (m ≫= f) Q.
Proof.
  intros Hm Hf. eapply hoare_bind; [exact Hm|].
  intros a h [Hk HR]. by apply Hf.
Qed.

Lemma framed_lift {A} (r : result A) : framed (lift r) (λ a, r = Ok a).
Proof. apply hoare_lift. intros h Hk. by destruct r. Qed.

Lemma framed_weaken {A} (m : M A) (Q Q' : A → Prop) :
  framed m Q → (∀ a, Q a → Q' a) → framed m Q'.
Proof.
  intros Hm HQ. eapply hoare_conseq; [exact Hm|done| |done].
  intros a h [? ?]. auto.
Qed.

Lemma framed_load l : framed (load l) (λ _, True).
Proof. apply hoare_load. intros h Hk. by destruct (h !! l). Qed.

Lemma framed_alloc a : framed (alloc a) (λ l, length h0 ≤ l).
Proof.
  apply hoare_alloc. intros h Hk. split; [by apply keeps_alloc|].
  by apply keeps_length.
Qed.

Lemma framed_store l a : length h0 ≤ l → framed (store l a) (λ _, True).
Proof.
  intros Hl. apply hoare_store. intros h Hk.
  destruct (h !! l); [|done]. split; [by apply keeps_insert|done].
Qed.

Lemma framed_read_at l i : framed (read_at l i) (λ _, True).
Proof.
  unfold read_at. eapply framed_bind; [apply framed_load|].
  intros a _. eapply framed_weaken; [apply framed_lift|done].
Qed.

Lemma framed_write_at l i v : length h0 ≤ l → framed (write_at l i v) (λ _, True).
Proof.
  intros Hl. unfold write_at. eapply framed_bind; [apply framed_load|].
  intros a _. eapply framed_bind; [apply framed_lift|].
  intros a' _. by apply framed_store.
Qed.

Lemma framed_for_each {A} (body : A → M unit) (l : list A) :
  (∀ x, framed (body x) (λ _, True)) → framed (for_each body l) (λ _, True).
Proof.
  intros Hb. induction l as [|x l IH]; simpl.
  - by apply framed_ret.
  - eapply framed_bind; [apply Hb|]. intros _ _. exact IH.
Qed.

Lemma framed_increment c o : length h0 ≤ c → framed (increment c o) (λ _, True).
Proof.
  intros Hc. unfold increment. eapply framed_bind; [apply framed_read_at|].
  intros v _. by apply framed_write_at.
Qed.

Lemma framed_init_opinions S J IC g :
  framed (init_opinions S J IC g) (λ r, length h0 ≤ r.1).
Proof.
  unfold init_opinions.
  eapply framed_bind with (R := λ _, True).
  - destruct IC as [l0|].
    + eapply framed_bind; [apply framed_load|]. intros a _.
      eapply framed_bind; [apply framed_alloc|]. intros l _.
      by apply framed_ret.
    + eapply framed_bind; [apply framed_lift|]. intros [xs g1] _.
      eapply framed_bind; [apply framed_alloc|]. intros l _.
      by apply framed_ret.
  - intros [ic g1] _.
    eapply framed_bind; [apply framed_load|]. intros a _.
    eapply framed_bind; [apply framed_alloc|]. intros ops Hops.
    by apply framed_ret.
Qed.

Lemma framed_init_counts S ops oc : framed (init_counts S ops oc) (λ _, True).
Proof.
  unfold init_counts. destruct oc as [c|].
  - by apply framed_ret.
  - eapply framed_bind; [apply framed_lift|]. intros z _.
    eapply framed_bind; [apply framed_alloc|]. intros c Hc.
    eapply framed_bind; [apply framed_load|]. intros a _.
    eapply framed_bind.
    { apply framed_for_each. intros o. by apply framed_increment. }
    intros _ _. by apply framed_ret.
Qed.

Lemma framed_update_step S J nu ops g :
  length h0 ≤ ops → framed (update_step S J nu ops g) (λ _, True).
Proof.
  intros Hops. unfold update_step.
  eapply framed_bind; [apply framed_lift|]. intros [i g1] _.
  destruct (next_double g1) as [u g2].
  destruct (Qle_bool nu u).
  - eapply framed_bind; [apply framed_lift|]. intros [j g3] _.
    eapply framed_bind; [apply framed_read_at|]. intros v _.
    eapply framed_bind; [by apply framed_write_at|]. intros _ _.
    by apply framed_ret.
  - eapply framed_bind; [apply framed_lift|]. intros [v g3] _.
    eapply framed_bind; [by apply framed_write_at|]. intros _ _.
    by apply framed_ret.
Qed.

Lemma framed_record_richness J nu log_steps t (f : @frame G) :
  framed (record_richness J nu log_steps t f)
         (λ c, match c with
               | Continue f' => opinions f' = opinions f
               | Return _ => True
               end).
Proof.
  unfold record_richness.
  destruct (k f <? _)%Z; [|by apply framed_ret].
  eapply framed_bind; [apply framed_lift|]. intros s _.
  destruct (t =? s)%Z; [|by apply framed_ret].
  eapply framed_bind; [apply framed_load|]. intros a _.
  eapply framed_bind; [apply framed_lift|]. intros richness1 _.
  eapply framed_bind; [apply framed_lift|]. intros q _.
  eapply framed_bind; [apply framed_lift|]. intros time1 _.
  eapply framed_bind; [apply framed_lift|]. intros r _.
  destruct (Qeq_bool nu 0 && (r =? 1)%Z); by apply framed_ret.
Qed.

Lemma framed_record_counts S J log_steps_count t (f : @frame G) :
  framed (record_counts S J log_steps_count t f)
         (λ f', opinions f' = opinions f).
Proof.
  unfold record_counts.
  destruct (k_c f <? _)%Z; [|by apply framed_ret].
  eapply framed_bind; [apply framed_lift|]. intros s _.
  destruct (t =? s)%Z; [|by apply framed_ret].
  eapply framed_bind; [apply framed_load|]. intros a _.
  eapply framed_bind; [apply framed_lift|]. intros z _.
  eapply framed_bind; [apply framed_alloc|]. intros c Hc.
  eapply framed_bind.
  { apply framed_for_each. intros kv. by apply framed_write_at. }
  intros _ _.
  eapply framed_bind; [apply framed_load|]. intros col _.
  eapply framed_bind; [apply framed_lift|]. intros store1 _.
  eapply framed_bind; [apply framed_lift|]. intros q _.
  eapply framed_bind; [apply framed_lift|]. intros time_c1 _.
  by apply framed_ret.
Qed.

Lemma framed_trim_trailing log_steps (f : @frame G) :
  framed (trim_trailing log_steps f) (λ f', opinions f' = opinions f).
Proof.
  unfold trim_trailing.
  destruct (k f =? _)%Z; [|by apply framed_ret].
  eapply framed_bind; [apply framed_lift|]. intros r _.
  destruct (r =? 0)%Z; by apply framed_ret.
Qed.

Lemma framed_loop_body S J nu log_steps log_steps_count t (f : @frame G) :
  length h0 ≤ opinions f →
  framed (loop_body S J nu log_steps log_steps_count t f)
         (λ c, match c with
               | Continue f' => opinions f' = opinions f
               | Return _ => True
               end).
Proof.
  intros Hops. unfold loop_body.
  eapply framed_bind; [by apply framed_update_step|]. intros g _.
  eapply framed_bind; [by apply framed_record_richness|]. intros [f1|o] Hf1.
  - eapply framed_bind; [by apply framed_record_counts|]. intros f2 Hf2.
    eapply framed_bind; [by apply framed_trim_trailing|]. intros f3 Hf3.
    apply framed_ret. simpl in *. congruence.
  - by apply framed_ret.
Qed.

Lemma framed_run_steps S J nu log_steps log_steps_count ts f :
  length h0 ≤ opinions f →
  framed (run_steps S J nu log_steps log_steps_count ts f) (λ _, True).
Proof.
  revert f. induction ts as [|t ts IH]; intros f Hops; simpl.
  - by apply framed_ret.
  - eapply framed_bind; [by apply framed_loop_body|]. intros [f'|o] Hf'.
    + apply IH. by rewrite Hf'.
    + by apply framed_ret.
Qed.

Lemma framed_init_frame S log_steps log_steps_count ops oc g :
  length h0 ≤ ops →
  framed (init_frame S log_steps log_steps_count ops oc g)
         (λ f : @frame G, length h0 ≤ opinions f).
Proof.
  intros Hops. unfold init_frame.
  eapply framed_bind; [apply framed_lift|]. intros richness0 _.
  eapply framed_bind; [apply framed_lift|]. intros store0 _.
  eapply framed_bind; [apply framed_lift|]. intros time0 _.
  eapply framed_bind; [apply framed_lift|]. intros time_c0 _.
  eapply framed_bind; [apply framed_load|]. intros a _.
  eapply framed_bind; [apply framed_lift|]. intros richness1 _.
  eapply framed_bind; [apply framed_alloc|]. intros copy _.
  eapply framed_bind; [apply framed_load|]. intros col _.
  eapply framed_bind; [apply framed_lift|]. intros store1 _.
  eapply framed_bind; [apply framed_lift|]. intros time1 _.
  eapply framed_bind; [apply framed_lift|]. intros time_c1 _.
  by apply framed_ret.
Qed.

Lemma framed_simulate S J T nu log_steps log_steps_count ops oc g :
  length h0 ≤ ops →
  framed (simulate S J T nu log_steps log_steps_count ops oc g) (λ _, True).
Proof.
  intros Hops. unfold simulate.
  eapply framed_bind; [by apply framed_init_frame|]. intros f Hf.
  eapply framed_bind; [by apply framed_run_steps|]. intros [f'|o] _;
    by apply framed_ret.
Qed.

Lemma framed_voter_model S J T nu n n_c IC oc g :
  framed (voter_model S J T nu n n_c IC oc g) (λ _, True).
Proof.
  unfold voter_model, voter_model_with.
  eapply framed_bind; [apply framed_init_opinions|]. intros [ops g1] Hops.
  eapply framed_bind; [apply framed_init_counts|]. intros c _.
  eapply framed_bind; [apply framed_lift|]. intros log_steps _.
  eapply framed_bind; [apply framed_lift|]. intros log_steps_count _.
  by apply framed_simulate.
Qed.

End Frame.

(** C8. [voter_model] never writes an array of the caller: whatever the
    arguments, and whether the call returns or raises, every object of the
    caller's store, the supplied initial condition and the supplied count
    vector among them, holds afterwards exactly what it held at entry. *)
Theorem voter_model_keeps_caller_arrays {G : Type} `{Generator G}
    (S J T : Z) (nu : Q) (num_log_steps num_log_steps_count : Z)
    (IC opinion_counts : option loc) (g : G) (h : heap) :
  let h' := (voter_model S J T nu num_log_steps num_log_steps_count
               IC opinion_counts g h).1 in
  (∀ (l : loc) (a : list Z), h !! l = Some a → h' !! l = Some a) ∧
  (∀ l a, IC = Some l → h !! l = Some a → h' !! l = Some a) ∧
  (∀ l a, opinion_counts = Some l → h !! l = Some a → h' !! l = Some a).
Proof.
  intros h'.
  assert (Hk : keeps h h').
  { pose proof (framed_voter_model h S J T nu num_log_steps
                  num_log_steps_count IC opinion_counts g h) as Hf.
    unfold h'. simpl in Hf.
    destruct (voter_model _ _ _ _ _ _ _ _ _ h) as [h1 [o|e]]; simpl.
    - apply Hf. by unfold keeps.
    - apply Hf. by unfold keeps. }
  assert (Hl : ∀ (l : loc) (a : list Z), h !! l = Some a → h' !! l = Some a).
  { intros l a Hla. destruct Hk as [t ->]. by apply lookup_app_l_Some. }
  split; [exact Hl|]. split; intros l a _; apply Hl.
Qed.

Lemma voter_model_keeps_caller_arrays_witness :
  let h := [[0; 1; 1]; [1; 2]]%Z in
  let h' := (voter_model 2 3 4 (1 # 10) 5 3 (Some 0) (Some 1)
               (default_rng 3) h).1 in
  h' !! 0 = Some [0; 1; 1]%Z ∧ h' !! 1 = Some [1; 2]%Z.
Proof.
  intros h h'.
  destruct (voter_model_keeps_caller_arrays 2 3 4 (1 # 10) 5 3
              (Some 0) (Some 1) (default_rng 3) h) as (_ & HIC & Hoc).
  split; [apply (HIC 0)|apply (Hoc 1)]; reflexivity.
Defined.

(** ** numpy indexing and sums *)

Section Arrays.

Lemma np_index_nonneg len i :
  (0 ≤ i < Z.of_nat len)%Z → np_index len i = Ok (Z.to_nat i).
Proof.
  intros Hi. unfold np_index.
  destruct (0 <=? i)%Z eqn:H1; [|lia].
  destruct (i <? Z.of_nat len)%Z eqn:H2; [done|lia].
Qed.

Lemma np_get_nonneg {A} (a : list A) i v :
  (0 ≤ i)%Z → a !! Z.to_nat i = Some v → np_get a i = Ok v.
Proof.
  intros Hi Hv. unfold np_get.
  rewrite np_index_nonneg; [simpl; by rewrite Hv|].
  apply lookup_lt_Some in Hv. lia.
Qed.

Lemma np_get_in_bounds {A} (a : list A) i :
  (0 ≤ i < Z.of_nat (length a))%Z →
  ∃ v, np_get a i = Ok v ∧ a !! Z.to_nat i = Some v.
Proof.
  intros Hi. destruct (lookup_lt_is_Some_2 a (Z.to_nat i)) as [v Hv]; [lia|].
  exists v. split; [|done]. apply np_get_nonneg; [lia|done].
Qed.

Lemma np_set_nonneg {A} (a : list A) i v :
  (0 ≤ i < Z.of_nat (length a))%Z → np_set a i v = Ok (<[Z.to_nat i := v]> a).
Proof. intros Hi. unfold np_set. by rewrite np_index_nonneg. Qed.

Lemma np_get_last {A} (xs : list A) x : np_get (xs ++ [x]) (-1) = Ok x.
Proof.
  unfold np_get, np_index. rewrite length_app. simpl.
  destruct (- Z.of_nat (length xs + 1) <=? -1)%Z eqn:H1;
    [|apply Z.leb_gt in H1; lia]. simpl.
  replace (Z.to_nat (Z.of_nat (length xs + 1) + -1)) with (length xs) by lia.
  by rewrite list_lookup_middle.
Qed.

Lemma np_slice_to_last {A} (xs : list A) x : np_slice_to (xs ++ [x]) (-1) = xs.
Proof.
  unfold np_slice_to. simpl. rewrite length_app. simpl.
  replace (length xs + 1 - Z.to_nat (- (-1))) with (length xs) by lia.
  by rewrite take_app_length.
Qed.

Lemma np_slice_to_nonneg {A} (a : list A) n :
  (0 ≤ n)%Z → np_slice_to a n = take (Z.to_nat n) a.
Proof. intros Hn. unfold np_slice_to. destruct (0 <=? n)%Z eqn:E; [done|lia]. Qed.

Lemma np_zeros_nonneg n : (0 ≤ n)%Z → np_zeros n = Ok (replicate (Z.to_nat n) 0%Z).
Proof. intros Hn. unfold np_zeros. destruct (n <? 0)%Z eqn:E; [lia|done]. Qed.

Lemma Zsum_replicate_0 n : Zsum (replicate n 0%Z) = 0%Z.
Proof. induction n as [|n IH]; simpl; [done|]. by rewrite IH. Qed.

Lemma Zsum_insert a i old v :
  a !! i = Some old → Zsum (<[i := v]> a) = (Zsum a - old + v)%Z.
Proof.
  revert i. induction a as [|x a IH]; intros [|i] Hi; simplify_eq/=.
  - lia.
  - rewrite (IH i); [lia|done].
Qed.

(** A non-negative vector with a positive sum has a positive entry. *)
Lemma count_positive_pos a :
  Forall (λ c, (0 ≤ c)%Z) a → (0 < Zsum a)%Z → (1 ≤ count_positive a)%Z.
Proof.
  unfold count_positive. induction 1 as [|x a Hx Ha IH]; simpl; [lia|].
  intros Hs. rewrite filter_cons. destruct (decide (0 < x)%Z) as [Hp|Hn].
  - simpl. lia.
  - assert (x = 0%Z) as -> by lia. apply IH. lia.
Qed.

(** [np.unique] *)

Lemma unique_insert_elem x y l : y ∈ unique_insert x l ↔ y = x ∨ y ∈ l.
Proof.
  induction l as [|z l IH]; simpl.
  - rewrite list_elem_of_singleton, elem_of_nil. tauto.
  - destruct (x <? z)%Z eqn:E1; [by rewrite elem_of_cons|].
    destruct (x =? z)%Z eqn:E2.
    + apply Z.eqb_eq in E2 as ->. rewrite elem_of_cons. tauto.
    + rewrite !elem_of_cons, IH. tauto.
Qed.

Lemma np_unique_elem y l : y ∈ np_unique l ↔ y ∈ l.
Proof.
  unfold np_unique. induction l as [|x l IH]; simpl; [done|].
  rewrite unique_insert_elem, IH, elem_of_cons. tauto.
Qed.

Lemma unique_insert_sorted x l :
  StronglySorted Z.lt l → StronglySorted Z.lt (unique_insert x l).
Proof.
  induction 1 as [|z l Hl IH Hz]; simpl.
  - repeat constructor.
  - destruct (x <? z)%Z eqn:E1.
    + constructor; [by constructor|]. constructor; [lia|].
      eapply Forall_impl; [|exact Hz]. simpl. intros. lia.
    + destruct (x =? z)%Z eqn:E2; [by constructor|].
      constructor; [done|]. apply list.Forall_forall. intros y Hy.
      apply unique_insert_elem in Hy as [->|Hy]; [lia|].
      by eapply list.Forall_forall in Hz.
Qed.

Lemma np_unique_sorted l : StronglySorted Z.lt (np_unique l).
Proof.
  unfold np_unique. induction l as [|x l IH]; simpl; [constructor|].
  by apply unique_insert_sorted.
Qed.

Lemma unique_insert_length x l :
  length l ≤ length (unique_insert x l) ≤ S (length l).
Proof.
  induction l as [|z l IH]; simpl; [lia|].
  destruct (x <? z)%Z; [simpl; lia|]. destruct (x =? z)%Z; simpl; lia.
Qed.

Lemma np_unique_length l : length (np_unique l) ≤ length l.
Proof.
  unfold np_unique. induction l as [|x l IH]; simpl; [done|].
  pose proof (unique_insert_length x (foldr unique_insert [] l)). lia.
Qed.

Lemma np_unique_nonempty l : l ≠ [] → 1 ≤ length (np_unique l).
Proof.
  destruct l as [|x l]; [done|]. intros _. unfold np_unique. simpl.
  pose proof (unique_insert_length x (foldr unique_insert [] l)).
  destruct (unique_insert x _) eqn:E; simpl; [|lia].
  assert (x ∈ unique_insert x (foldr unique_insert [] l)) as Hx
    by (apply unique_insert_elem; by left).
  rewrite E in Hx. by apply elem_of_nil in Hx.
Qed.

End Arrays.

(** ** Running store computations *)

Section Running.

Lemma run_bind {A B} (m : M A) (f : A → M B) h :
  (m ≫= f) h = match m h with
               | (h', Ok a) => f a h'
               | (h', Raise e) => (h', Raise e)
               end.
Proof. reflexivity. Qed.

Lemma run_bind_ok {A B} (m : M A) (f : A → M B) h h' a :
  m h = (h', Ok a) → (m ≫= f) h = f a h'.
Proof. intros Hm. by rewrite run_bind, Hm. Qed.

Lemma run_load h l a : h !! l = Some a → load l h = (h, Ok a).
Proof. intros Hl. unfold load. by rewrite Hl. Qed.

Lemma run_store h l a b : h !! l = Some a → store l b h = (<[l := b]> h, Ok tt).
Proof. intros Hl. unfold store. by rewrite Hl. Qed.

Lemma run_read_at h l a i v :
  h !! l = Some a → (0 ≤ i)%Z → a !! Z.to_nat i = Some v →
  read_at l i h = (h, Ok v).
Proof.
  intros Hl Hi Hv. unfold read_at.
  rewrite (run_bind_ok _ _ _ _ _ (run_load _ _ _ Hl)).
  unfold lift. by rewrite (np_get_nonneg _ _ _ Hi Hv).
Qed.

Lemma run_write_at h l a i v :
  h !! l = Some a → (0 ≤ i < Z.of_nat (length a))%Z →
  write_at l i v h = (<[l := <[Z.to_nat i := v]> a]> h, Ok tt).
Proof.
  intros Hl Hi. unfold write_at.
  rewrite (run_bind_ok _ _ _ _ _ (run_load _ _ _ Hl)).
  rewrite run_bind. unfold lift. rewrite (np_set_nonneg _ _ _ Hi).
  by apply run_store with a.
Qed.

Lemma lookup_alloc_old (h : heap) a l b :
  h !! l = Some b → (h ++ [a]) !! l = Some b.
Proof. intros Hl. by apply lookup_app_l_Some. Qed.

Lemma lookup_alloc_new (h : heap) a : (h ++ [a]) !! length h = Some a.
Proof. by rewrite list_lookup_middle. Qed.

Lemma insert_alloc_new (h : heap) a b : <[length h := b]> (h ++ [a]) = h ++ [b].
Proof.
  rewrite insert_app_r_alt by lia. by replace (length h - length h) with 0 by lia.
Qed.

End Running.

(** ** Valid runs complete and keep the invariants *)

Section Draws_in_range.
Context {G : Type} `{GeneratorContract G}.

Lemma rng_integers_ok lo hi (g : G) :
  (lo < hi)%Z →
  ∃ x g', rng_integers lo hi g = Ok (x, g') ∧ (lo ≤ x < hi)%Z.
Proof.
  intros Hlt. unfold rng_integers. destruct (lo <? hi)%Z eqn:E; [|lia].
  pose proof (next_integer_range lo hi g Hlt) as Hr.
  destruct (next_integer lo hi g) as [x g']. by exists x, g'.
Qed.

Lemma draw_many_range n lo hi (g : G) :
  (lo < hi)%Z →
  length (draw_many n lo hi g).1 = n ∧
  Forall (λ x, (lo ≤ x < hi)%Z) (draw_many n lo hi g).1.
Proof.
  intros Hlt. revert g. induction n as [|n IH]; intros g; simpl; [done|].
  pose proof (next_integer_range lo hi g Hlt) as Hr.
  destruct (next_integer lo hi g) as [x g1]. specialize (IH g1).
  destruct (draw_many n lo hi g1) as [xs g2]. simpl in *.
  destruct IH as [-> IH]. split; [done|]. by constructor.
Qed.

(** One elementary update of a valid population succeeds and leaves a
    valid population at the same place. *)
Lemma update_step_ok S J nu ops (g : G) h :
  (1 ≤ S)%Z → (1 ≤ J)%Z → population S J ops h →
  ∃ a' g', update_step S J nu ops g h = (<[ops := a']> h, Ok g') ∧
           length a' = Z.to_nat J ∧ Forall (in_range S) a'.
Proof.
  intros HS HJ (a & Hops & Hlen & Ha). unfold update_step.
  destruct (rng_integers_ok 0 J g) as (i & g1 & Hi & Hir); [lia|].
  rewrite run_bind. unfold lift at 1. rewrite Hi.
  destruct (next_double g1) as [u g2]. destruct (Qle_bool nu u).
  - destruct (rng_integers_ok 0 J g2) as (j & g3 & Hj & Hjr); [lia|].
    rewrite run_bind. unfold lift at 1. rewrite Hj.
    destruct (lookup_lt_is_Some_2 a (Z.to_nat j)) as [v Hv]; [lia|].
    rewrite (run_bind_ok _ _ _ _ _ (run_read_at _ _ _ _ _ Hops (proj1 Hjr) Hv)).
    rewrite (run_bind_ok _ _ h (<[ops := <[Z.to_nat i := v]> a]> h) tt);
      [|apply run_write_at; [done|lia]].
    exists (<[Z.to_nat i := v]> a), g3. split; [done|].
    rewrite length_insert. split; [done|].
    apply Forall_insert; [done|]. by eapply Forall_lookup_1 in Ha.
  - destruct (rng_integers_ok 0 S g2) as (v & g3 & Hv & Hvr); [lia|].
    rewrite run_bind. unfold lift at 1. rewrite Hv.
    rewrite (run_bind_ok _ _ h (<[ops := <[Z.to_nat i := v]> a]> h) tt);
      [|apply run_write_at; [done|lia]].
    exists (<[Z.to_nat i := v]> a), g3. split; [done|].
    rewrite length_insert. split; [done|].
    by apply Forall_insert.
Qed.

End Draws_in_range.

(** ** Tallies *)

Section Tallies.

Lemma tally_spec (a arr : list Z) :
  Forall (λ o, (0 ≤ o < Z.of_nat (length arr))%Z) a →
  Forall (λ c, (0 ≤ c)%Z) arr →
  length (tally a arr) = length arr ∧
  Forall (λ c, (0 ≤ c)%Z) (tally a arr) ∧
  Zsum (tally a arr) = (Zsum arr + Z.of_nat (length a))%Z.
Proof.
  unfold tally. revert arr. induction a as [|o a IH]; intros arr Ha Harr; simpl.
  - split; [done|]. split; [done|lia].
  - apply list.Forall_cons in Ha as [Ho Ha].
    destruct (lookup_lt_is_Some_2 arr (Z.to_nat o)) as [v Hv]; [lia|].
    rewrite Hv. simpl.
    assert (0 ≤ v)%Z as Hv0 by (by eapply Forall_lookup_1 in Harr).
    destruct (IH (<[Z.to_nat o := (v + 1)%Z]> arr)) as (Hl & Hp & Hs).
    + by rewrite length_insert.
    + apply Forall_insert; [done|lia].
    + rewrite length_insert in Hl. split; [done|]. split; [done|].
      rewrite Hs, (Zsum_insert _ _ v) by done. lia.
Qed.

Lemma run_for_each_increment (h : heap) c (a arr : list Z) :
  h !! c = Some arr →
  Forall (λ o, (0 ≤ o < Z.of_nat (length arr))%Z) a →
  for_each (increment c) a h = (<[c := tally a arr]> h, Ok tt).
Proof.
  unfold tally. revert h arr. induction a as [|o a IH]; intros h arr Hc Ha; simpl.
  - by rewrite list_insert_id.
  - apply list.Forall_cons in Ha as [Ho Ha].
    destruct (lookup_lt_is_Some_2 arr (Z.to_nat o)) as [v Hv]; [lia|].
    rewrite Hv. simpl.
    assert (increment c o h = (<[c := <[Z.to_nat o := (v + 1)%Z]> arr]> h, Ok tt)) as Hinc.
    { unfold increment.
      rewrite (run_bind_ok _ _ _ _ _ (run_read_at _ _ _ _ _ Hc (proj1 Ho) Hv)).
      by apply run_write_at. }
    rewrite (run_bind_ok _ _ _ _ _ Hinc).
    rewrite (IH _ (<[Z.to_nat o := (v + 1)%Z]> arr)).
    + by rewrite list_insert_insert_eq.
    + apply list_lookup_insert_eq. by eapply lookup_lt_Some.
    + by rewrite length_insert.
Qed.

Lemma counter_add_keys key c k' :
  k' ∈ (counter_add key c).*1 ↔ k' = key ∨ k' ∈ c.*1.
Proof.
  induction c as [|[k0 v0] c IH]; csimpl.
  - rewrite list_elem_of_singleton, elem_of_nil. tauto.
  - destruct (k0 =? key)%Z eqn:E; csimpl.
    + apply Z.eqb_eq in E as ->. rewrite elem_of_cons. tauto.
    + rewrite !elem_of_cons, IH. tauto.
Qed.

Lemma counter_add_NoDup key c : NoDup c.*1 → NoDup (counter_add key c).*1.
Proof.
  induction c as [|[k0 v0] c IH]; csimpl; intros Hnd.
  - apply NoDup_singleton.
  - apply list.NoDup_cons in Hnd as [Hk0 Hnd].
    destruct (k0 =? key)%Z eqn:E; csimpl.
    + by apply list.NoDup_cons.
    + apply list.NoDup_cons. split; [|by apply IH].
      rewrite counter_add_keys. apply Z.eqb_neq in E. intros [->|?]; done.
Qed.

Lemma counter_add_sum key c :
  Zsum (counter_add key c).*2 = (Zsum c.*2 + 1)%Z.
Proof.
  induction c as [|[k0 v0] c IH]; csimpl; [done|].
  destruct (k0 =? key)%Z; csimpl; [lia|]. rewrite IH. lia.
Qed.

Lemma counter_add_nonneg key c :
  Forall (λ kv, (0 ≤ kv.2)%Z) c → Forall (λ kv, (0 ≤ kv.2)%Z) (counter_add key c).
Proof.
  induction 1 as [|[k0 v0] c Hv Hc IH]; simpl.
  - by repeat constructor.
  - destruct (k0 =? key)%Z; constructor; simpl in *; try done. lia.
Qed.

Lemma Counter_spec (a : list Z) :
  NoDup (Counter a).*1 ∧
  (∀ key, key ∈ (Counter a).*1 → key ∈ a) ∧
  Forall (λ kv, (0 ≤ kv.2)%Z) (Counter a) ∧
  Zsum (Counter a).*2 = Z.of_nat (length a).
Proof.
  unfold Counter.
  assert (∀ c0 : list (Z * Z),
    NoDup c0.*1 → Forall (λ kv, (0 ≤ kv.2)%Z) c0 →
    let c := foldl (λ c x, counter_add x c) c0 a in
    NoDup c.*1 ∧ (∀ key, key ∈ c.*1 → key ∈ c0.*1 ∨ key ∈ a) ∧
    Forall (λ kv, (0 ≤ kv.2)%Z) c ∧
    Zsum c.*2 = (Zsum c0.*2 + Z.of_nat (length a))%Z) as Hgen.
  { induction a as [|x a IH]; intros c0 Hnd Hv; simpl.
    - split; [done|]. split; [by left|]. split; [done|lia].
    - destruct (IH (counter_add x c0)) as (H1 & H2 & H3 & H4).
      + by apply counter_add_NoDup.
      + by apply counter_add_nonneg.
      + split; [done|]. split; [|split; [done|]].
        * intros key Hk. apply H2 in Hk as [Hk|Hk].
          -- apply counter_add_keys in Hk as [->|Hk]; [right; by left|by left].
          -- right. by right.
        * rewrite H4, counter_add_sum. lia. }
  destruct (Hgen [] (NoDup_nil_2) (Forall_nil_2 _)) as (H1 & H2 & H3 & H4).
  split; [done|]. split; [|done].
  intros key Hk. apply H2 in Hk as [Hk|Hk]; [by apply elem_of_nil in Hk|done].
Qed.

Lemma scatter_spec (counts : list (Z * Z)) (arr : list Z) :
  NoDup counts.*1 →
  Forall (λ kv, (0 ≤ kv.1 < Z.of_nat (length arr))%Z ∧ (0 ≤ kv.2)%Z) counts →
  (∀ key, key ∈ counts.*1 → arr !! Z.to_nat key = Some 0%Z) →
  Forall (λ c, (0 ≤ c)%Z) arr →
  length (scatter counts arr) = length arr ∧
  Forall (λ c, (0 ≤ c)%Z) (scatter counts arr) ∧
  Zsum (scatter counts arr) = (Zsum arr + Zsum counts.*2)%Z.
Proof.
  unfold scatter. revert arr.
  induction counts as [|[key val] counts IH]; intros arr Hnd Hc Hz Harr; csimpl.
  - split; [done|]. split; [done|lia].
  - apply list.NoDup_cons in Hnd as [Hkey Hnd]. apply list.Forall_cons in Hc as [[Hk Hv] Hc].
    csimpl in *.
    destruct (IH (<[Z.to_nat key := val]> arr)) as (Hl & Hp & Hs).
    + done.
    + by rewrite length_insert.
    + intros key' Hk'. rewrite list_lookup_insert_ne.
      * apply Hz. by right.
      * assert (0 ≤ key')%Z.
        { apply list_elem_of_fmap in Hk' as ([k1 v1] & -> & Hin).
          eapply list.Forall_forall in Hc; [|exact Hin]. simpl in *. lia. }
        intros Heq. apply Hkey. assert (key = key') as -> by lia. done.
    + by apply Forall_insert.
    + rewrite length_insert in Hl. split; [done|]. split; [done|].
      rewrite Hs, (Zsum_insert _ _ 0%Z) by (apply Hz; by left). lia.
Qed.

Lemma run_for_each_scatter (h : heap) c (counts : list (Z * Z)) (arr : list Z) :
  h !! c = Some arr →
  Forall (λ kv, (0 ≤ kv.1 < Z.of_nat (length arr))%Z) counts →
  for_each (λ kv, write_at c kv.1 kv.2) counts h
  = (<[c := scatter counts arr]> h, Ok tt).
Proof.
  unfold scatter. revert h arr.
  induction counts as [|[key val] counts IH]; intros h arr Hc Hk; simpl.
  - by rewrite list_insert_id.
  - apply list.Forall_cons in Hk as [Hkey Hk]. simpl in *.
    rewrite (run_bind_ok _ _ _ _ _ (run_write_at _ _ _ _ val Hc Hkey)).
    rewrite (IH _ (<[Z.to_nat key := val]> arr)).
    + by rewrite list_insert_insert_eq.
    + apply list_lookup_insert_eq. by eapply lookup_lt_Some.
    + by rewrite length_insert.
Qed.

(** The tally of a population of [J] labels of [0, S) is a valid count
    vector. *)
Lemma snapshot_counts_valid S J (a : list Z) :
  (0 ≤ S)%Z → length a = Z.to_nat J → (0 ≤ J)%Z → Forall (in_range S) a →
  valid_counts S J (scatter (Counter a) (replicate (Z.to_nat S) 0%Z)).
Proof.
  intros HS Hlen HJ Ha.
  destruct (Counter_spec a) as (Hnd & Hkeys & Hvals & Hsum).
  destruct (scatter_spec (Counter a) (replicate (Z.to_nat S) 0%Z)) as (Hl & Hp & Hs).
  - done.
  - apply list.Forall_forall. intros [key val] Hin. simpl.
    split; [|by eapply list.Forall_forall in Hvals; [|exact Hin]].
    rewrite length_replicate.
    assert (key ∈ a) as Hka.
    { apply Hkeys. apply list_elem_of_fmap. by exists (key, val). }
    eapply list.Forall_forall in Ha; [|exact Hka]. unfold in_range in Ha. lia.
  - intros key Hk. apply Hkeys in Hk.
    eapply list.Forall_forall in Ha; [|exact Hk]. unfold in_range in Ha.
    apply lookup_replicate_2. lia.
  - by apply Forall_replicate.
  - rewrite length_replicate in Hl. split; [done|]. split; [done|].
    rewrite Hs, Zsum_replicate_0, Hsum. lia.
Qed.

End Tallies.

(** ** The loop invariant *)

Section Invariant.
Context {G : Type} `{GeneratorContract G}.
Variables (S J : Z) (nu : Q) (log_steps log_steps_count : list Z).
Hypothesis S_pos : (1 ≤ S)%Z.
Hypothesis J_pos : (1 ≤ J)%Z.

#[local] Abbreviation L := (Z.of_nat (length log_steps)).
#[local] Abbreviation Lc := (Z.of_nat (length log_steps_count)).

Lemma insert_first_zero (written : list Z) n r :
  <[length written := r]> (written ++ replicate (Datatypes.S n) 0%Z)
  = (written ++ [r]) ++ replicate n 0%Z.
Proof.
  rewrite insert_app_r_alt by lia.
  replace (length written - length written) with 0 by lia.
  by rewrite <- app_assoc.
Qed.

Lemma divide_ok t : ∃ q, divide t J = Ok q.
Proof. unfold divide. destruct (J =? 0)%Z eqn:E; [lia|]. eauto. Qed.

Lemma record_richness_ok t (f : @frame G) h :
  frame_ok S J L Lc f → population S J (opinions f) h →
  ∃ c, record_richness J nu log_steps t f h = (h, Ok c) ∧
       match c with
       | Continue f' => frame_ok S J L Lc f' ∧ opinions f' = opinions f
       | Return o => outputs_ok S J L Lc true o
       end.
Proof.
  intros Hf (a & Hops & Hlen & Ha). unfold record_richness.
  destruct (k f <? L)%Z eqn:Ek; [|by exists (Continue f)].
  apply Z.ltb_lt in Ek.
  pose proof Hf as ((Hk1 & Hk2) & (Hc1 & Hc2) & Htl & Hrs & Htab & Htc).
  destruct (np_get_in_bounds log_steps (k f - 1)) as (s & Hs & _); [lia|].
  rewrite run_bind. unfold lift at 1. rewrite Hs.
  destruct (t =? s)%Z; [|by exists (Continue f)].
  rewrite (run_bind_ok _ _ _ _ _ (run_load _ _ _ Hops)).
  destruct Hrs as (written & Hwl & Hwp & [Hr|[HkL _]]); [|lia].
  set (r := Z.of_nat (length (np_unique a))).
  assert (1 ≤ r)%Z as Hr1.
  { unfold r. pose proof (np_unique_nonempty a) as Hne.
    destruct a; [simpl in Hlen; lia|]. specialize (Hne ltac:(done)). lia. }
  assert (Z.to_nat (L + 1 - k f) = Datatypes.S (Z.to_nat (L - k f))) as Hz by lia.
  assert (length (richness f) = Z.to_nat (L + 1)) as Hrl.
  { rewrite Hr, length_app, length_replicate. lia. }
  rewrite run_bind. unfold lift at 1.
  rewrite np_set_nonneg by lia.
  destruct (divide_ok t) as [q Hq].
  rewrite run_bind. unfold lift at 1. rewrite Hq.
  rewrite run_bind. unfold lift at 1. rewrite np_set_nonneg by lia.
  assert (<[Z.to_nat (k f) := r]> (richness f)
          = (written ++ [r]) ++ replicate (Z.to_nat (L - k f)) 0%Z) as Hr'.
  { rewrite Hr, Hz, <- Hwl. apply insert_first_zero. }
  rewrite Hr'.
  assert (((written ++ [r]) ++ replicate (Z.to_nat (L - k f)) 0%Z)
            !! Z.to_nat (k f) = Some r) as Hget.
  { rewrite <- app_assoc. simpl. apply list_lookup_middle. lia. }
  rewrite run_bind. unfold lift at 1.
  rewrite (np_get_nonneg _ (k f) r) by (first [lia | exact Hget]).
  destruct (Qeq_bool nu 0 && (r =? 1)%Z).
  - eexists (Return _). split; [done|].
    exists (k f + 1)%Z, (k_c f). simpl.
    split; [lia|]. split; [done|]. split; [done|]. right.
    rewrite !np_slice_to_nonneg by lia.
    assert (take (Z.to_nat (k f + 1))
              ((written ++ [r]) ++ replicate (Z.to_nat (L - k f)) 0%Z)
            = written ++ [r]) as ->.
    { apply take_app_length'. rewrite length_app. simpl. lia. }
    split; [lia|]. split; [rewrite length_app; simpl; lia|].
    split; [apply Forall_app; split; [done|by repeat constructor]|].
    rewrite !length_take, length_insert. destruct Htc as [Htcl _]. lia.
  - eexists (Continue _). split; [done|]. unfold frame_ok. simpl. split; [|done].
    split; [lia|]. split; [done|].
    split; [rewrite length_insert, length_app, length_app, length_replicate; simpl; lia|].
    split; [|done].
    exists (written ++ [r]). split; [rewrite length_app; simpl; lia|].
    split; [apply Forall_app; split; [done|by repeat constructor]|].
    left. do 2 f_equal. lia.
Qed.

Lemma record_counts_ok t (f : @frame G) h :
  frame_ok S J L Lc f → population S J (opinions f) h →
  ∃ f' h', record_counts S J log_steps_count t f h = (h', Ok f') ∧
           frame_ok S J L Lc f' ∧ opinions f' = opinions f ∧
           (settled L f → settled L f') ∧
           population S J (opinions f') h'.
Proof.
  intros Hf Hpop. pose proof Hpop as (a & Hops & Hlen & Ha).
  unfold record_counts.
  destruct (k_c f <? Lc)%Z eqn:Ek; [|by exists f, h].
  apply Z.ltb_lt in Ek.
  pose proof Hf as (Hk & (Hc1 & Hc2) & Htl & Hrs & (Htabl & Htab) & (Htcl & Htc)).
  destruct (np_get_in_bounds log_steps_count (k_c f - 1)) as (s & Hs & _); [lia|].
  rewrite run_bind. unfold lift at 1. rewrite Hs.
  destruct (t =? s)%Z; [|by exists f, h].
  rewrite (run_bind_ok _ _ _ _ _ (run_load _ _ _ Hops)).
  rewrite run_bind. unfold lift at 1. rewrite np_zeros_nonneg by lia.
  rewrite run_bind. unfold alloc at 1.
  set (zeros := replicate (Z.to_nat S) 0%Z).
  set (col := scatter (Counter a) zeros).
  assert (valid_counts S J col) as Hcol
    by (apply snapshot_counts_valid; [lia|done|lia|done]).
  rewrite (run_bind_ok _ _ _ (h ++ [col]) tt).
  2:{ rewrite (run_for_each_scatter _ _ _ zeros).
      - by rewrite insert_alloc_new.
      - apply lookup_alloc_new.
      - destruct (Counter_spec a) as (_ & Hkeys & _ & _).
        apply list.Forall_forall. intros [key val] Hin. simpl.
        unfold zeros. rewrite length_replicate.
        assert (key ∈ a) as Hka.
        { apply Hkeys. apply list_elem_of_fmap. by exists (key, val). }
        eapply list.Forall_forall in Ha; [|exact Hka]. unfold in_range in Ha. lia. }
  rewrite (run_bind_ok _ _ _ _ _ (run_load _ _ _ (lookup_alloc_new h col))).
  rewrite run_bind. unfold lift at 1. unfold np_set_column.
  rewrite np_index_nonneg by lia. simpl.
  destruct Hcol as (Hcl & Hcp & Hcs).
  destruct (Z.of_nat (length col) =? S)%Z eqn:El; [|lia].
  destruct (divide_ok t) as [q Hq].
  rewrite run_bind. unfold lift at 1. rewrite Hq.
  rewrite run_bind. unfold lift at 1. rewrite np_set_nonneg by lia.
  eexists _, _. split; [done|]. unfold frame_ok, settled. simpl.
  split; [|split; [done|split; [done|]]].
  - split; [done|]. split; [lia|]. split; [done|]. split; [done|]. split.
    + split; [by rewrite length_insert|]. intros c col' Hc.
      destruct (decide (c = Z.to_nat (k_c f))) as [->|Hne].
      * rewrite list_lookup_insert_eq in Hc by lia. simplify_eq.
        destruct (_ <? _)%Z eqn:E; [done|apply Z.ltb_ge in E; lia].
      * rewrite list_lookup_insert_ne in Hc by done.
        specialize (Htab c col' Hc).
        destruct (Z.of_nat c <? k_c f)%Z eqn:E1;
          destruct (Z.of_nat c <? k_c f + 1)%Z eqn:E2; try done.
        -- apply Z.ltb_lt in E1. apply Z.ltb_ge in E2. lia.
        -- apply Z.ltb_ge in E1. apply Z.ltb_lt in E2. lia.
    + split; [by rewrite length_insert|]. intros c q' Hge Hc.
      rewrite list_lookup_insert_ne in Hc by lia. apply (Htc c); [lia|done].
  - exists a. split; [by apply lookup_alloc_old|done].
Qed.

Lemma np_slice_to_drop_last {A} (a : list A) :
  length (np_slice_to a (-1)) = length a - 1.
Proof. unfold np_slice_to. simpl. rewrite length_take. lia. Qed.

Lemma trim_trailing_ok (f : @frame G) h :
  frame_ok S J L Lc f →
  ∃ f', trim_trailing log_steps f h = (h, Ok f') ∧
        frame_ok S J L Lc f' ∧ settled L f' ∧ opinions f' = opinions f.
Proof.
  intros Hf. unfold trim_trailing.
  destruct (k f =? L)%Z eqn:Ek.
  2:{ exists f. split; [done|]. split; [done|]. split; [|done].
      unfold settled. lia. }
  apply Z.eqb_eq in Ek.
  pose proof Hf as ((Hk1 & Hk2) & Hkc & Htl & Hrs & Htab & Htc).
  destruct Hrs as (written & Hwl & Hwp & [Hr|[_ Hr]]).
  - replace (Z.to_nat (L + 1 - k f)) with 1 in Hr by lia. simpl in Hr.
    rewrite run_bind. unfold lift at 1. rewrite Hr, np_get_last. simpl.
    eexists. split; [done|]. unfold frame_ok, settled. simpl.
    rewrite np_slice_to_last. split; [|split; [lia|done]].
    split; [done|]. split; [done|].
    split; [rewrite np_slice_to_drop_last, Htl, Hr, length_app; simpl; lia|].
    split; [|done]. exists written. split; [done|]. split; [done|]. by right.
  - destruct (exists_last (l := written)) as (w' & x & Hw).
    { intros ->. simpl in Hwl. lia. }
    rewrite run_bind. unfold lift at 1. rewrite Hr, Hw, np_get_last.
    assert (1 ≤ x)%Z as Hx.
    { rewrite Hw in Hwp. apply Forall_app in Hwp as [_ Hx].
      by apply list.Forall_cons in Hx as [Hx _]. }
    destruct (x =? 0)%Z eqn:E; [lia|].
    exists f. split; [done|]. split; [done|]. split; [|done].
    unfold settled. intros _. rewrite Hr. lia.
Qed.

Lemma loop_body_ok t (f : @frame G) h :
  frame_ok S J L Lc f → population S J (opinions f) h →
  ∃ h' c, loop_body S J nu log_steps log_steps_count t f h = (h', Ok c) ∧
          match c with
          | Continue f' =>
              frame_ok S J L Lc f' ∧ settled L f' ∧
              opinions f' = opinions f ∧ population S J (opinions f') h'
          | Return o => outputs_ok S J L Lc true o
          end.
Proof.
  intros Hf Hpop. unfold loop_body.
  destruct (update_step_ok S J nu (opinions f) (rng f) h S_pos J_pos Hpop)
    as (a' & g' & Hup & Hlen' & Ha').
  rewrite (run_bind_ok _ _ _ _ _ Hup).
  set (f0 := Frame _ _ _ _ _ _ _ _ g').
  assert (frame_ok S J L Lc f0) as Hf0 by exact Hf.
  assert (population S J (opinions f0) (<[opinions f := a']> h)) as Hpop0.
  { exists a'. split; [|done]. destruct Hpop as (a & Hops & _).
    apply list_lookup_insert_eq. by eapply lookup_lt_Some. }
  destruct (record_richness_ok t f0 _ Hf0 Hpop0) as (c & Hrr & Hc).
  rewrite (run_bind_ok _ _ _ _ _ Hrr).
  destruct c as [f1|o].
  - destruct Hc as [Hf1 Ho1].
    assert (population S J (opinions f1) (<[opinions f := a']> h)) as Hpop1
      by (by rewrite Ho1).
    destruct (record_counts_ok t f1 _ Hf1 Hpop1) as (f2 & h2 & Hrc & Hf2 & Ho2 & _ & Hpop2).
    rewrite (run_bind_ok _ _ _ _ _ Hrc).
    destruct (trim_trailing_ok f2 h2 Hf2) as (f3 & Htt & Hf3 & Hs3 & Ho3).
    rewrite (run_bind_ok _ _ _ _ _ Htt).
    exists h2, (Continue f3). split; [done|].
    split; [done|]. split; [done|]. split; [by rewrite Ho3, Ho2, Ho1|].
    by rewrite Ho3.
  - exists (<[opinions f := a']> h), (Return o). by split.
Qed.

Lemma run_steps_ok ts (f : @frame G) h :
  frame_ok S J L Lc f → population S J (opinions f) h →
  ∃ h' c, run_steps S J nu log_steps log_steps_count ts f h = (h', Ok c) ∧
          match c with
          | Continue f' =>
              frame_ok S J L Lc f' ∧ (ts ≠ [] → settled L f') ∧
              population S J (opinions f') h'
          | Return o => outputs_ok S J L Lc true o
          end.
Proof.
  revert f h. induction ts as [|t ts IH]; intros f h Hf Hpop; simpl.
  - exists h, (Continue f). split; [done|]. by split.
  - destruct (loop_body_ok t f h Hf Hpop) as (h1 & c & Hlb & Hc).
    rewrite (run_bind_ok _ _ _ _ _ Hlb).
    destruct c as [f1|o].
    + destruct Hc as (Hf1 & Hs1 & _ & Hpop1).
      destruct (IH f1 h1 Hf1 Hpop1) as (h2 & c2 & Hrun & Hc2).
      exists h2, c2. split; [done|].
      destruct c2 as [f2|o2]; [|done].
      destruct Hc2 as (Hf2 & Hs2 & Hpop2). split; [done|]. split; [|done].
      intros _. destruct ts as [|t' ts]; [|by apply Hs2].
      cbv [run_steps mret M_ret ret] in Hrun. by simplify_eq.
    + exists h1, (Return o). by split.
Qed.

End Invariant.

(** ** Valid calls complete *)

Section Completion.
Context {G : Type} `{GeneratorContract G}.
Variables (S J T : Z) (nu : Q).
Hypothesis S_pos : (1 ≤ S)%Z.
Hypothesis J_pos : (1 ≤ J)%Z.

Lemma init_frame_ok log_steps log_steps_count ops oc (g : G) h cv :
  h !! oc = Some cv → valid_counts S J cv → population S J ops h →
  ∃ f, init_frame S log_steps log_steps_count ops oc g h = (h ++ [cv], Ok f) ∧
       frame_ok S J (Z.of_nat (length log_steps))
                (Z.of_nat (length log_steps_count)) f ∧
       opinions f = ops.
Proof.
  intros Hoc (Hcl & Hcp & Hcs) Hpop. unfold init_frame.
  set (L := Z.of_nat (length log_steps)).
  set (Lc := Z.of_nat (length log_steps_count)).
  rewrite run_bind. unfold lift at 1. rewrite np_zeros_nonneg by lia.
  rewrite run_bind. unfold lift at 1. unfold np_zeros2.
  destruct ((S <? 0)%Z || (Lc + 1 <? 0)%Z) eqn:E.
  { apply orb_true_iff in E as [E|E]; apply Z.ltb_lt in E; lia. }
  rewrite run_bind. unfold lift at 1. unfold np_zeros_float.
  destruct (L + 1 <? 0)%Z eqn:E1; [apply Z.ltb_lt in E1; lia|].
  rewrite run_bind. unfold lift at 1.
  destruct (Lc + 1 <? 0)%Z eqn:E2; [apply Z.ltb_lt in E2; lia|].
  rewrite (run_bind_ok _ _ _ _ _ (run_load _ _ _ Hoc)).
  rewrite run_bind. unfold lift at 1.
  rewrite np_set_nonneg by (rewrite length_replicate; lia).
  rewrite run_bind. unfold alloc at 1.
  rewrite (run_bind_ok _ _ _ _ _ (run_load _ _ _ (lookup_alloc_new h cv))).
  rewrite run_bind. unfold lift at 1. unfold np_set_column.
  rewrite np_index_nonneg by (rewrite length_replicate; lia). simpl rbind.
  destruct (Z.of_nat (length cv) =? S)%Z eqn:El; [|lia].
  rewrite run_bind. unfold lift at 1.
  rewrite np_set_nonneg by (rewrite length_replicate; lia).
  rewrite run_bind. unfold lift at 1.
  rewrite np_set_nonneg by (rewrite length_replicate; lia).
  eexists. split; [done|]. split; [|done]. unfold frame_ok. simpl.
  replace (Z.to_nat (L + 1)) with (Datatypes.S (Z.to_nat L)) by lia.
  replace (Z.to_nat (Lc + 1)) with (Datatypes.S (Z.to_nat Lc)) by lia.
  simpl.
  split; [lia|]. split; [lia|]. split; [by rewrite !length_replicate|].
  split; [|split].
  - exists [count_positive cv]. split; [done|]. split.
    + repeat constructor. apply count_positive_pos; [done|lia].
    + left. simpl. do 2 f_equal. lia.
  - split; [simpl; rewrite length_replicate; lia|]. intros [|c] col Hc; simpl in Hc.
    + by simplify_eq.
    + apply lookup_replicate in Hc as [-> _].
      destruct (Z.of_nat (Datatypes.S c) <? 1)%Z eqn:E3;
        [apply Z.ltb_lt in E3; lia|done].
  - split; [simpl; rewrite length_replicate; lia|]. intros [|c] q Hge Hc; simpl in Hc.
    + lia.
    + by apply lookup_replicate in Hc as [-> _].
Qed.

Lemma outputs_ok_weaken L Lc b o :
  outputs_ok S J L Lc true o → outputs_ok S J L Lc b o.
Proof.
  destruct b; [done|]. intros (k0 & kc0 & Hk & Hkc & Htab & Hrest).
  exists k0, kc0. split; [done|]. split; [done|]. split; [done|].
  destruct Hrest as [(? & ? & ? & _)|?]; [|by right].
  left. split; [done|]. split; [done|]. split; [done|]. done.
Qed.

Lemma seqZ_nonempty n : (1 ≤ n)%Z → seqZ 1 n ≠ [].
Proof. intros Hn. rewrite seqZ_cons by lia. done. Qed.

Lemma simulate_ok log_steps log_steps_count ops oc (g : G) h cv :
  h !! oc = Some cv → valid_counts S J cv → population S J ops h →
  ∃ h' o, simulate S J T nu log_steps log_steps_count ops oc g h = (h', Ok o) ∧
          outputs_ok S J (Z.of_nat (length log_steps))
                     (Z.of_nat (length log_steps_count))
                     (bool_decide (1 ≤ T * J)%Z) o.
Proof.
  intros Hoc Hcv Hpop. unfold simulate.
  destruct (init_frame_ok log_steps log_steps_count ops oc g h cv Hoc Hcv Hpop)
    as (f & Hinit & Hf & Hops).
  rewrite (run_bind_ok _ _ _ _ _ Hinit).
  assert (population S J (opinions f) (h ++ [cv])) as Hpop'.
  { rewrite Hops. destruct Hpop as (a & Ha & ?). exists a.
    split; [by apply lookup_alloc_old|done]. }
  destruct (run_steps_ok S J nu log_steps log_steps_count S_pos J_pos
              (seqZ 1 (T * J)) f _ Hf Hpop') as (h' & c & Hrun & Hc).
  rewrite (run_bind_ok _ _ _ _ _ Hrun).
  destruct c as [f'|o].
  - exists h', (final_outputs f'). split; [done|].
    destruct Hc as (Hf' & Hs & _).
    destruct Hf' as (Hk & Hkc & Htl & Hrs & Htab & Htc).
    exists (k f'), (k_c f'). simpl. split; [done|]. split; [done|].
    split; [done|]. left. split; [done|]. split; [done|]. split; [done|].
    intros Hran. apply bool_decide_eq_true in Hran.
    by apply Hs, seqZ_nonempty.
  - exists h', o. split; [done|]. by apply outputs_ok_weaken.
Qed.

Lemma init_opinions_ok IC (g : G) h :
  valid_IC S J IC h →
  ∃ h' ops g', init_opinions S J IC g h = (h', Ok (ops, g')) ∧
               keeps h h' ∧ population S J ops h'.
Proof.
  intros HIC. unfold init_opinions.
  assert (∃ a ic g',
    match IC with
    | Some l0 => a0 ← load l0; l ← alloc a0; mret (l, g)
    | None => '(xs, g1) ← lift (rng_integers_size 0 S J g);
              l ← alloc xs; mret (l, g1)
    end h = (h ++ [a], Ok (ic, g')) ∧ ic = length h ∧
    length a = Z.to_nat J ∧ Forall (in_range S) a) as (a & ic & g' & Hrun & -> & Hlen & Ha).
  { destruct IC as [l0|].
    - destruct HIC as (a & Hl0 & Hlen & Ha). exists a, (length h), g.
      rewrite (run_bind_ok _ _ _ _ _ (run_load _ _ _ Hl0)). done.
    - unfold rng_integers_size.
      destruct (J <? 0)%Z eqn:E1; [apply Z.ltb_lt in E1; lia|].
      destruct (0 <? S)%Z eqn:E2; [|apply Z.ltb_ge in E2; lia].
      pose proof (draw_many_range (Z.to_nat J) 0 S g ltac:(lia)) as [Hlen Ha].
      destruct (draw_many (Z.to_nat J) 0 S g) as [xs g1]. simpl in *.
      exists xs, (length h), g1. done. }
  rewrite (run_bind_ok _ _ _ _ _ Hrun).
  rewrite (run_bind_ok _ _ _ _ _ (run_load _ _ _ (lookup_alloc_new h a))).
  rewrite run_bind. unfold alloc at 1.
  exists ((h ++ [a]) ++ [a]), (length (h ++ [a])), g'. split; [done|]. split.
  - unfold keeps. rewrite <- app_assoc. by apply prefix_app_r.
  - exists a. split; [apply lookup_alloc_new|done].
Qed.

Lemma init_counts_ok ops oc h :
  population S J ops h → valid_opinion_counts S J oc h →
  ∃ h' c cv, init_counts S ops oc h = (h', Ok c) ∧ keeps h h' ∧
             h' !! c = Some cv ∧ valid_counts S J cv.
Proof.
  intros (a & Hops & Hlen & Ha) Hoc. unfold init_counts.
  destruct oc as [c|].
  - destruct Hoc as (cv & Hc & Hcv). by exists h, c, cv.
  - rewrite run_bind. unfold lift at 1. rewrite np_zeros_nonneg by lia.
    rewrite run_bind. unfold alloc at 1.
    set (zeros := replicate (Z.to_nat S) 0%Z).
    rewrite (run_bind_ok _ _ _ _ _
               (run_load _ _ _ (lookup_alloc_old h zeros _ _ Hops))).
    assert (Forall (λ o, (0 ≤ o < Z.of_nat (length zeros))%Z) a) as Hin.
    { unfold zeros. rewrite length_replicate.
      eapply Forall_impl; [|exact Ha]. unfold in_range. simpl. intros. lia. }
    rewrite (run_bind_ok _ _ _ _ _
               (run_for_each_increment _ _ _ zeros (lookup_alloc_new h zeros) Hin)).
    rewrite insert_alloc_new.
    exists (h ++ [tally a zeros]), (length h), (tally a zeros).
    split; [done|]. split; [by apply prefix_app_r|].
    split; [apply lookup_alloc_new|].
    destruct (tally_spec a zeros Hin) as (Hl & Hp & Hs).
    { by apply Forall_replicate. }
    subst zeros. rewrite length_replicate in Hl.
    rewrite Zsum_replicate_0 in Hs.
    split; [done|]. split; [done|]. rewrite Hs. lia.
Qed.

Lemma keeps_lookup (h h' : heap) l (a : list Z) :
  keeps h h' → h !! l = Some a → h' !! l = Some a.
Proof. intros [t ->] Hl. by apply lookup_app_l_Some. Qed.

(** With valid arguments, the engine returns, for any two schedules. *)
Lemma voter_model_with_ok log_steps log_steps_count IC oc (g : G) h :
  valid_IC S J IC h → valid_opinion_counts S J oc h →
  ∃ h' o, voter_model_with (Ok log_steps) (Ok log_steps_count)
            S J T nu IC oc g h = (h', Ok o) ∧
          outputs_ok S J (Z.of_nat (length log_steps))
                     (Z.of_nat (length log_steps_count))
                     (bool_decide (1 ≤ T * J)%Z) o.
Proof.
  intros HIC Hoc. unfold voter_model_with.
  destruct (init_opinions_ok IC g h HIC) as (h1 & ops & g1 & Hio & Hk1 & Hpop1).
  rewrite (run_bind_ok _ _ _ _ _ Hio).
  assert (valid_opinion_counts S J oc h1) as Hoc1.
  { destruct oc as [c|]; [|done]. destruct Hoc as (cv & Hc & Hcv).
    exists cv. split; [by eapply keeps_lookup|done]. }
  destruct (init_counts_ok ops oc h1 Hpop1 Hoc1)
    as (h2 & c & cv & Hic & Hk2 & Hc & Hcv).
  rewrite (run_bind_ok _ _ _ _ _ Hic).
  assert (population S J ops h2) as Hpop2.
  { destruct Hpop1 as (a & Ha & ?). exists a.
    split; [by eapply keeps_lookup|done]. }
  rewrite run_bind. unfold lift at 1. rewrite run_bind. unfold lift at 1.
  by apply simulate_ok with cv.
Qed.

End Completion.

(** ** The logarithmic schedule *)

Section Schedule_facts.
#[local] Open Scope R_scope.

Lemma ln_10_pos : 0 < ln 10.
Proof. rewrite <- ln_1. apply ln_increasing; lra. Qed.

Lemma Rpower_10_log10 x : 0 < x → Rpower 10 (log10 x) = x.
Proof.
  intros Hx. unfold Rpower, log10.
  replace (ln x / ln 10 * ln 10) with (ln x).
  - by apply exp_ln.
  - field. pose proof ln_10_pos. lra.
Qed.

Lemma log10_le x y : 0 < x → x <= y → log10 x <= log10 y.
Proof.
  intros Hx Hxy. unfold log10. pose proof ln_10_pos as H10.
  apply Rmult_le_compat_r; [left; by apply Rinv_0_lt_compat|].
  destruct Hxy as [Hlt| ->]; [left; by apply ln_increasing|right; done].
Qed.

Lemma Rpower_10_le a b : a <= b → Rpower 10 a <= Rpower 10 b.
Proof. intros Hab. apply Rle_Rpower; [lra|done]. Qed.

Lemma Int_part_bounds x : IZR (Int_part x) <= x < IZR (Int_part x) + 1.
Proof. pose proof (base_Int_part x). lra. Qed.

Lemma np_round_IZR n : np_round (IZR n) = n.
Proof.
  unfold np_round. pose proof (Int_part_bounds (IZR n)) as [H1 H2].
  assert (Int_part (IZR n) = n) as ->.
  { apply le_IZR in H1. rewrite <- plus_IZR in H2. apply lt_IZR in H2. lia. }
  destruct (Rlt_dec (IZR n - IZR n) (1 / 2)) as [_|Hn]; [done|]. lra.
Qed.

Lemma np_round_bounds lo hi x :
  IZR lo <= x <= IZR hi → (lo ≤ np_round x ≤ hi)%Z.
Proof.
  intros [Hlo Hhi]. unfold np_round.
  pose proof (Int_part_bounds x) as [H1 H2].
  set (f := Int_part x) in *.
  assert (lo ≤ f)%Z as Hlf.
  { assert (IZR lo < IZR (f + 1)) as Hlt by (rewrite plus_IZR; lra).
    apply lt_IZR in Hlt. lia. }
  assert (f ≤ hi)%Z as Hfh by (apply le_IZR; lra).
  assert (1 / 2 <= x - IZR f → (f + 1 ≤ hi)%Z) as Hup.
  { intros Hd. assert (IZR f < IZR hi) as Hlt by lra. apply lt_IZR in Hlt. lia. }
  destruct (Rlt_dec (x - IZR f) (1 / 2)) as [Hd|Hd]; [lia|].
  apply Rnot_lt_le in Hd. specialize (Hup Hd).
  destruct (Rlt_dec (1 / 2) (x - IZR f)); [lia|].
  destruct (Z.even f); lia.
Qed.

(** Rounding absorbs an error below one half: a computed sample within
    1/2 of a value of [lo, hi] still rounds into [lo, hi]. *)
Lemma np_round_bounds_half lo hi x :
  IZR lo - 1 / 2 < x < IZR hi + 1 / 2 → (lo ≤ np_round x ≤ hi)%Z.
Proof.
  intros [Hlo Hhi]. unfold np_round.
  pose proof (Int_part_bounds x) as [H1 H2].
  set (f := Int_part x) in *.
  assert (lo - 1 ≤ f)%Z as Hlf.
  { assert (IZR (lo - 1) < IZR (f + 1)) as Hlt
      by (rewrite minus_IZR, plus_IZR; lra).
    apply lt_IZR in Hlt. lia. }
  assert (f ≤ hi)%Z as Hfh.
  { assert (IZR f < IZR (hi + 1)) as Hlt by (rewrite plus_IZR; lra).
    apply lt_IZR in Hlt. lia. }
  assert (f = (lo - 1)%Z → 1 / 2 < x - IZR f) as Hlow.
  { intros ->. rewrite minus_IZR. lra. }
  assert (f = hi → x - IZR f < 1 / 2) as Hhigh by (intros ->; lra).
  destruct (Rlt_dec (x - IZR f) (1 / 2)) as [Hd|Hd].
  - split; [|lia]. destruct (decide (f = (lo - 1)%Z)) as [Hf|Hf]; [|lia].
    specialize (Hlow Hf). lra.
  - assert (f ≠ hi) by (intros Hf; specialize (Hhigh Hf); lra).
    destruct (Rlt_dec (1 / 2) (x - IZR f)); [lia|].
    assert (f ≠ (lo - 1)%Z) by (intros Hf; specialize (Hlow Hf); lra).
    destruct (Z.even f); lia.
Qed.

Lemma linspace_length start stop num : length (linspace start stop num) = num.
Proof.
  destruct num as [|[|m]]; simpl; [done..|].
  rewrite length_app, length_map, length_seq. simpl. lia.
Qed.

Lemma linspace_bounds start stop num :
  start <= stop → Forall (λ y, start <= y <= stop) (linspace start stop num).
Proof.
  intros Hle. destruct num as [|[|m]].
  { simpl. constructor. }
  { simpl. constructor; [lra|constructor]. }
  unfold linspace. set (d := Datatypes.S m).
  assert (0 < INR d) as Hd by (apply lt_0_INR; lia).
  apply Forall_app. split; [|constructor; [lra|constructor]].
  apply list.Forall_forall. intros y Hy.
  apply list_elem_of_fmap in Hy as (i & -> & Hi).
  apply elem_of_seq in Hi.
  assert (0 <= INR i <= INR d) as [Hi0 Hid].
  { split; [apply pos_INR|apply le_INR; lia]. }
  assert (0 <= (stop - start) / INR d) as Hstep.
  { apply Rmult_le_pos; [lra|]. left. by apply Rinv_0_lt_compat. }
  split; [nra|].
  assert (INR i * ((stop - start) / INR d) <= INR d * ((stop - start) / INR d)) as Hm
    by (by apply Rmult_le_compat_r).
  replace (INR d * ((stop - start) / INR d)) with (stop - start) in Hm
    by (field; lra).
  lra.
Qed.

Lemma logspace_bounds (J total : Z) num :
  (1 ≤ J)%Z → (J ≤ total)%Z →
  Forall (λ x, IZR J <= x <= IZR total)
         (logspace (log10 (IZR J)) (log10 (IZR total)) num).
Proof.
  intros HJ HT. unfold logspace.
  assert (0 < IZR J) as HJ0 by (apply IZR_lt; lia).
  assert (IZR J <= IZR total) as HJT by (by apply IZR_le).
  apply Forall_fmap. eapply Forall_impl;
    [|apply linspace_bounds, log10_le; done].
  simpl. intros y [Hy1 Hy2].
  split.
  - rewrite <- (Rpower_10_log10 (IZR J)) at 1 by done. by apply Rpower_10_le.
  - rewrite <- (Rpower_10_log10 (IZR total)) at 1 by lra. by apply Rpower_10_le.
Qed.

(** The bounds of the schedule do not depend on exact arithmetic: any
    computed samples [ys], each within 1/2 of the exact one, round into
    [J, total]. *)
Lemma schedule_bounds_robust (J total : Z) num (ys : list R) :
  (1 ≤ J)%Z → (J ≤ total)%Z →
  Forall2 (λ y x, Rabs (y - x) < 1 / 2) ys
          (logspace (log10 (IZR J)) (log10 (IZR total)) num) →
  Forall (λ t, (J ≤ t ≤ total)%Z) (np_unique (map np_round ys)).
Proof.
  intros HJ HT Hclose.
  pose proof (logspace_bounds J total num HJ HT) as Hb.
  apply list.Forall_forall. intros t Ht. rewrite np_unique_elem in Ht.
  apply list_elem_of_fmap in Ht as (y & -> & Hy).
  apply list_elem_of_lookup in Hy as [i Hi].
  destruct (Forall2_lookup_l _ _ _ _ _ Hclose Hi) as (x & Hx & Hyx).
  eapply Forall_lookup_1 in Hb; [|exact Hx].
  apply np_round_bounds_half.
  apply Rabs_def2 in Hyx. lra.
Qed.

Lemma log_schedule_elements (J total num : Z) :
  (0 ≤ num)%Z →
  log_schedule J total num
  = Ok (np_unique (map np_round
          (logspace (log10 (IZR J)) (log10 (IZR total)) (Z.to_nat num)))).
Proof.
  intros Hn. unfold log_schedule. destruct (num <? 0)%Z eqn:E; [|done].
  apply Z.ltb_lt in E. lia.
Qed.

(** A single requested point gives the schedule [{J}]. *)
Lemma log_schedule_single (J total : Z) :
  (1 ≤ J)%Z → log_schedule J total 1 = Ok [J].
Proof.
  intros HJ. rewrite log_schedule_elements by lia. simpl.
  rewrite Rpower_10_log10 by (apply IZR_lt; lia).
  by rewrite np_round_IZR.
Qed.

(** Two requested points give the two ends, [{J, total_time}]. *)
Lemma log_schedule_pair (J total : Z) :
  (1 ≤ J)%Z → (J < total)%Z → log_schedule J total 2 = Ok [J; total].
Proof.
  intros HJ HT. rewrite log_schedule_elements by lia. simpl.
  rewrite Rmult_0_l, Rplus_0_l.
  rewrite !Rpower_10_log10 by (apply IZR_lt; lia).
  rewrite !np_round_IZR.
  destruct (J <? total)%Z eqn:E; [done|]. apply Z.ltb_ge in E. lia.
Qed.

End Schedule_facts.

(** ** The demonstration generator meets the contract *)

#[global] Instance lcg_contract : GeneratorContract lcg_state.
Proof.
  split.
  - intros lo hi g Hlt. simpl.
    pose proof (Z.mod_pos_bound (lcg_next (lcg_word g) / 65536) (hi - lo)). lia.
  - intros g. simpl.
    pose proof (Z.mod_pos_bound (lcg_next (lcg_word g) / 65536) 1024).
    split; [unfold Qle|unfold Qlt]; simpl; lia.
Qed.

(** ** Labels stay in range *)

Section Labels.
Context {G : Type} `{GeneratorContract G}.
Variable S : Z.

Lemma np_get_elem (a : list Z) i v : np_get a i = Ok v → v ∈ a.
Proof.
  unfold np_get. destruct (np_index (length a) i) as [j|e]; [|done]. simpl.
  destruct (a !! j) as [w|] eqn:E; [|done]. intros [= ->].
  by eapply list_elem_of_lookup_2.
Qed.

Lemma read_at_labels ops j :
  hoare (labels_in_range S ops) (read_at ops j)
        (λ v h, labels_in_range S ops h ∧ in_range S v)
        (λ _ h, labels_in_range S ops h).
Proof.
  intros h Hl. pose proof Hl as (a & Hops & Ha). unfold read_at.
  rewrite (run_bind_ok _ _ _ _ _ (run_load _ _ _ Hops)). unfold lift.
  destruct (np_get a j) as [v|e] eqn:E; [|done]. split; [done|].
  apply np_get_elem in E. by eapply list.Forall_forall in Ha.
Qed.

Lemma write_at_labels ops i v :
  in_range S v →
  hoare (labels_in_range S ops) (write_at ops i v)
        (λ _ h, labels_in_range S ops h) (λ _ h, labels_in_range S ops h).
Proof.
  intros Hv h Hl. pose proof Hl as (a & Hops & Ha). unfold write_at.
  rewrite (run_bind_ok _ _ _ _ _ (run_load _ _ _ Hops)).
  rewrite run_bind. unfold lift at 1. unfold np_set.
  destruct (np_index (length a) i) as [j|e]; [|done]. simpl.
  rewrite (run_store _ _ _ _ Hops).
  exists (<[j := v]> a). split; [|by apply Forall_insert].
  apply list_lookup_insert_eq. by eapply lookup_lt_Some.
Qed.

(** Lines 84-91 keep every label in [0, S): the copied label is one of the
    population, the new one is drawn from [0, S). *)
Lemma update_step_labels J nu ops (g : G) :
  hoare (labels_in_range S ops) (update_step S J nu ops g)
        (λ _ h, labels_in_range S ops h) (λ _ h, labels_in_range S ops h).
Proof.
  intros h Hl. unfold update_step.
  rewrite run_bind. unfold lift at 1. unfold rng_integers at 1.
  destruct (0 <? J)%Z eqn:EJ; [|done].
  destruct (next_integer 0 J g) as [i g1].
  destruct (next_double g1) as [u g2].
  destruct (Qle_bool nu u).
  - rewrite run_bind. unfold lift at 1. unfold rng_integers. rewrite EJ.
    destruct (next_integer 0 J g2) as [j g3].
    rewrite run_bind. pose proof (read_at_labels ops j h Hl) as Hr.
    destruct (read_at ops j h) as [h1 [v|e]]; [|done]. destruct Hr as [Hl1 Hv].
    rewrite run_bind. pose proof (write_at_labels ops i v Hv h1 Hl1) as Hw.
    by destruct (write_at ops i v h1) as [h2 [[]|e]].
  - rewrite run_bind. unfold lift at 1. unfold rng_integers.
    destruct (0 <? S)%Z eqn:ES; [|done]. apply Z.ltb_lt in ES.
    pose proof (next_integer_range 0 S g2 ES) as Hv.
    destruct (next_integer 0 S g2) as [v g3]. simpl in Hv.
    rewrite run_bind. pose proof (write_at_labels ops i v Hv h Hl) as Hw.
    by destruct (write_at ops i v h) as [h2 [[]|e]].
Qed.

(** A computation that only adds objects keeps the labels where they are. *)
Lemma labels_framed {A} (m : M A) (Q : A → Prop) ops h :
  (∀ h0, framed h0 m Q) → labels_in_range S ops h →
  match m h with
  | (h', Ok a) => labels_in_range S ops h' ∧ Q a
  | (h', Raise _) => labels_in_range S ops h'
  end.
Proof.
  intros Hf (a & Hops & Ha). specialize (Hf h h). unfold keeps in Hf.
  specialize (Hf (reflexivity h)).
  destruct (m h) as [h' [x|e]].
  - destruct Hf as [Hk HQ]. split; [|done]. exists a.
    split; [by eapply keeps_lookup|done].
  - exists a. split; [by eapply keeps_lookup|done].
Qed.

Lemma loop_body_labels J nu log_steps log_steps_count t (f : @frame G) :
  hoare (labels_in_range S (opinions f))
        (loop_body S J nu log_steps log_steps_count t f)
        (λ c h, labels_in_range S (opinions f) h ∧
                match c with
                | Continue f' => opinions f' = opinions f
                | Return _ => True
                end)
        (λ _ h, labels_in_range S (opinions f) h).
Proof.
  intros h Hl. unfold loop_body.
  rewrite run_bind. pose proof (update_step_labels J nu _ (rng f) h Hl) as H1.
  destruct (update_step S J nu (opinions f) (rng f) h) as [h1 [g|e]]; [|done].
  rewrite run_bind.
  set (f0 := Frame _ _ _ _ _ _ _ _ g).
  pose proof (labels_framed _ _ (opinions f) h1
                (λ h0, framed_record_richness h0 J nu log_steps t f0) H1) as H2.
  destruct (record_richness J nu log_steps t f0 h1) as [h2 [[f1|o]|e]];
    [|done..].
  destruct H2 as [H2 Ho1]. simpl in Ho1.
  rewrite run_bind.
  pose proof (labels_framed _ _ (opinions f) h2
                (λ h0, framed_record_counts h0 S J log_steps_count t f1) H2) as H3.
  destruct (record_counts S J log_steps_count t f1 h2) as [h3 [f2|e]]; [|done].
  destruct H3 as [H3 Ho2].
  rewrite run_bind.
  pose proof (labels_framed _ _ (opinions f) h3
                (λ h0, framed_trim_trailing h0 log_steps f2) H3) as H4.
  destruct (trim_trailing log_steps f2 h3) as [h4 [f3|e]]; [|done].
  destruct H4 as [H4 Ho3]. split; [done|]. congruence.
Qed.

Lemma run_steps_labels J nu log_steps log_steps_count ts (f : @frame G) :
  hoare (labels_in_range S (opinions f))
        (run_steps S J nu log_steps log_steps_count ts f)
        (λ _ h, labels_in_range S (opinions f) h)
        (λ _ h, labels_in_range S (opinions f) h).
Proof.
  revert f. induction ts as [|t ts IH]; intros f h Hl; simpl; [done|].
  rewrite run_bind.
  pose proof (loop_body_labels J nu log_steps log_steps_count t f h Hl) as Hb.
  destruct (loop_body S J nu log_steps log_steps_count t f h)
    as [h1 [[f1|o]|e]]; [|by destruct Hb|done].
  destruct Hb as [Hl1 Ho]. rewrite <- Ho in Hl1 |- *.
  by apply IH.
Qed.

End Labels.

(** C10. If every label of the population lies in [0, S), it still does
    after one elementary update (lines 84-91), and after any number of
    iterations of the loop of [voter_model], whether the loop goes on,
    returns early or raises: the peer-copy branch writes a label read from
    the population and the speciation branch a draw from [0, S). *)
Theorem labels_stay_in_range {G : Type} `{GeneratorContract G}
    (S J : Z) (nu : Q) (log_steps log_steps_count : list Z)
    (ts : list Z) (f : @frame G) (h : heap) :
  labels_in_range S (opinions f) h →
  labels_in_range S (opinions f)
    (update_step S J nu (opinions f) (rng f) h).1 ∧
  labels_in_range S (opinions f)
    (run_steps S J nu log_steps log_steps_count ts f h).1.
Proof.
  intros Hl. split.
  - pose proof (update_step_labels S J nu (opinions f) (rng f) h Hl) as Hu.
    by destruct (update_step S J nu (opinions f) (rng f) h) as [h' [g'|e]].
  - pose proof (run_steps_labels S J nu log_steps log_steps_count ts f h Hl) as Hr.
    by destruct (run_steps _ _ _ _ _ ts f h) as [h' [c|e]].
Qed.

Lemma labels_stay_in_range_witness :
  let f := Frame 0 1 [2%Z] [[1; 1]; [0; 0]]%Z [0%Q] [0%Q; 0%Q] 1 1 (default_rng 7) in
  let h := [[0; 1]; [1; 1]]%Z in
  labels_in_range 2 0 (update_step 2 2 (1 # 2) 0 (default_rng 7) h).1 ∧
  labels_in_range 2 0
    (run_steps 2 2 (1 # 2) [2; 4]%Z [2; 4]%Z (seqZ 1 4) f h).1.
Proof.
  intros f h.
  apply (labels_stay_in_range 2 2 (1 # 2) [2; 4]%Z [2; 4]%Z (seqZ 1 4) f h).
  exists [0; 1]%Z. split; [reflexivity|].
  repeat constructor; unfold in_range; lia.
Defined.

(** ** Claims about the schedule *)



(** ** Claims about the engine *)

Section Valid_calls.
Context {G : Type} `{GeneratorContract G}.

(** With S, J >= 1, non-negative sample counts and valid (or absent)
    arrays, the call returns and its outputs have the shape [outputs_ok]. *)
Lemma voter_model_ok (S J T : Z) (nu : Q) (N Nc : Z)
    (IC oc : option loc) (g : G) (h : heap) :
  (1 ≤ S)%Z → (1 ≤ J)%Z → (0 ≤ N)%Z → (0 ≤ Nc)%Z →
  valid_IC S J IC h → valid_opinion_counts S J oc h →
  ∃ h' o log_steps log_steps_count,
    log_schedule J (T * J) N = Ok log_steps ∧
    log_schedule J (T * J) Nc = Ok log_steps_count ∧
    voter_model S J T nu N Nc IC oc g h = (h', Ok o) ∧
    outputs_ok S J (Z.of_nat (length log_steps))
               (Z.of_nat (length log_steps_count))
               (bool_decide (1 ≤ T * J)%Z) o.
Proof.
  intros HS HJ HN HNc HIC Hoc. unfold voter_model.
  rewrite (log_schedule_elements J (T * J) N HN).
  rewrite (log_schedule_elements J (T * J) Nc HNc).
  set (ls := np_unique _). set (lsc := np_unique _).
  destruct (voter_model_with_ok S J T nu HS HJ ls lsc IC oc g h HIC Hoc)
    as (h' & o & Hrun & Ho).
  by exists h', o, ls, lsc.
Qed.

(** A schedule of one entry: the richness series that comes back has the
    initial slot only. *)
Lemma single_entry_richness (S J T : Z) (nu : Q) (Nc : Z)
    (IC oc : option loc) (g : G) (h : heap) :
  (1 ≤ S)%Z → (1 ≤ J)%Z → (1 ≤ T)%Z → (0 ≤ Nc)%Z →
  valid_IC S J IC h → valid_opinion_counts S J oc h →
  ∃ h' o, log_schedule J (T * J) 1 = Ok [J] ∧
          voter_model S J T nu 1 Nc IC oc g h = (h', Ok o) ∧
          length (out_richness o) = 1.
Proof.
  intros HS HJ HT HNc HIC Hoc.
  destruct (voter_model_ok S J T nu 1 Nc IC oc g h HS HJ ltac:(lia) HNc HIC Hoc)
    as (h' & o & ls & lsc & Hls & Hlsc & Hrun & Ho).
  rewrite log_schedule_single in Hls by done. injection Hls as <-.
  exists h', o. split; [by apply log_schedule_single|]. split; [done|].
  destruct Ho as (k0 & kc0 & Hk & Hkc & Htab & [(Htl & Hrs & Htc & Hset)|Hearly]).
  - simpl in *. rewrite Hset; [done| |lia].
    apply bool_decide_eq_true. nia.
  - simpl in *. lia.
Qed.

(** The last column of the abundance table, the slot of the final entry
    of the abundance schedule, is never written: it comes back all zero. *)
Lemma final_abundance_slot_unwritten (S J T : Z) (nu : Q) (N Nc : Z)
    (IC oc : option loc) (g : G) (h : heap) :
  (1 ≤ S)%Z → (1 ≤ J)%Z → (0 ≤ N)%Z → (1 ≤ Nc)%Z →
  valid_IC S J IC h → valid_opinion_counts S J oc h →
  ∃ h' o, voter_model S J T nu N Nc IC oc g h = (h', Ok o) ∧
          out_counts o !! (length (out_counts o) - 1)
          = Some (replicate (Z.to_nat S) 0%Z).
Proof.
  intros HS HJ HN HNc HIC Hoc.
  destruct (voter_model_ok S J T nu N Nc IC oc g h HS HJ HN ltac:(lia) HIC Hoc)
    as (h' & o & ls & lsc & Hls & Hlsc & Hrun & Ho).
  exists h', o. split; [done|].
  assert (1 ≤ length lsc) as Hne.
  { rewrite log_schedule_elements in Hlsc by lia. injection Hlsc as <-.
    apply np_unique_nonempty. intros Hnil.
    apply (f_equal length) in Hnil. unfold logspace in Hnil.
    rewrite !length_map, linspace_length in Hnil. simpl in Hnil. lia. }
  destruct Ho as (k0 & kc0 & Hk & Hkc & (Htl & Htab) & _).
  replace (length (out_counts o) - 1) with (length lsc) by lia.
  destruct (lookup_lt_is_Some_2 (out_counts o) (length lsc)) as [col Hcol]; [lia|].
  rewrite Hcol. f_equal. specialize (Htab _ _ Hcol).
  destruct (Z.of_nat (length lsc) <? kc0)%Z eqn:E; [|done].
  apply Z.ltb_lt in E. lia.
Qed.

End Valid_calls.

(** C1. The claim fails on the code. With a schedule of two entries,
    [{2, 4}] for J = 2, T = 2, and no early termination (nu = 1/2), the
    snapshot of the first entry is recorded, richness and time 2/2 = 1 in
    slot 1, and the counts in column 1, but the final entry t = J*T = 4 gets
    no slot: the richness series has two entries, the last column of the
    table still holds zeros and its time is still 0. *)
Theorem final_schedule_entry_not_recorded :
  log_schedule 2 (2 * 2) 2 = Ok [2; 4]%Z ∧
  (voter_model 2 2 2 (1 # 2) 2 2 (Some 0) None (default_rng 42) [[0; 1]%Z]).2
  = Ok (Outputs [[1; 1]; [1; 1]; [0; 0]]%Z [2; 2]%Z [0; 1]%Q [0; 1; 0]%Q).
Proof.
  split; [by apply log_schedule_pair|].
  unfold voter_model. rewrite log_schedule_pair by lia. by vm_compute.
Qed.

(** C2, as stated, fails on the abundance table. With nu = 0 and a
    population already at consensus, the run stops at the first richness
    checkpoint, t = 2; richness, its times and the abundance times come
    back truncated to the slots written (2, 2 and 1 entries), but the table
    comes back with all its 3 columns, only the first of which was
    written. *)
Lemma early_return_keeps_full_table :
  ∃ o,
    (voter_model 2 2 2 0 2 2 (Some 0) None (default_rng 42) [[0; 0]%Z]).2 = Ok o ∧
    out_richness o = [1; 1]%Z ∧ out_time o = [0; 1]%Q ∧
    out_time_c o = [0%Q] ∧
    out_counts o = [[2; 0]; [0; 0]; [0; 0]]%Z ∧
    length (out_counts o) ≠ length (out_time_c o).
Proof.
  eexists. split.
  - unfold voter_model. rewrite log_schedule_pair by lia. by vm_compute.
  - by repeat split.
Qed.

(** C2, amended. At a richness checkpoint ([t] is the pending entry of the
    richness schedule) of a run with nu = 0 whose population holds a single
    label after the update, the loop stops at once, whatever steps [ts]
    remain: the call returns the richness series and its times cut after
    the slot just written, slot [k], the abundance times cut to the [k_c]
    slots written so far, and the abundance table whole, with all its
    [len(log_steps_count) + 1] columns. *)
Theorem consensus_checkpoint_returns_early {G : Type} `{GeneratorContract G}
    (S J : Z) (nu : Q) (log_steps log_steps_count : list Z)
    (t : Z) (ts : list Z) (f : @frame G) (h : heap) :
  (1 ≤ S)%Z → (1 ≤ J)%Z →
  frame_ok S J (Z.of_nat (length log_steps))
           (Z.of_nat (length log_steps_count)) f →
  population S J (opinions f) h →
  (nu == 0)%Q →
  (k f < Z.of_nat (length log_steps))%Z →
  log_steps !! Z.to_nat (k f - 1) = Some t →
  (∀ a, (update_step S J nu (opinions f) (rng f) h).1 !! opinions f = Some a →
        length (np_unique a) = 1) →
  ∃ h',
    run_steps S J nu log_steps log_steps_count (t :: ts) f h
    = (h', Ok (Return (Outputs
         (opinion_counts_store f)
         (take (Z.to_nat (k f + 1)) (<[Z.to_nat (k f) := 1%Z]> (richness f)))
         (take (Z.to_nat (k f + 1))
               (<[Z.to_nat (k f) := Qred (inject_Z t / inject_Z J)]> (time f)))
         (take (Z.to_nat (k_c f)) (time_c f))))) ∧
    length (opinion_counts_store f) = Datatypes.S (length log_steps_count) ∧
    length (take (Z.to_nat (k f + 1)) (<[Z.to_nat (k f) := 1%Z]> (richness f)))
    = Z.to_nat (k f + 1) ∧
    length (take (Z.to_nat (k_c f)) (time_c f)) = Z.to_nat (k_c f).
Proof.
  intros HS HJ Hf Hpop Hnu Hk Ht Hone.
  pose proof Hf as ((Hk1 & Hk2) & (Hc1 & Hc2) & Htl & Hrs & (Htabl & _) & (Htcl & _)).
  destruct (update_step_ok S J nu (opinions f) (rng f) h HS HJ Hpop)
    as (a' & g' & Hup & Hlen' & Ha').
  rewrite Hup in Hone. simpl in Hone.
  assert ((<[opinions f := a']> h) !! opinions f = Some a') as Hops'.
  { destruct Hpop as (a & Hops & _).
    apply list_lookup_insert_eq. by eapply lookup_lt_Some. }
  specialize (Hone a' Hops').
  destruct Hrs as (written & Hwl & Hwp & [Hr|[HkL _]]); [|lia].
  assert (length (richness f) = Z.to_nat (Z.of_nat (length log_steps) + 1)) as Hrl.
  { rewrite Hr, length_app, length_replicate. lia. }
  exists (<[opinions f := a']> h). split; [|split; [lia|split]].
  - simpl. rewrite run_bind. unfold loop_body.
    rewrite (run_bind_ok _ _ _ _ _ Hup).
    rewrite run_bind. unfold record_richness at 1. simpl.
    destruct (k f <? Z.of_nat (length log_steps))%Z eqn:E;
      [|apply Z.ltb_ge in E; lia].
    rewrite run_bind. unfold lift at 1.
    rewrite (np_get_nonneg log_steps (k f - 1) t) by (lia || done).
    rewrite Z.eqb_refl.
    rewrite (run_bind_ok _ _ _ _ _ (run_load _ _ _ Hops')).
    rewrite Hone. change (Z.of_nat 1) with 1%Z.
    rewrite run_bind. unfold lift at 1. rewrite np_set_nonneg by lia.
    rewrite run_bind. unfold lift at 1. unfold divide.
    destruct (J =? 0)%Z eqn:EJ; [lia|].
    rewrite run_bind. unfold lift at 1. rewrite np_set_nonneg by lia.
    rewrite run_bind. unfold lift at 1.
    rewrite (np_get_nonneg _ (k f) 1%Z)
      by (lia || (apply list_lookup_insert_eq; lia)).
    apply Qeq_bool_iff in Hnu. rewrite Hnu. simpl.
    rewrite !np_slice_to_nonneg by lia. done.
  - rewrite length_take, length_insert. lia.
  - rewrite length_take. lia.
Qed.

Lemma consensus_checkpoint_returns_early_witness :
  let f := Frame 2 3 [1; 0; 0]%Z [[2; 0]; [0; 0]; [0; 0]]%Z
                 [0; 0; 0]%Q [0; 0; 0]%Q 1 1 (default_rng 42) in
  let h := [[0; 0]; [0; 0]; [0; 0]; [2; 0]; [2; 0]]%Z in
  ∃ h',
    run_steps 2 2 0 [2; 4]%Z [2; 4]%Z [2; 3; 4]%Z f h
    = (h', Ok (Return (Outputs
         [[2; 0]; [0; 0]; [0; 0]]%Z
         (take (Z.to_nat (1 + 1)) (<[Z.to_nat 1 := 1%Z]> [1; 0; 0]%Z))
         (take (Z.to_nat (1 + 1))
               (<[Z.to_nat 1 := Qred (inject_Z 2 / inject_Z 2)]> [0; 0; 0]%Q))
         (take (Z.to_nat 1) [0; 0; 0]%Q)))) ∧
    length [[2; 0]; [0; 0]; [0; 0]]%Z = 3 ∧
    length (take (Z.to_nat (1 + 1)) (<[Z.to_nat 1 := 1%Z]> [1; 0; 0]%Z))
    = Z.to_nat (1 + 1) ∧
    length (take (Z.to_nat 1) [0; 0; 0]%Q) = Z.to_nat 1.
Proof.
  intros f h.
  apply (consensus_checkpoint_returns_early 2 2 0 [2; 4]%Z [2; 4]%Z 2 [3; 4]%Z f h);
    try lia; try reflexivity.
  - unfold frame_ok, f. simpl. split; [lia|]. split; [lia|]. split; [done|].
    split; [|split].
    + exists [1%Z]. split; [done|]. split; [repeat constructor; lia|by left].
    + split; [done|]. intros [|[|[|c]]] col Hc; simpl in Hc; simplify_eq; simpl;
        [|done..]. split; [done|]. split; [repeat constructor; lia|done].
    + split; [done|]. intros [|[|[|c]]] q Hge Hc; simpl in Hc; simplify_eq;
        [lia|done..].
  - exists [0; 0]%Z. split; [reflexivity|]. split; [reflexivity|].
    repeat constructor; unfold in_range; lia.
  - intros a. vm_compute. by intros [= <-].
Defined.

(** C3. The claim holds for the schedule and fails for the length: with
    [num_log_steps = 1] the schedule is [{J}], here [{2}], but the richness
    series that comes back has length 1, the initial state alone. *)
Theorem single_point_richness_has_one_entry :
  log_schedule 2 (1 * 2) 1 = Ok [2%Z] ∧
  (voter_model 2 2 1 0 1 1 (Some 0) None (default_rng 42) [[0; 1]%Z]).2
  = Ok (Outputs [[1; 1]; [0; 0]]%Z [2%Z] [0%Q] [0; 0]%Q).
Proof.
  split; [by apply log_schedule_single|].
  unfold voter_model. rewrite log_schedule_single by lia. by vm_compute.
Qed.




(** C5, as stated, fails: the function has no validation. Here nu = 2,
    outside [0, 1], and the call returns normally. *)
Lemma out_of_range_nu_accepted :
  ¬ (0 <= 2 <= 1)%Q ∧
  is_ok (voter_model 2 2 1 2 1 1 (Some 0) None (default_rng 42) [[0; 1]%Z]).2
  = true.
Proof.
  split.
  - intros [_ Hle]. by apply Qle_bool_iff in Hle.
  - unfold voter_model. rewrite log_schedule_single by lia. by vm_compute.
Qed.

(** C5, amended. [voter_model] checks none of its arguments. For S, J,
    T >= 1, non-negative sample counts, and arrays that are absent or valid,
    the call raises nothing, neither at entry nor during the run, and
    returns normally for every nu, inside [0, 1] or not. *)
Theorem valid_call_returns_for_every_nu {G : Type} `{GeneratorContract G}
    (S J T : Z) (nu : Q) (num_log_steps num_log_steps_count : Z)
    (IC opinion_counts : option loc) (g : G) (h : heap) :
  (1 ≤ S)%Z → (1 ≤ J)%Z → (1 ≤ T)%Z →
  (0 ≤ num_log_steps)%Z → (0 ≤ num_log_steps_count)%Z →
  valid_IC S J IC h → valid_opinion_counts S J opinion_counts h →
  ∃ h' o,
    voter_model S J T nu num_log_steps num_log_steps_count
      IC opinion_counts g h = (h', Ok o).
Proof.
  intros HS HJ HT HN HNc HIC Hoc.
  destruct (voter_model_ok S J T nu _ _ IC opinion_counts g h HS HJ HN HNc HIC Hoc)
    as (h' & o & ls & lsc & _ & _ & Hrun & _).
  by exists h', o.
Qed.

Lemma valid_call_returns_for_every_nu_witness :
  ∃ h' o,
    voter_model 2 3 4 (-5 # 2) 5 3 (Some 0) None (default_rng 3) [[0; 1; 1]%Z]
    = (h', Ok o).
Proof.
  apply (valid_call_returns_for_every_nu 2 3 4 (-5 # 2) 5 3 (Some 0) None
           (default_rng 3) [[0; 1; 1]%Z]); try lia; [|exact I].
  exists [0; 1; 1]%Z. split; [reflexivity|]. split; [reflexivity|].
  repeat constructor; unfold in_range; lia.
Defined.

(** An initial condition shorter than J is not rejected at entry: the run
    starts and raises [IndexError] from inside the loop. *)
Example short_initial_condition_raises_mid_run :
  voter_model_with (Ok [2%Z]) (Ok [2%Z]) 2 2 1 0 (Some 0) None
    (default_rng 42) [[0%Z]]
  = ([[0]; [0]; [0]; [1; 0]; [1; 0]]%Z, Raise IndexError).
Proof. by vm_compute. Qed.

(** ** The outputs depend on the generator through its draws only *)

Section Determinism.
Context {G1 G2 : Type} `{Generator G1} `{Generator G2}.
Variable R : G1 → G2 → Prop.
Hypothesis HR : same_draws R.

Lemma sim_ret {A1 A2} (rel : A1 → A2 → Prop) a1 a2 :
  rel a1 a2 → sim rel (mret a1) (mret a2).
Proof. intros Hr h. by split. Qed.

Lemma sim_bind {A1 A2 B1 B2} (rel : A1 → A2 → Prop) (rel' : B1 → B2 → Prop)
    (m1 : M A1) (m2 : M A2) (f1 : A1 → M B1) (f2 : A2 → M B2) :
  sim rel m1 m2 → (∀ a1 a2, rel a1 a2 → sim rel' (f1 a1) (f2 a2)) →
  sim rel' (m1 ≫= f1) (m2 ≫= f2).
Proof.
  intros Hm Hf h. rewrite !run_bind. specialize (Hm h).
  destruct (m1 h) as [h1 [a1|e1]], (m2 h) as [h2 [a2|e2]]; try done.
  destruct Hm as [-> Hr]. by apply Hf.
Qed.

Lemma sim_refl {A} (m : M A) : sim eq m m.
Proof. intros h. by destruct (m h) as [h' [a|e]]. Qed.

Lemma sim_same {A B1 B2} (rel' : B1 → B2 → Prop)
    (m : M A) (f1 : A → M B1) (f2 : A → M B2) :
  (∀ a, sim rel' (f1 a) (f2 a)) → sim rel' (m ≫= f1) (m ≫= f2).
Proof.
  intros Hf. eapply sim_bind; [apply sim_refl|]. intros a ? <-. apply Hf.
Qed.

Lemma sim_rng_integers lo hi g1 g2 :
  R g1 g2 →
  sim (λ p1 p2, p1.1 = p2.1 ∧ R p1.2 p2.2)
      (lift (rng_integers lo hi g1)) (lift (rng_integers lo hi g2)).
Proof.
  intros Hg h. unfold lift, rng_integers.
  destruct (lo <? hi)%Z; [|done]. split; [done|]. by apply HR.
Qed.

Lemma sim_draw_many n lo hi g1 g2 :
  R g1 g2 →
  (draw_many n lo hi g1).1 = (draw_many n lo hi g2).1 ∧
  R (draw_many n lo hi g1).2 (draw_many n lo hi g2).2.
Proof.
  revert g1 g2. induction n as [|n IH]; intros g1 g2 Hg; simpl; [done|].
  destruct HR as [Hint _]. specialize (Hint lo hi g1 g2 Hg).
  destruct (next_integer lo hi g1) as [x1 g1'],
           (next_integer lo hi g2) as [x2 g2']. simpl in Hint.
  destruct Hint as [-> Hg']. specialize (IH g1' g2' Hg').
  destruct (draw_many n lo hi g1') as [xs1 g1''],
           (draw_many n lo hi g2') as [xs2 g2'']. simpl in *.
  destruct IH as [-> ?]. done.
Qed.

Lemma sim_update_step S J nu ops g1 g2 :
  R g1 g2 → sim R (update_step S J nu ops g1) (update_step S J nu ops g2).
Proof.
  intros Hg. unfold update_step.
  eapply sim_bind; [by apply sim_rng_integers|].
  intros [i g1'] [i2 g2'] [Hi Hg']. simpl in Hi, Hg'. subst i2.
  destruct HR as [_ Hdbl]. specialize (Hdbl g1' g2' Hg').
  destruct (next_double g1') as [u g1''], (next_double g2') as [u2 g2''].
  simpl in Hdbl. destruct Hdbl as [<- Hg''].
  destruct (Qle_bool nu u).
  - eapply sim_bind; [by apply sim_rng_integers|].
    intros [j g1_3] [j2 g2_3] [Hj Hg3]. simpl in Hj, Hg3. subst j2.
    apply sim_same. intros v. apply sim_same. intros _. by apply sim_ret.
  - eapply sim_bind; [by apply sim_rng_integers|].
    intros [v g1_3] [v2 g2_3] [Hv Hg3]. simpl in Hv, Hg3. subst v2.
    apply sim_same. intros _. by apply sim_ret.
Qed.

Lemma sim_record_richness J nu log_steps t f1 f2 :
  frame_rel R f1 f2 →
  sim (control_rel R) (record_richness J nu log_steps t f1)
      (record_richness J nu log_steps t f2).
Proof.
  intros Hf. pose proof Hf as (Ho & Hoc & Hr & Hs & Ht & Htc & Hk & Hkc & Hg).
  unfold record_richness. rewrite <- Ho, <- Hr, <- Hs, <- Ht, <- Htc, <- Hk, <- Hkc.
  destruct (k f1 <? _)%Z; [|by apply sim_ret].
  apply sim_same. intros s.
  destruct (t =? s)%Z; [|by apply sim_ret].
  apply sim_same. intros a. apply sim_same. intros richness1.
  apply sim_same. intros q. apply sim_same. intros time1.
  apply sim_same. intros r.
  destruct (Qeq_bool nu 0 && (r =? 1)%Z); apply sim_ret; [done|].
  simpl. unfold frame_rel. simpl. by rewrite <- Hoc.
Qed.

Lemma sim_record_counts S J log_steps_count t f1 f2 :
  frame_rel R f1 f2 →
  sim (frame_rel R) (record_counts S J log_steps_count t f1)
      (record_counts S J log_steps_count t f2).
Proof.
  intros Hf. pose proof Hf as (Ho & Hoc & Hr & Hs & Ht & Htc & Hk & Hkc & Hg).
  unfold record_counts. rewrite <- Ho, <- Hr, <- Hs, <- Ht, <- Htc, <- Hk, <- Hkc.
  destruct (k_c f1 <? _)%Z; [|by apply sim_ret].
  apply sim_same. intros s.
  destruct (t =? s)%Z; [|by apply sim_ret].
  apply sim_same. intros a. apply sim_same. intros z.
  apply sim_same. intros c. apply sim_same. intros _.
  apply sim_same. intros col. apply sim_same. intros store1.
  apply sim_same. intros q. apply sim_same. intros time_c1.
  apply sim_ret. unfold frame_rel. by simpl.
Qed.

Lemma sim_trim_trailing log_steps f1 f2 :
  frame_rel R f1 f2 →
  sim (frame_rel R) (trim_trailing log_steps f1) (trim_trailing log_steps f2).
Proof.
  intros Hf. pose proof Hf as (Ho & Hoc & Hr & Hs & Ht & Htc & Hk & Hkc & Hg).
  unfold trim_trailing.
  rewrite <- Ho, <- Hoc, <- Hr, <- Hs, <- Ht, <- Htc, <- Hk, <- Hkc.
  destruct (k f1 =? _)%Z; [|by apply sim_ret].
  apply sim_same. intros r.
  destruct (r =? 0)%Z; apply sim_ret; [|done]. unfold frame_rel. by simpl.
Qed.

Lemma sim_loop_body S J nu log_steps log_steps_count t f1 f2 :
  frame_rel R f1 f2 →
  sim (control_rel R) (loop_body S J nu log_steps log_steps_count t f1)
      (loop_body S J nu log_steps log_steps_count t f2).
Proof.
  intros Hf. pose proof Hf as (Ho & Hoc & Hr & Hs & Ht & Htc & Hk & Hkc & Hg).
  unfold loop_body. rewrite <- Ho.
  eapply sim_bind; [by apply sim_update_step|]. intros g1 g2 Hg'.
  eapply sim_bind.
  { apply sim_record_richness. unfold frame_rel. by simpl. }
  intros [f1'|o1] [f2'|o2] Hc; simpl in Hc; [|done|done|].
  - eapply sim_bind; [by apply sim_record_counts|]. intros f1'' f2'' Hf''.
    eapply sim_bind; [by apply sim_trim_trailing|]. intros f1_3 f2_3 Hf3.
    by apply sim_ret.
  - subst o2. by apply sim_ret.
Qed.

Lemma sim_run_steps S J nu log_steps log_steps_count ts f1 f2 :
  frame_rel R f1 f2 →
  sim (control_rel R) (run_steps S J nu log_steps log_steps_count ts f1)
      (run_steps S J nu log_steps log_steps_count ts f2).
Proof.
  revert f1 f2. induction ts as [|t ts IH]; intros f1 f2 Hf; simpl.
  - by apply sim_ret.
  - eapply sim_bind; [by apply sim_loop_body|].
    intros [f1'|o1] [f2'|o2] Hc; simpl in Hc; [|done|done|].
    + by apply IH.
    + subst o2. by apply sim_ret.
Qed.

Lemma sim_init_opinions S J IC g1 g2 :
  R g1 g2 →
  sim (λ p1 p2, p1.1 = p2.1 ∧ R p1.2 p2.2)
      (init_opinions S J IC g1) (init_opinions S J IC g2).
Proof.
  intros Hg. unfold init_opinions.
  eapply sim_bind with (rel := λ p1 p2, p1.1 = p2.1 ∧ R p1.2 p2.2).
  - destruct IC as [l0|].
    + apply sim_same. intros a. apply sim_same. intros l. by apply sim_ret.
    + eapply sim_bind with (rel := λ p1 p2, p1.1 = p2.1 ∧ R p1.2 p2.2).
      * intros h. unfold lift, rng_integers_size.
        destruct (J <? 0)%Z; [done|]. destruct (0 <? S)%Z; [|done].
        split; [done|]. by apply sim_draw_many.
      * intros [xs g1'] [xs2 g2'] [Hx Hg']. simpl in Hx, Hg'. subst xs2.
        apply sim_same. intros l. by apply sim_ret.
  - intros [ic g1'] [ic2 g2'] [Hic Hg']. simpl in Hic, Hg'. subst ic2.
    apply sim_same. intros a. apply sim_same. intros ops. by apply sim_ret.
Qed.

Lemma sim_init_frame S log_steps log_steps_count ops oc g1 g2 :
  R g1 g2 →
  sim (frame_rel R) (init_frame S log_steps log_steps_count ops oc g1)
      (init_frame S log_steps log_steps_count ops oc g2).
Proof.
  intros Hg. unfold init_frame.
  do 11 (apply sim_same; intros ?).
  apply sim_ret. unfold frame_rel. by simpl.
Qed.

Lemma sim_simulate S J T nu log_steps log_steps_count ops oc g1 g2 :
  R g1 g2 →
  sim eq (simulate S J T nu log_steps log_steps_count ops oc g1)
      (simulate S J T nu log_steps log_steps_count ops oc g2).
Proof.
  intros Hg. unfold simulate.
  eapply sim_bind; [by apply sim_init_frame|]. intros f1 f2 Hf.
  eapply sim_bind; [by apply sim_run_steps|].
  intros [f1'|o1] [f2'|o2] Hc; simpl in Hc; [|done|done|].
  - apply sim_ret. destruct Hc as (Ho & Hoc & Hr & Hs & Ht & Htc & Hk & Hkc & _).
    unfold final_outputs. by rewrite Hs, Hr, Ht, Htc.
  - by apply sim_ret.
Qed.

Lemma sim_voter_model_with sched sched_c S J T nu IC oc g1 g2 :
  R g1 g2 →
  sim eq (voter_model_with sched sched_c S J T nu IC oc g1)
      (voter_model_with sched sched_c S J T nu IC oc g2).
Proof.
  intros Hg. unfold voter_model_with.
  eapply sim_bind; [by apply sim_init_opinions|].
  intros [ops g1'] [ops2 g2'] [Hops Hg']. simpl in Hops, Hg'. subst ops2.
  apply sim_same. intros c. apply sim_same. intros ls. apply sim_same.
  intros lsc. by apply sim_simulate.
Qed.

End Determinism.



(** ** The truncated logarithmic series *)

Section Log_series.
Import LogSeries.
#[local] Open Scope R_scope.

Lemma table_lookup_map (f : Z → R) (xs : list Z) (k : Z) :
  table_lookup xs (map f xs) k = if decide (k ∈ xs) then f k else 0.
Proof.
  induction xs as [|x xs IH]; simpl.
  - destruct (decide (k ∈ [])) as [Hin|_]; [by apply elem_of_nil in Hin|done].
  - destruct (x =? k)%Z eqn:E.
    + apply Z.eqb_eq in E as ->.
      destruct (decide (k ∈ k :: xs)) as [_|Hn]; [done|].
      exfalso. apply Hn. by left.
    + apply Z.eqb_neq in E. rewrite IH.
      destruct (decide (k ∈ xs)) as [Hin|Hn];
        destruct (decide (k ∈ x :: xs)) as [Hin'|Hn']; try done.
      * exfalso. apply Hn'. by right.
      * apply elem_of_cons in Hin' as [->|?]; done.
Qed.

Lemma Rsum_scale (c : R) (f : Z → R) (l : list Z) :
  Rsum (map (λ j, c * f j) l) = c * Rsum (map f l).
Proof. induction l as [|x l IH]; simpl; [lra|]. rewrite IH. lra. Qed.

Lemma Rsum_ext (f g : Z → R) (l : list Z) :
  (∀ x, x ∈ l → f x = g x) → Rsum (map f l) = Rsum (map g l).
Proof.
  induction l as [|x l IH]; intros Hfg; simpl; [done|].
  rewrite Hfg by (by left). rewrite IH; [done|]. intros y Hy. apply Hfg. by right.
Qed.

Lemma Rsum_pos (f : Z → R) (l : list Z) :
  l ≠ [] → (∀ x, x ∈ l → 0 < f x) → 0 < Rsum (map f l).
Proof.
  intros Hne Hpos. destruct l as [|x l]; [done|]. clear Hne. simpl.
  assert (0 <= Rsum (map f l)) as Hrest.
  { assert (∀ y, y ∈ l → 0 < f y) as Hl by (intros y Hy; apply Hpos; by right).
    clear Hpos. induction l as [|y l IH]; simpl; [lra|].
    assert (0 < f y) by (apply Hl; by left).
    assert (0 <= Rsum (map f l)) by (apply IH; intros z Hz; apply Hl; by right).
    lra. }
  assert (0 < f x) by (apply Hpos; by left). lra.
Qed.

Lemma ln_one_minus_neg theta : 0 < theta < 1 → ln (1 - theta) < 0.
Proof. intros [H0 H1]. rewrite <- ln_1. apply ln_increasing; lra. Qed.

(** The weight of line 147 is the term [theta^k / k] of the series, scaled
    by the positive constant [-1 / ln (1 - theta)]. *)
Lemma weight_series theta k :
  0 < theta < 1 → (1 ≤ k)%Z →
  weight theta k = (- / ln (1 - theta)) * (theta ^ Z.to_nat k / IZR k).
Proof.
  intros Ht Hk. unfold weight. pose proof (ln_one_minus_neg theta Ht).
  assert (0 < IZR k) by (apply IZR_lt; lia). field. lra.
Qed.

Lemma series_term_pos theta k :
  0 < theta < 1 → (1 ≤ k)%Z → 0 < theta ^ Z.to_nat k / IZR k.
Proof.
  intros [H0 H1] Hk. assert (0 < IZR k) by (apply IZR_lt; lia).
  apply Rdiv_lt_0_compat; [by apply pow_lt|done].
Qed.

Lemma weight_pos theta k : 0 < theta < 1 → (1 ≤ k)%Z → 0 < weight theta k.
Proof.
  intros Ht Hk. rewrite weight_series by done.
  pose proof (ln_one_minus_neg theta Ht) as Hln.
  apply Rmult_lt_0_compat; [|by apply series_term_pos].
  assert (/ ln (1 - theta) < 0) by (by apply Rinv_lt_0_compat). lra.
Qed.

End Log_series.



(** * Further properties of the engine *)

(** ** One update, one individual *)

Section One_site.
Context {G : Type} `{GeneratorContract G}.

(** X1. One elementary update (lines 84-91) of a valid population rewrites
    the population array at a single index below J, with a label of
    [0, S), and nothing else in the store; the population keeps its J
    individuals. *)
Theorem update_step_one_site (S J : Z) (nu : Q) (ops : loc) (g : G)
    (h : heap) (a : list Z) :
  (1 ≤ S)%Z → (1 ≤ J)%Z →
  h !! ops = Some a → length a = Z.to_nat J → Forall (in_range S) a →
  ∃ (i : nat) (v : Z) (g' : G),
    i < length a ∧ in_range S v ∧
    update_step S J nu ops g h = (<[ops := <[i := v]> a]> h, Ok g') ∧
    length (<[i := v]> a) = Z.to_nat J.
Proof.
  intros HS HJ Hops Hlen Ha. unfold update_step.
  destruct (rng_integers_ok 0 J g) as (i & g1 & Hi & Hir); [lia|].
  rewrite run_bind. unfold lift at 1. rewrite Hi.
  destruct (next_double g1) as [u g2]. destruct (Qle_bool nu u).
  - destruct (rng_integers_ok 0 J g2) as (j & g3 & Hj & Hjr); [lia|].
    rewrite run_bind. unfold lift at 1. rewrite Hj.
    destruct (lookup_lt_is_Some_2 a (Z.to_nat j)) as [v Hv]; [lia|].
    rewrite (run_bind_ok _ _ _ _ _ (run_read_at _ _ _ _ _ Hops (proj1 Hjr) Hv)).
    rewrite (run_bind_ok _ _ h (<[ops := <[Z.to_nat i := v]> a]> h) tt);
      [|apply run_write_at; [done|lia]].
    exists (Z.to_nat i), v, g3. split; [lia|]. split.
    { by eapply Forall_lookup_1 in Ha. }
    split; [done|]. by rewrite length_insert.
  - destruct (rng_integers_ok 0 S g2) as (v & g3 & Hv & Hvr); [lia|].
    rewrite run_bind. unfold lift at 1. rewrite Hv.
    rewrite (run_bind_ok _ _ h (<[ops := <[Z.to_nat i := v]> a]> h) tt);
      [|apply run_write_at; [done|lia]].
    exists (Z.to_nat i), v, g3. split; [lia|]. split; [done|].
    split; [done|]. by rewrite length_insert.
Qed.

End One_site.

Lemma update_step_one_site_witness :
  ∃ (i : nat) (v : Z) (g' : lcg_state),
    i < length [0; 1; 2]%Z ∧ in_range 3 v ∧
    update_step 3 3 (1 # 3) 0 (default_rng 11) [[0; 1; 2]%Z]
    = (<[0 := <[i := v]> [0; 1; 2]%Z]> [[0; 1; 2]%Z], Ok g') ∧
    length (<[i := v]> [0; 1; 2]%Z) = Z.to_nat 3.
Proof.
  apply (update_step_one_site 3 3 (1 # 3) 0 (default_rng 11)
           [[0; 1; 2]%Z] [0; 1; 2]%Z); try lia; try reflexivity.
  repeat constructor; unfold in_range; lia.
Defined.

(** ** Without speciation no label appears *)

Section Copy_only.
Context {G : Type} `{GeneratorContract G}.
Variable P : Z → Prop.

Lemma read_at_among ops j :
  hoare (labels_among P ops) (read_at ops j)
        (λ v h, labels_among P ops h ∧ P v) (λ _ h, labels_among P ops h).
Proof.
  intros h Hl. pose proof Hl as (a & Hops & Ha). unfold read_at.
  rewrite (run_bind_ok _ _ _ _ _ (run_load _ _ _ Hops)). unfold lift.
  destruct (np_get a j) as [v|e] eqn:E; [|done]. split; [done|].
  apply np_get_elem in E. by eapply list.Forall_forall in Ha.
Qed.

Lemma write_at_among ops i v :
  P v →
  hoare (labels_among P ops) (write_at ops i v)
        (λ _ h, labels_among P ops h) (λ _ h, labels_among P ops h).
Proof.
  intros Hv h Hl. pose proof Hl as (a & Hops & Ha). unfold write_at.
  rewrite (run_bind_ok _ _ _ _ _ (run_load _ _ _ Hops)).
  rewrite run_bind. unfold lift at 1. unfold np_set.
  destruct (np_index (length a) i) as [j|e]; [|done]. simpl.
  rewrite (run_store _ _ _ _ Hops).
  exists (<[j := v]> a). split; [|by apply Forall_insert].
  apply list_lookup_insert_eq. by eapply lookup_lt_Some.
Qed.

(** With nu <= 0 the test of line 87 always holds: the update copies. *)
Lemma update_step_copies S J nu ops (g : G) :
  (nu <= 0)%Q →
  hoare (labels_among P ops) (update_step S J nu ops g)
        (λ _ h, labels_among P ops h) (λ _ h, labels_among P ops h).
Proof.
  intros Hnu h Hl. unfold update_step.
  rewrite run_bind. unfold lift at 1. unfold rng_integers at 1.
  destruct (0 <? J)%Z eqn:EJ; [|done].
  destruct (next_integer 0 J g) as [i g1].
  pose proof (next_double_range g1) as [Hu _].
  destruct (next_double g1) as [u g2]. simpl in Hu.
  assert (Qle_bool nu u = true) as ->.
  { apply Qle_bool_iff. by eapply Qle_trans. }
  rewrite run_bind. unfold lift at 1. unfold rng_integers. rewrite EJ.
  destruct (next_integer 0 J g2) as [j g3].
  rewrite run_bind. pose proof (read_at_among ops j h Hl) as Hr.
  destruct (read_at ops j h) as [h1 [v|e]]; [|done]. destruct Hr as [Hl1 Hv].
  rewrite run_bind. pose proof (write_at_among ops i v Hv h1 Hl1) as Hw.
  by destruct (write_at ops i v h1) as [h2 [[]|e]].
Qed.

Lemma among_framed {A} (m : M A) (Q : A → Prop) ops h :
  (∀ h0, framed h0 m Q) → labels_among P ops h →
  match m h with
  | (h', Ok a) => labels_among P ops h' ∧ Q a
  | (h', Raise _) => labels_among P ops h'
  end.
Proof.
  intros Hf (a & Hops & Ha). specialize (Hf h h). unfold keeps in Hf.
  specialize (Hf (reflexivity h)).
  destruct (m h) as [h' [x|e]].
  - destruct Hf as [Hk HQ]. split; [|done]. exists a.
    split; [by eapply keeps_lookup|done].
  - exists a. split; [by eapply keeps_lookup|done].
Qed.

Lemma loop_body_copies S J nu log_steps log_steps_count t (f : @frame G) :
  (nu <= 0)%Q →
  hoare (labels_among P (opinions f))
        (loop_body S J nu log_steps log_steps_count t f)
        (λ c h, labels_among P (opinions f) h ∧
                match c with
                | Continue f' => opinions f' = opinions f
                | Return _ => True
                end)
        (λ _ h, labels_among P (opinions f) h).
Proof.
  intros Hnu h Hl. unfold loop_body.
  rewrite run_bind. pose proof (update_step_copies S J nu _ (rng f) Hnu h Hl) as H1.
  destruct (update_step S J nu (opinions f) (rng f) h) as [h1 [g|e]]; [|done].
  rewrite run_bind.
  set (f0 := Frame _ _ _ _ _ _ _ _ g).
  pose proof (among_framed _ _ (opinions f) h1
                (λ h0, framed_record_richness h0 J nu log_steps t f0) H1) as H2.
  destruct (record_richness J nu log_steps t f0 h1) as [h2 [[f1|o]|e]];
    [|done..].
  destruct H2 as [H2 Ho1]. simpl in Ho1.
  rewrite run_bind.
  pose proof (among_framed _ _ (opinions f) h2
                (λ h0, framed_record_counts h0 S J log_steps_count t f1) H2) as H3.
  destruct (record_counts S J log_steps_count t f1 h2) as [h3 [f2|e]]; [|done].
  destruct H3 as [H3 Ho2].
  rewrite run_bind.
  pose proof (among_framed _ _ (opinions f) h3
                (λ h0, framed_trim_trailing h0 log_steps f2) H3) as H4.
  destruct (trim_trailing log_steps f2 h3) as [h4 [f3|e]]; [|done].
  destruct H4 as [H4 Ho3]. split; [done|]. congruence.
Qed.

Lemma run_steps_copies S J nu log_steps log_steps_count ts (f : @frame G) :
  (nu <= 0)%Q →
  hoare (labels_among P (opinions f))
        (run_steps S J nu log_steps log_steps_count ts f)
        (λ _ h, labels_among P (opinions f) h)
        (λ _ h, labels_among P (opinions f) h).
Proof.
  intros Hnu. revert f. induction ts as [|t ts IH]; intros f h Hl; simpl; [done|].
  rewrite run_bind.
  pose proof (loop_body_copies S J nu log_steps log_steps_count t f Hnu h Hl) as Hb.
  destruct (loop_body S J nu log_steps log_steps_count t f h)
    as [h1 [[f1|o]|e]]; [|by destruct Hb|done].
  destruct Hb as [Hl1 Ho]. rewrite <- Ho in Hl1 |- *.
  by apply IH.
Qed.

End Copy_only.

Lemma np_unique_NoDup (l : list Z) : NoDup (np_unique l).
Proof.
  pose proof (np_unique_sorted l) as Hs.
  induction Hs as [|x k Hk IH Hx]; [constructor|].
  apply list.NoDup_cons. split; [|done]. intros Hin.
  eapply list.Forall_forall in Hx; [|exact Hin]. lia.
Qed.

(** Fewer labels, fewer distinct labels. *)
Lemma np_unique_length_mono (a b : list Z) :
  (∀ x, x ∈ a → x ∈ b) → length (np_unique a) ≤ length (np_unique b).
Proof.
  intros Hab. apply submseteq_length, NoDup_submseteq; [apply np_unique_NoDup|].
  intros x Hx. rewrite np_unique_elem in Hx |- *. by apply Hab.
Qed.

(** X2. With nu <= 0, nu = 0 in particular, no label ever appears: after
    any number of iterations of the loop, however it ends, every label of
    the population is one the population held before, so its richness has
    not grown, and a population at consensus on [x] is still at consensus
    on [x]. *)
Theorem no_new_label_without_speciation {G : Type} `{GeneratorContract G}
    (S J : Z) (nu : Q) (log_steps log_steps_count ts : list Z)
    (f : @frame G) (h : heap) (a : list Z) :
  (nu <= 0)%Q → h !! opinions f = Some a →
  ∃ a', (run_steps S J nu log_steps log_steps_count ts f h).1 !! opinions f
        = Some a' ∧
        (∀ x, x ∈ a' → x ∈ a) ∧
        length (np_unique a') ≤ length (np_unique a) ∧
        (∀ x, Forall (eq x) a → Forall (eq x) a').
Proof.
  intros Hnu Ha.
  assert (labels_among (λ x, x ∈ a) (opinions f) h) as Hl.
  { exists a. split; [done|]. by apply list.Forall_forall. }
  pose proof (run_steps_copies (λ x, x ∈ a) S J nu log_steps log_steps_count
                ts f Hnu h Hl) as Hr.
  assert (labels_among (λ x, x ∈ a) (opinions f)
            (run_steps S J nu log_steps log_steps_count ts f h).1) as (a' & Ha' & Hsub).
  { by destruct (run_steps _ _ _ _ _ ts f h) as [h' [c|e]]. }
  exists a'. split; [done|].
  assert (∀ x, x ∈ a' → x ∈ a) as Hin.
  { intros x Hx. by eapply list.Forall_forall in Hsub. }
  split; [done|]. split; [by apply np_unique_length_mono|].
  intros x Hx. apply list.Forall_forall. intros y Hy.
  apply Hin in Hy. by eapply list.Forall_forall in Hx.
Qed.

Lemma no_new_label_without_speciation_witness :
  let f := Frame 0 1 [2; 0; 0]%Z [[2; 1; 0]; [0; 0; 0]; [0; 0; 0]]%Z
                 [0; 0; 0]%Q [0; 0; 0]%Q 1 1 (default_rng 5) in
  let h := [[0; 1; 0]; [2; 1; 0]]%Z in
  ∃ a', (run_steps 3 3 0 [3; 9]%Z [3; 9]%Z (seqZ 1 9) f h).1 !! 0 = Some a' ∧
        (∀ x, x ∈ a' → x ∈ [0; 1; 0]%Z) ∧
        length (np_unique a') ≤ length (np_unique [0; 1; 0]%Z) ∧
        (∀ x, Forall (eq x) [0; 1; 0]%Z → Forall (eq x) a').
Proof.
  intros f h.
  apply (no_new_label_without_speciation 3 3 0 [3; 9]%Z [3; 9]%Z (seqZ 1 9) f h).
  - done.
  - reflexivity.
Defined.

(** ** When the loop returns early *)

Section Early_return.
Context {G : Type} `{Generator G}.

Lemma np_index_lt len i j : np_index len i = Ok j → j < len.
Proof.
  unfold np_index.
  destruct ((0 <=? i)%Z && (i <? Z.of_nat len)%Z) eqn:E1.
  { apply andb_true_iff in E1 as [E1 E2]. apply Z.leb_le in E1.
    apply Z.ltb_lt in E2. intros [= <-]. lia. }
  destruct ((- Z.of_nat len <=? i)%Z && (i <? 0)%Z) eqn:E2; [|done].
  apply andb_true_iff in E2 as [E2 E3]. apply Z.leb_le in E2.
  apply Z.ltb_lt in E3. intros [= <-]. lia.
Qed.

(** What [a[i] = v] stores, [a[i]] reads back. *)
Lemma np_get_np_set {A} (a a' : list A) i v :
  np_set a i v = Ok a' → np_get a' i = Ok v.
Proof.
  unfold np_set, np_get. destruct (np_index (length a) i) as [j|e] eqn:E; [|done].
  simpl. intros [= <-]. rewrite length_insert, E. simpl.
  apply np_index_lt in E. by rewrite list_lookup_insert_eq.
Qed.

Lemma record_richness_return J nu log_steps t (f : @frame G) h h' o :
  record_richness J nu log_steps t f h = (h', Ok (Return o)) →
  Qeq_bool nu 0 = true ∧ np_get log_steps (k f - 1) = Ok t ∧ h' = h ∧
  ∃ a, h !! opinions f = Some a ∧ length (np_unique a) = 1.
Proof.
  unfold record_richness.
  destruct (k f <? _)%Z; [|done].
  rewrite run_bind. unfold lift at 1.
  destruct (np_get log_steps (k f - 1)) as [s|e] eqn:Es; [|done].
  destruct (t =? s)%Z eqn:Et; [|done]. apply Z.eqb_eq in Et as <-.
  rewrite run_bind. unfold load at 1.
  destruct (h !! opinions f) as [a|] eqn:Ha; [|done].
  rewrite run_bind. unfold lift at 1.
  destruct (np_set (richness f) (k f) _) as [richness1|e] eqn:Er; [|done].
  rewrite run_bind. unfold lift at 1.
  destruct (divide t J) as [q|e]; [|done].
  rewrite run_bind. unfold lift at 1.
  destruct (np_set (time f) (k f) q) as [time1|e]; [|done].
  rewrite run_bind. unfold lift at 1.
  rewrite (np_get_np_set _ _ _ _ Er).
  destruct (Qeq_bool nu 0) eqn:Enu; [|done]. simpl.
  destruct (Z.of_nat (length (np_unique a)) =? 1)%Z eqn:E1; [|done].
  apply Z.eqb_eq in E1. intros [= <- _]. split; [done|]. split; [done|].
  split; [done|]. exists a. split; [done|lia].
Qed.

Lemma loop_body_opinions S J nu log_steps log_steps_count t (f f' : @frame G) h h' :
  loop_body S J nu log_steps log_steps_count t f h = (h', Ok (Continue f')) →
  opinions f' = opinions f.
Proof.
  intros Hrun.
  pose proof (framed_loop_body [] S J nu log_steps log_steps_count t f
                ltac:(simpl; lia) h (prefix_nil h)) as Hf.
  rewrite Hrun in Hf. by destruct Hf.
Qed.

Lemma loop_body_return S J nu log_steps log_steps_count t (f : @frame G) h h' o :
  loop_body S J nu log_steps log_steps_count t f h = (h', Ok (Return o)) →
  Qeq_bool nu 0 = true ∧ t ∈ log_steps ∧
  ∃ a, h' !! opinions f = Some a ∧ length (np_unique a) = 1.
Proof.
  unfold loop_body. rewrite run_bind.
  destruct (update_step S J nu (opinions f) (rng f) h) as [h1 [g|e]]; [|done].
  rewrite run_bind.
  destruct (record_richness J nu log_steps t _ h1) as [h2 [[f1|o1]|e]] eqn:Err;
    [| |done].
  - rewrite run_bind.
    destruct (record_counts S J log_steps_count t f1 h2) as [h3 [f2|e]]; [|done].
    rewrite run_bind.
    by destruct (trim_trailing log_steps f2 h3) as [h4 [f3|e]].
  - intros [= <- <-].
    apply record_richness_return in Err as (Hnu & Hget & -> & a & Ha & Hone).
    split; [done|]. split; [by eapply np_get_elem|]. by exists a.
Qed.

End Early_return.

Lemma run_steps_return {G : Type} `{Generator G}
    (S J : Z) (nu : Q) (log_steps log_steps_count ts : list Z)
    (f : @frame G) (h h' : heap) (o : outputs) :
  run_steps S J nu log_steps log_steps_count ts f h = (h', Ok (Return o)) →
  Qeq_bool nu 0 = true ∧
  ∃ t a, t ∈ ts ∧ t ∈ log_steps ∧
         h' !! opinions f = Some a ∧ length (np_unique a) = 1.
Proof.
  revert f h. induction ts as [|t ts IH]; intros f h; simpl; [done|].
  rewrite run_bind.
  destruct (loop_body S J nu log_steps log_steps_count t f h)
    as [h1 [[f1|o1]|e]] eqn:Hb; [| |done].
  - intros Hrun. apply loop_body_opinions in Hb.
    destruct (IH f1 h1 Hrun) as (Hnu & t' & a & Ht' & Hls & Ha & Hone).
    split; [done|]. exists t', a. rewrite <- Hb.
    split; [by right|done].
  - intros [= <- <-]. apply loop_body_return in Hb as (Hnu & Ht & a & Ha & Hone).
    split; [done|]. exists t, a. split; [by left|done].
Qed.

(** X3. The loop returns early only in the situation of lines 97-99: if
    it does, then nu = 0, the step at which it stopped is an entry of the
    richness schedule, and the population it leaves holds a single label.
    So a run with nu <> 0 never stops early, and neither does consensus
    reached between two checkpoints. *)
Theorem early_return_only_at_consensus_checkpoint {G : Type} `{Generator G}
    (S J : Z) (nu : Q) (log_steps log_steps_count ts : list Z)
    (f : @frame G) (h h' : heap) (o : outputs) :
  run_steps S J nu log_steps log_steps_count ts f h = (h', Ok (Return o)) →
  (nu == 0)%Q ∧
  ∃ t a, t ∈ ts ∧ t ∈ log_steps ∧
         h' !! opinions f = Some a ∧ length (np_unique a) = 1.
Proof.
  intros Hrun. apply run_steps_return in Hrun as [Hnu Hrest].
  split; [by apply Qeq_bool_iff|done].
Qed.

Lemma early_return_only_at_consensus_checkpoint_witness :
  let f := Frame 2 3 [1; 0; 0]%Z [[2; 0]; [0; 0]; [0; 0]]%Z
                 [0; 0; 0]%Q [0; 0; 0]%Q 1 1 (default_rng 42) in
  let h := [[0; 0]; [0; 0]; [0; 0]; [2; 0]; [2; 0]]%Z in
  (0 == 0)%Q ∧
  ∃ t a, t ∈ [2; 3; 4]%Z ∧ t ∈ [2; 4]%Z ∧
         (run_steps 2 2 0 [2; 4]%Z [2; 4]%Z [2; 3; 4]%Z f h).1 !! 2 = Some a ∧
         length (np_unique a) = 1.
Proof.
  intros f h.
  eapply (early_return_only_at_consensus_checkpoint 2 2 0 [2; 4]%Z [2; 4]%Z
            [2; 3; 4]%Z f h).
  vm_compute. reflexivity.
Defined.

(** ** The shape of what comes back *)

(** X4. Whatever a valid call returns, early or not, is aligned: the
    richness series and its times have the same length, between 1 and
    [len(log_steps) + 1]; the table has [len(log_steps_count) + 1] columns
    of S entries each; the abundance times have at least 1 and at most as
    many entries as the table has columns; and the initial richness, in
    slot 0, is at least 1. *)
Theorem returned_arrays_are_aligned {G : Type} `{GeneratorContract G}
    (S J T : Z) (nu : Q) (num_log_steps num_log_steps_count : Z)
    (IC opinion_counts : option loc) (g : G) (h : heap) :
  (1 ≤ S)%Z → (1 ≤ J)%Z → (1 ≤ T)%Z →
  (0 ≤ num_log_steps)%Z → (0 ≤ num_log_steps_count)%Z →
  valid_IC S J IC h → valid_opinion_counts S J opinion_counts h →
  ∃ h' o log_steps log_steps_count,
    log_schedule J (T * J) num_log_steps = Ok log_steps ∧
    log_schedule J (T * J) num_log_steps_count = Ok log_steps_count ∧
    voter_model S J T nu num_log_steps num_log_steps_count
      IC opinion_counts g h = (h', Ok o) ∧
    length (out_time o) = length (out_richness o) ∧
    1 ≤ length (out_richness o) ≤ length log_steps + 1 ∧
    length (out_counts o) = length log_steps_count + 1 ∧
    Forall (λ col, length col = Z.to_nat S) (out_counts o) ∧
    1 ≤ length (out_time_c o) ≤ length (out_counts o) ∧
    ∃ r0, out_richness o !! 0 = Some r0 ∧ (1 ≤ r0)%Z.
Proof.
  intros HS HJ HT HN HNc HIC Hoc.
  destruct (voter_model_ok S J T nu _ _ IC opinion_counts g h HS HJ HN HNc HIC Hoc)
    as (h' & o & ls & lsc & Hls & Hlsc & Hrun & Ho).
  exists h', o, ls, lsc. split; [done|]. split; [done|]. split; [done|].
  destruct Ho as (k0 & kc0 & Hk & Hkc & (Htl & Htab) & Hrest).
  assert (Forall (λ col, length col = Z.to_nat S) (out_counts o)) as Hcols.
  { apply Forall_lookup. intros c col Hc. specialize (Htab c col Hc).
    destruct (Z.of_nat c <? kc0)%Z; [by destruct Htab|].
    subst col. by rewrite length_replicate. }
  destruct Hrest as [(Hlen & (written & Hwl & Hwp & Hr) & (Htcl & _) & _)
                    |(Hk2 & Hrl & Hrp & Htlen & Htcl)].
  - assert (1 ≤ length written) as Hw1 by lia.
    assert (∃ r0, out_richness o !! 0 = Some r0 ∧ (1 ≤ r0)%Z) as Hr0.
    { destruct written as [|r0 w]; [simpl in Hw1; lia|]. exists r0.
      apply list.Forall_cons in Hwp as [Hr0 _].
      destruct Hr as [->|[_ ->]]; by split. }
    assert (length (out_richness o) ≤ length ls + 1 ∧
            1 ≤ length (out_richness o)) as [? ?].
    { destruct Hr as [->|[? ->]].
      - rewrite length_app, length_replicate. lia.
      - lia. }
    split; [done|]. split; [lia|]. split; [lia|]. split; [done|].
    split; [lia|done].
  - split; [lia|]. split; [lia|]. split; [lia|]. split; [done|].
    split; [lia|].
    destruct (out_richness o) as [|r0 w] eqn:Er; [simpl in Hrl; lia|].
    exists r0. apply list.Forall_cons in Hrp as [Hr0 _]. by split.
Qed.

Lemma returned_arrays_are_aligned_witness :
  ∃ h' o log_steps log_steps_count,
    log_schedule 3 (4 * 3) 5 = Ok log_steps ∧
    log_schedule 3 (4 * 3) 3 = Ok log_steps_count ∧
    voter_model 2 3 4 (1 # 10) 5 3 (Some 0) None (default_rng 3) [[0; 1; 1]%Z]
    = (h', Ok o) ∧
    length (out_time o) = length (out_richness o) ∧
    1 ≤ length (out_richness o) ≤ length log_steps + 1 ∧
    length (out_counts o) = length log_steps_count + 1 ∧
    Forall (λ col, length col = Z.to_nat 2) (out_counts o) ∧
    1 ≤ length (out_time_c o) ≤ length (out_counts o) ∧
    ∃ r0, out_richness o !! 0 = Some r0 ∧ (1 ≤ r0)%Z.
Proof.
  apply (returned_arrays_are_aligned 2 3 4 (1 # 10) 5 3 (Some 0) None
           (default_rng 3) [[0; 1; 1]%Z]); try lia; [|exact I].
  exists [0; 1; 1]%Z. split; [reflexivity|]. split; [reflexivity|].
  repeat constructor; unfold in_range; lia.
Defined.

(** * Further properties of the schedule *)

Section Schedule_ends.

Lemma np_unique_constant (x : Z) (l : list Z) :
  l ≠ [] → Forall (eq x) l → np_unique l = [x].
Proof.
  intros Hne Hl. unfold np_unique.
  induction Hl as [|y l <- Hl IH]; [done|]. simpl.
  destruct l as [|z l].
  - done.
  - rewrite IH by done. simpl. rewrite Z.ltb_irrefl, Z.eqb_refl. done.
Qed.

Lemma schedule_rounds_in_bounds (J total : Z) num :
  (1 ≤ J)%Z → (J ≤ total)%Z →
  Forall (λ t, (J ≤ t ≤ total)%Z)
         (map np_round (logspace (log10 (IZR J)) (log10 (IZR total)) num)).
Proof.
  intros HJ HT. apply Forall_fmap.
  eapply Forall_impl; [|by apply logspace_bounds].
  simpl. intros x Hx. by apply np_round_bounds.
Qed.

Lemma sorted_first_is_least (s : list Z) (x : Z) :
  StronglySorted Z.lt s → x ∈ s → Forall (λ t, (x ≤ t)%Z) s → s !! 0 = Some x.
Proof.
  intros Hs Hx Hle. destruct s as [|y s]; [by apply elem_of_nil in Hx|].
  simpl. f_equal. apply list.Forall_cons in Hle as [Hxy _].
  apply elem_of_cons in Hx as [->|Hx]; [done|].
  apply StronglySorted_inv in Hs as [_ Hy].
  eapply list.Forall_forall in Hy; [|exact Hx]. lia.
Qed.

Lemma sorted_last_is_greatest (s : list Z) (x : Z) :
  StronglySorted Z.lt s → x ∈ s → Forall (λ t, (t ≤ x)%Z) s →
  s !! (length s - 1) = Some x.
Proof.
  intros Hs. induction Hs as [|y s Hs IH Hy]; intros Hx Hle.
  { by apply elem_of_nil in Hx. }
  apply list.Forall_cons in Hle as [Hyx Hle].
  destruct s as [|z s].
  - apply elem_of_cons in Hx as [->|Hx]; [done|by apply elem_of_nil in Hx].
  - simpl.
    replace (length s) with (length (z :: s) - 1) by (simpl; lia).
    apply IH; [|done].
    apply elem_of_cons in Hx as [->|Hx]; [|done].
    apply list.Forall_cons in Hy as [Hyz _].
    apply list.Forall_cons in Hle as [Hzy _]. lia.
Qed.

End Schedule_ends.





(** * Invalid labels *)

Section Bad_labels.
Context {G : Type} `{Generator G}.

Lemma np_index_outside len i :
  ¬ (- Z.of_nat len ≤ i < Z.of_nat len)%Z → np_index len i = Raise IndexError.
Proof.
  intros Hi. unfold np_index.
  destruct ((0 <=? i)%Z && (i <? Z.of_nat len)%Z) eqn:E1.
  { apply andb_true_iff in E1 as [E1 E2]. apply Z.leb_le in E1.
    apply Z.ltb_lt in E2. lia. }
  destruct ((- Z.of_nat len <=? i)%Z && (i <? 0)%Z) eqn:E2; [|done].
  apply andb_true_iff in E2 as [E2 E3]. apply Z.leb_le in E2.
  apply Z.ltb_lt in E3. lia.
Qed.

Lemma np_index_inside len i :
  (- Z.of_nat len ≤ i < Z.of_nat len)%Z → ∃ j, np_index len i = Ok j ∧ j < len.
Proof.
  intros Hi. unfold np_index.
  destruct ((0 <=? i)%Z && (i <? Z.of_nat len)%Z) eqn:E1.
  { exists (Z.to_nat i). split; [done|].
    apply andb_true_iff in E1 as [E1 E2]. apply Z.leb_le in E1.
    apply Z.ltb_lt in E2. lia. }
  destruct ((- Z.of_nat len <=? i)%Z && (i <? 0)%Z) eqn:E2.
  { exists (Z.to_nat (Z.of_nat len + i)). split; [done|]. lia. }
  apply andb_false_iff in E1. apply andb_false_iff in E2.
  rewrite !Z.leb_gt, !Z.ltb_ge in *. lia.
Qed.

(** The tally of lines 61-62 stops with [IndexError] at the first label
    that is no index of the count vector. *)
Lemma for_each_increment_outside (h : heap) c (a arr : list Z) :
  h !! c = Some arr →
  (∃ o, o ∈ a ∧ ¬ (- Z.of_nat (length arr) ≤ o < Z.of_nat (length arr))%Z) →
  ∃ h', for_each (increment c) a h = (h', Raise IndexError).
Proof.
  revert h arr. induction a as [|o a IH]; intros h arr Hc (b & Hb & Hbad).
  { by apply elem_of_nil in Hb. }
  simpl. rewrite run_bind. unfold increment at 1. rewrite run_bind.
  unfold read_at at 1. rewrite (run_bind_ok _ _ _ _ _ (run_load _ _ _ Hc)).
  unfold lift at 1, np_get.
  destruct (decide (- Z.of_nat (length arr) ≤ o < Z.of_nat (length arr))%Z)
    as [Hin|Hout].
  - destruct (np_index_inside _ _ Hin) as (j & Hj & Hjl). rewrite Hj. simpl.
    destruct (lookup_lt_is_Some_2 arr j Hjl) as [v Hv]. rewrite Hv.
    unfold write_at. rewrite (run_bind_ok _ _ _ _ _ (run_load _ _ _ Hc)).
    rewrite run_bind. unfold lift at 1, np_set. rewrite Hj. simpl.
    rewrite (run_store _ _ _ _ Hc).
    apply (IH _ (<[j := (v + 1)%Z]> arr)).
    + apply list_lookup_insert_eq. by eapply lookup_lt_Some.
    + exists b. rewrite length_insert. split; [|done].
      apply elem_of_cons in Hb as [->|Hb]; [done|done].
  - rewrite (np_index_outside _ _ Hout). simpl. by eexists.
Qed.

End Bad_labels.

(** X7. An initial condition with a label outside [-S, S) is caught only
    by numpy's bounds check: with no count vector supplied, the call raises
    [IndexError] from the tally of lines 61-62, before the schedule is
    computed and before any step. (A label of [-S, 0) is a valid numpy
    index and is not caught.) *)
Theorem label_outside_raises_at_entry {G : Type} `{Generator G}
    (S J T : Z) (nu : Q) (num_log_steps num_log_steps_count : Z)
    (l : loc) (g : G) (h : heap) (a : list Z) :
  (0 ≤ S)%Z → h !! l = Some a →
  (∃ o, o ∈ a ∧ ¬ (- S ≤ o < S)%Z) →
  ∃ h', voter_model S J T nu num_log_steps num_log_steps_count
          (Some l) None g h = (h', Raise IndexError).
Proof.
  intros HS Hl Hbad. unfold voter_model, voter_model_with.
  rewrite run_bind. unfold init_opinions.
  rewrite run_bind.
  rewrite (run_bind_ok _ _ _ _ _ (run_load _ _ _ Hl)).
  rewrite run_bind. unfold alloc at 1.
  unfold mret at 1, M_ret, ret.
  rewrite (run_bind_ok _ _ _ _ _ (run_load _ _ _ (lookup_alloc_new h a))).
  rewrite run_bind. unfold alloc at 1.
  unfold mret at 1, M_ret, ret.
  rewrite run_bind. unfold init_counts.
  rewrite run_bind. unfold lift at 1. rewrite np_zeros_nonneg by done.
  rewrite run_bind. unfold alloc at 1.
  set (h2 := ((h ++ [a]) ++ [a])). set (zeros := replicate (Z.to_nat S) 0%Z).
  rewrite (run_bind_ok _ _ _ _ _
             (run_load _ _ _ (lookup_alloc_old h2 zeros _ _
                                (lookup_alloc_new (h ++ [a]) a)))).
  destruct (for_each_increment_outside (h2 ++ [zeros]) (length h2) a zeros)
    as [h' Hraise].
  - apply lookup_alloc_new.
  - destruct Hbad as (o & Ho & Hout). exists o. split; [done|].
    unfold zeros. rewrite length_replicate. lia.
  - rewrite run_bind, Hraise. by exists h'.
Qed.

Lemma label_outside_raises_at_entry_witness :
  ∃ h', voter_model 2 3 10 0 5 5 (Some 0) None (default_rng 1) [[0; 7; 1]%Z]
        = (h', Raise IndexError).
Proof.
  apply (label_outside_raises_at_entry 2 3 10 0 5 5 0 (default_rng 1)
           [[0; 7; 1]%Z] [0; 7; 1]%Z); [lia|reflexivity|].
  exists 7%Z. split; [|lia]. right. by left.
Defined.

(** * Further properties of the truncated logarithmic series *)

Section Log_series_shape.
Import LogSeries.
#[local] Open Scope R_scope.

(** The distribution that comes back, point by point *)
Lemma logseries_pmf_values (theta : R) (max_integer : Z) :
  0 < theta < 1 →
  ∃ d, logseries_distribution theta max_integer = Ok d ∧
       ∀ k, pmf d k
            = if decide (1 ≤ k ≤ max_integer)%Z
              then weight theta k
                   / Rsum (map (weight theta) (seqZ 1 max_integer))
              else 0.
Proof.
  intros Ht. unfold logseries_distribution.
  destruct (Rlt_dec 0 theta) as [_|Hn]; [|lra].
  destruct (Rlt_dec theta 1) as [_|Hn]; [|lra].
  eexists. split; [done|]. intros k. unfold pmf. simpl. rewrite map_map.
  rewrite (table_lookup_map
             (λ j, weight theta j / Rsum (map (weight theta) (seqZ 1 max_integer)))).
  destruct (decide (k ∈ seqZ 1 max_integer)) as [Hin|Hn];
    destruct (decide (1 ≤ k ≤ max_integer)%Z) as [Hk|Hk]; try done.
  - apply elem_of_seqZ in Hin. lia.
  - exfalso. apply Hn. apply elem_of_seqZ. lia.
Qed.

Lemma Rsum_ge_term (f : Z → R) (l : list Z) (k : Z) :
  (∀ x, x ∈ l → 0 <= f x) → k ∈ l → f k <= Rsum (map f l).
Proof.
  induction l as [|x l IH]; intros Hpos Hk; [by apply elem_of_nil in Hk|].
  simpl.
  assert (0 <= Rsum (map f l)) as Hrest.
  { clear IH Hk. induction l as [|y l IHl]; simpl; [lra|].
    assert (0 <= f y) by (apply Hpos; right; by left).
    assert (0 <= Rsum (map f l)).
    { apply IHl. intros z Hz. apply Hpos.
      apply elem_of_cons in Hz as [->|Hz]; [by left|right; by right]. }
    lra. }
  assert (0 <= f x) by (apply Hpos; by left).
  apply elem_of_cons in Hk as [->|Hk]; [lra|].
  assert (f k <= Rsum (map f l)); [|lra].
  apply IH; [|done]. intros z Hz. apply Hpos. by right.
Qed.

Lemma weight_total_pos theta max_integer :
  0 < theta < 1 → (1 ≤ max_integer)%Z →
  0 < Rsum (map (weight theta) (seqZ 1 max_integer)).
Proof.
  intros Ht Hm. apply Rsum_pos.
  - rewrite seqZ_cons by lia. done.
  - intros k Hk. apply weight_pos; [done|]. apply elem_of_seqZ in Hk. lia.
Qed.

Lemma div_lt_one x y : 0 < y → x < y → x / y < 1.
Proof.
  intros Hy Hxy. apply (Rmult_lt_reg_r y); [done|].
  unfold Rdiv. rewrite Rmult_assoc, Rinv_l, Rmult_1_r by lra. lra.
Qed.

Lemma div_le_one x y : 0 < y → x <= y → x / y <= 1.
Proof.
  intros Hy Hxy. apply (Rmult_le_reg_r y); [done|].
  unfold Rdiv. rewrite Rmult_assoc, Rinv_l, Rmult_1_r by lra. lra.
Qed.

Lemma weight_next theta k :
  0 < theta < 1 → (1 ≤ k)%Z →
  weight theta (k + 1) = weight theta k * (theta * IZR k / IZR (k + 1)).
Proof.
  intros Ht Hk. rewrite !weight_series by (done || lia).
  replace (Z.to_nat (k + 1)) with (Datatypes.S (Z.to_nat k)) by lia.
  pose proof (ln_one_minus_neg theta Ht) as Hln.
  assert (0 < IZR k) by (apply IZR_lt; lia).
  assert (0 < IZR (k + 1)) by (apply IZR_lt; lia).
  simpl. field. lra.
Qed.

End Log_series_shape.





(** * What the tallies hold *)

Section Tally_contents.

Lemma count_label_cons o x a :
  count_label o (x :: a)
  = ((if decide (x = o) then 1 else 0) + count_label o a)%Z.
Proof.
  unfold count_label. rewrite filter_cons.
  destruct (decide (x = o)); simpl; lia.
Qed.

Lemma count_label_nonneg o a : (0 ≤ count_label o a)%Z.
Proof. unfold count_label. lia. Qed.

Lemma count_label_pos o a : (0 < count_label o a)%Z ↔ o ∈ a.
Proof.
  induction a as [|x a IH].
  - unfold count_label. simpl. rewrite elem_of_nil. lia.
  - rewrite count_label_cons, elem_of_cons.
    pose proof (count_label_nonneg o a).
    destruct (decide (x = o)) as [->|Hne].
    + split; [by left|lia].
    + rewrite Z.add_0_l, IH. split; [by right|]. intros [->|?]; done.
Qed.

Lemma tally_lookup (a arr : list Z) (i : nat) :
  Forall (λ o, (0 ≤ o < Z.of_nat (length arr))%Z) a → i < length arr →
  tally a arr !! i
  = Some (default 0%Z (arr !! i) + count_label (Z.of_nat i) a)%Z.
Proof.
  unfold tally. revert arr. induction a as [|o a IH]; intros arr Ha Hi; simpl.
  - destruct (lookup_lt_is_Some_2 arr i Hi) as [v ->]. simpl.
    unfold count_label. simpl. f_equal. lia.
  - apply list.Forall_cons in Ha as [Ho Ha].
    rewrite IH; [|by rewrite length_insert|by rewrite length_insert].
    rewrite count_label_cons. f_equal.
    destruct (decide (o = Z.of_nat i)) as [->|Hne].
    + rewrite Nat2Z.id, list_lookup_insert_eq by done. simpl. lia.
    + rewrite list_lookup_insert_ne by lia. lia.
Qed.

Lemma label_counts_lookup S a (i : nat) :
  (Z.of_nat i < S)%Z →
  label_counts S a !! i = Some (count_label (Z.of_nat i) a).
Proof.
  intros Hi. unfold label_counts. rewrite list_lookup_fmap.
  rewrite lookup_seqZ_lt by lia. simpl. by rewrite Z.add_0_l.
Qed.

Lemma label_counts_length S a : length (label_counts S a) = Z.to_nat S.
Proof. unfold label_counts. by rewrite length_fmap, length_seqZ. Qed.

(** Lines 59-62 compute the count of every label. *)
Lemma tally_label_counts S (a : list Z) :
  Forall (in_range S) a →
  tally a (replicate (Z.to_nat S) 0%Z) = label_counts S a.
Proof.
  intros Ha.
  assert (Forall (λ o, (0 ≤ o < Z.of_nat (length (replicate (Z.to_nat S) 0%Z)))%Z) a)
    as Ha'.
  { rewrite length_replicate. eapply Forall_impl; [|exact Ha].
    unfold in_range. simpl. intros. lia. }
  destruct (tally_spec a _ Ha' ltac:(by apply Forall_replicate)) as (Hlen & _ & _).
  rewrite length_replicate in Hlen.
  apply list_eq. intros i.
  destruct (decide (i < Z.to_nat S)) as [Hi|Hi].
  - rewrite tally_lookup by (done || by rewrite length_replicate).
    rewrite lookup_replicate_2 by done. simpl.
    rewrite label_counts_lookup by lia. f_equal; lia.
  - rewrite !lookup_ge_None_2; [done| |]; [rewrite label_counts_length|]; lia.
Qed.

Lemma counter_get_add o key c :
  counter_get o (counter_add key c)
  = (counter_get o c + (if decide (key = o) then 1 else 0))%Z.
Proof.
  induction c as [|[k0 v0] c IH]; simpl.
  - destruct (Z.eqb_spec key o), (decide (key = o)); (done || lia).
  - destruct (Z.eqb_spec k0 key) as [->|Hne]; simpl.
    + destruct (Z.eqb_spec key o), (decide (key = o)); (done || lia).
    + destruct (Z.eqb_spec k0 o) as [->|Hne']; [|done].
      destruct (decide (key = o)); [done|lia].
Qed.

(** A [Counter] holds, for each label, its number of occurrences. *)
Lemma counter_get_Counter o a : counter_get o (Counter a) = count_label o a.
Proof.
  unfold Counter.
  assert (∀ c0, counter_get o (foldl (λ c x, counter_add x c) c0 a)
                = (counter_get o c0 + count_label o a)%Z) as Hgen.
  { induction a as [|x a IH]; intros c0; simpl.
    - unfold count_label. simpl. lia.
    - rewrite IH, counter_get_add, count_label_cons. lia. }
  rewrite Hgen. simpl. lia.
Qed.

Lemma counter_get_missing o (c : list (Z * Z)) :
  o ∉ c.*1 → counter_get o c = 0%Z.
Proof.
  induction c as [|[k0 v0] c IH]; csimpl; [done|].
  intros Hn. apply not_elem_of_cons in Hn as [Hne Hn].
  destruct (k0 =? o)%Z eqn:E; [apply Z.eqb_eq in E; done|by apply IH].
Qed.

Lemma scatter_lookup (counts : list (Z * Z)) (arr : list Z) (i : nat) :
  NoDup counts.*1 →
  Forall (λ kv, (0 ≤ kv.1)%Z) counts → i < length arr →
  scatter counts arr !! i
  = Some (if decide (Z.of_nat i ∈ counts.*1)
          then counter_get (Z.of_nat i) counts
          else default 0%Z (arr !! i)).
Proof.
  unfold scatter. revert arr.
  induction counts as [|[key val] counts IH]; intros arr Hnd Hk Hi; csimpl.
  - destruct (lookup_lt_is_Some_2 arr i Hi) as [v ->]. simpl.
    destruct (decide (Z.of_nat i ∈ [])) as [Hin|_]; [by apply elem_of_nil in Hin|done].
  - apply list.NoDup_cons in Hnd as [Hkey Hnd].
    apply list.Forall_cons in Hk as [Hk0 Hk]. simpl in Hk0.
    rewrite IH; [|done|done|by rewrite length_insert]. f_equal.
    destruct (key =? Z.of_nat i)%Z eqn:E.
    + apply Z.eqb_eq in E. subst key.
      destruct (decide (Z.of_nat i ∈ counts.*1)) as [Hin|_]; [done|].
      destruct (decide (Z.of_nat i ∈ Z.of_nat i :: counts.*1)) as [_|Hn].
      * by rewrite Nat2Z.id, list_lookup_insert_eq.
      * exfalso. apply Hn. by left.
    + apply Z.eqb_neq in E.
      destruct (decide (Z.of_nat i ∈ counts.*1)) as [Hin|Hn];
        destruct (decide (Z.of_nat i ∈ key :: counts.*1)) as [Hin'|Hn']; try done.
      * exfalso. apply Hn'. by right.
      * apply elem_of_cons in Hin' as [?|?]; done.
      * rewrite list_lookup_insert_ne by lia. done.
Qed.

(** Lines 104-107 compute the count of every label. *)
Lemma snapshot_label_counts S (a : list Z) :
  (0 ≤ S)%Z → Forall (in_range S) a →
  scatter (Counter a) (replicate (Z.to_nat S) 0%Z) = label_counts S a.
Proof.
  intros HS Ha.
  destruct (Counter_spec a) as (Hnd & Hkeys & Hvals & _).
  assert (Forall (λ kv : Z * Z, (0 ≤ kv.1)%Z) (Counter a)) as Hk0.
  { apply list.Forall_forall. intros [key val] Hin. simpl.
    assert (key ∈ a) as Hka.
    { apply Hkeys. apply list_elem_of_fmap. by exists (key, val). }
    eapply list.Forall_forall in Ha; [|exact Hka]. unfold in_range in Ha. lia. }
  destruct (snapshot_counts_valid S (Z.of_nat (length a)) a HS
              ltac:(lia) ltac:(lia) Ha) as (Hlen & _ & _).
  apply list_eq. intros i.
  destruct (decide (i < Z.to_nat S)) as [Hi|Hi].
  - rewrite scatter_lookup by (done || by rewrite length_replicate).
    rewrite label_counts_lookup by lia.
    rewrite lookup_replicate_2 by done. simpl. f_equal.
    destruct (decide (Z.of_nat i ∈ (Counter a).*1)) as [_|Hn].
    + apply counter_get_Counter.
    + rewrite <- counter_get_Counter. symmetry. by apply counter_get_missing.
  - rewrite !lookup_ge_None_2; [done| |]; [rewrite label_counts_length|]; lia.
Qed.

End Tally_contents.

Lemma count_positive_fmap {A} (f : A → Z) (l : list A) :
  count_positive (f <$> l)
  = Z.of_nat (length (filter (λ x, (0 < f x)%Z) l)).
Proof.
  unfold count_positive. f_equal.
  induction l as [|x l IH]; [done|]. csimpl.
  rewrite !filter_cons. destruct (decide (0 < f x)%Z); simpl; by rewrite IH.
Qed.

(** The number of positive entries of the tally is the number of distinct
    labels. *)
Lemma count_positive_label_counts S (a : list Z) :
  Forall (in_range S) a →
  count_positive (label_counts S a) = Z.of_nat (length (np_unique a)).
Proof.
  intros Ha. unfold label_counts. rewrite count_positive_fmap. f_equal.
  apply Permutation_length, NoDup_Permutation.
  - apply list.NoDup_filter, NoDup_seqZ.
  - apply np_unique_NoDup.
  - intros x. rewrite list_elem_of_filter, elem_of_seqZ, count_label_pos,
      np_unique_elem.
    split; [tauto|]. intros Hx. split; [done|].
    eapply list.Forall_forall in Ha; [|exact Hx]. unfold in_range in Ha. lia.
Qed.

Lemma label_counts_valid S J (a : list Z) :
  (0 ≤ S)%Z → (0 ≤ J)%Z → length a = Z.to_nat J → Forall (in_range S) a →
  valid_counts S J (label_counts S a).
Proof.
  intros HS HJ Hlen Ha. rewrite <- snapshot_label_counts by done.
  by apply snapshot_counts_valid.
Qed.

(** * What each checkpoint records *)

Section Checkpoints.
Context {G : Type} `{GeneratorContract G}.
Variables (S J : Z) (nu : Q) (log_steps log_steps_count : list Z).
Hypothesis S_pos : (1 ≤ S)%Z.
Hypothesis J_pos : (1 ≤ J)%Z.

#[local] Abbreviation L := (Z.of_nat (length log_steps)).
#[local] Abbreviation Lc := (Z.of_nat (length log_steps_count)).

Lemma divide_generation_time t : divide t J = Ok (generation_time J t).
Proof. unfold divide. destruct (J =? 0)%Z eqn:E; [lia|done]. Qed.

Lemma not_pending_get (sched : list Z) idx t s :
  (1 ≤ idx)%Z → ¬ pending sched idx t →
  (idx < Z.of_nat (length sched))%Z → np_get sched (idx - 1) = Ok s → s ≠ t.
Proof.
  intros Hidx Hnp Hlt Hget ->. apply Hnp. split; [done|].
  destruct (np_get_in_bounds sched (idx - 1)) as (s' & Hs' & Hl); [lia|].
  congruence.
Qed.

(** Off a richness checkpoint lines 94-100 do nothing. *)
Lemma record_richness_skip t (f : @frame G) h :
  (1 ≤ k f)%Z → ¬ pending log_steps (k f) t →
  record_richness J nu log_steps t f h = (h, Ok (Continue f)).
Proof.
  intros Hk Hnp. unfold record_richness.
  destruct (k f <? L)%Z eqn:Ek; [|done]. apply Z.ltb_lt in Ek.
  destruct (np_get_in_bounds log_steps (k f - 1)) as (s & Hs & _); [lia|].
  rewrite run_bind. unfold lift at 1. rewrite Hs.
  pose proof (not_pending_get _ _ _ _ Hk Hnp Ek Hs) as Hne.
  destruct (t =? s)%Z eqn:Et; [|done]. apply Z.eqb_eq in Et. done.
Qed.

(** At a richness checkpoint lines 94-100 write the number of distinct
    labels and the generation time in slot [k], then stop the run or move
    to the next slot. *)
Lemma record_richness_hit t (f : @frame G) h a :
  frame_ok S J L Lc f → h !! opinions f = Some a →
  pending log_steps (k f) t →
  let r := Z.of_nat (length (np_unique a)) in
  let richness1 := <[Z.to_nat (k f) := r]> (richness f) in
  let time1 := <[Z.to_nat (k f) := generation_time J t]> (time f) in
  record_richness J nu log_steps t f h
  = (h, Ok (if Qeq_bool nu 0 && (r =? 1)%Z
            then Return (Outputs (opinion_counts_store f)
                                 (take (Z.to_nat (k f + 1)) richness1)
                                 (take (Z.to_nat (k f + 1)) time1)
                                 (take (Z.to_nat (k_c f)) (time_c f)))
            else Continue (Frame (opinions f) (opinion_counts f) richness1
                                 (opinion_counts_store f) time1 (time_c f)
                                 (k f + 1) (k_c f) (rng f)))).
Proof.
  intros Hf Hops [Hk Ht] r richness1 time1.
  pose proof Hf as ((Hk1 & Hk2) & (Hc1 & Hc2) & Htl & Hrs & _ & _).
  destruct Hrs as (written & Hwl & Hwp & [Hr|[HkL _]]); [|lia].
  assert (length (richness f) = Z.to_nat (L + 1)) as Hrl.
  { rewrite Hr, length_app, length_replicate. lia. }
  unfold record_richness.
  destruct (k f <? L)%Z eqn:E; [|apply Z.ltb_ge in E; lia].
  rewrite run_bind. unfold lift at 1.
  rewrite (np_get_nonneg log_steps (k f - 1) t) by (lia || done).
  rewrite Z.eqb_refl.
  rewrite (run_bind_ok _ _ _ _ _ (run_load _ _ _ Hops)).
  rewrite run_bind. unfold lift at 1. rewrite np_set_nonneg by lia.
  rewrite run_bind. unfold lift at 1. rewrite divide_generation_time.
  rewrite run_bind. unfold lift at 1. rewrite np_set_nonneg by lia.
  rewrite run_bind. unfold lift at 1.
  rewrite (np_get_nonneg _ (k f) r)
    by (lia || (apply list_lookup_insert_eq; lia)).
  fold r richness1 time1.
  destruct (Qeq_bool nu 0 && (r =? 1)%Z); [|done].
  rewrite !np_slice_to_nonneg by lia. done.
Qed.

(** Off an abundance checkpoint lines 103-110 do nothing. *)
Lemma record_counts_skip t (f : @frame G) h :
  (1 ≤ k_c f)%Z → ¬ pending log_steps_count (k_c f) t →
  record_counts S J log_steps_count t f h = (h, Ok f).
Proof.
  intros Hk Hnp. unfold record_counts.
  destruct (k_c f <? Lc)%Z eqn:Ek; [|done]. apply Z.ltb_lt in Ek.
  destruct (np_get_in_bounds log_steps_count (k_c f - 1)) as (s & Hs & _); [lia|].
  rewrite run_bind. unfold lift at 1. rewrite Hs.
  pose proof (not_pending_get _ _ _ _ Hk Hnp Ek Hs) as Hne.
  destruct (t =? s)%Z eqn:Et; [|done]. apply Z.eqb_eq in Et. done.
Qed.

(** At an abundance checkpoint lines 103-110 build a new count vector,
    the count of every label, and write it and the generation time in
    slot [k_c]. *)
Lemma record_counts_hit t (f : @frame G) h a :
  frame_ok S J L Lc f → h !! opinions f = Some a → Forall (in_range S) a →
  pending log_steps_count (k_c f) t →
  record_counts S J log_steps_count t f h
  = (h ++ [label_counts S a],
     Ok (Frame (opinions f) (length h) (richness f)
               (<[Z.to_nat (k_c f) := label_counts S a]> (opinion_counts_store f))
               (time f)
               (<[Z.to_nat (k_c f) := generation_time J t]> (time_c f))
               (k f) (k_c f + 1) (rng f))).
Proof.
  intros Hf Hops Ha [Hk Ht].
  pose proof Hf as (_ & (Hc1 & Hc2) & _ & _ & (Htabl & _) & (Htcl & _)).
  unfold record_counts.
  destruct (k_c f <? Lc)%Z eqn:E; [|apply Z.ltb_ge in E; lia].
  rewrite run_bind. unfold lift at 1.
  rewrite (np_get_nonneg log_steps_count (k_c f - 1) t) by (lia || done).
  rewrite Z.eqb_refl.
  rewrite (run_bind_ok _ _ _ _ _ (run_load _ _ _ Hops)).
  rewrite run_bind. unfold lift at 1. rewrite np_zeros_nonneg by lia.
  rewrite run_bind. unfold alloc at 1.
  set (zeros := replicate (Z.to_nat S) 0%Z).
  rewrite (run_bind_ok _ _ _ (h ++ [label_counts S a]) tt).
  2:{ rewrite (run_for_each_scatter _ _ _ zeros).
      - rewrite insert_alloc_new. unfold zeros.
        rewrite snapshot_label_counts by (lia || done). done.
      - apply lookup_alloc_new.
      - destruct (Counter_spec a) as (_ & Hkeys & _ & _).
        apply list.Forall_forall. intros [key val] Hin. simpl.
        unfold zeros. rewrite length_replicate.
        assert (key ∈ a) as Hka.
        { apply Hkeys. apply list_elem_of_fmap. by exists (key, val). }
        eapply list.Forall_forall in Ha; [|exact Hka]. unfold in_range in Ha. lia. }
  rewrite (run_bind_ok _ _ _ _ _
             (run_load _ _ _ (lookup_alloc_new h (label_counts S a)))).
  rewrite run_bind. unfold lift at 1. unfold np_set_column.
  rewrite np_index_nonneg by lia. simpl rbind.
  rewrite label_counts_length.
  destruct (Z.of_nat (Z.to_nat S) =? S)%Z eqn:El; [|apply Z.eqb_neq in El; lia].
  rewrite run_bind. unfold lift at 1. rewrite divide_generation_time.
  rewrite run_bind. unfold lift at 1. rewrite np_set_nonneg by lia.
  done.
Qed.

(** Lines 113-115 leave the local variables as they are or drop the last
    slot of [richness] and [time], when that slot of [richness] is 0. *)
Lemma trim_trailing_effect (f f' : @frame G) h h' :
  trim_trailing log_steps f h = (h', Ok f') →
  f' = f ∨
  (k f = L ∧ np_get (richness f) (-1) = Ok 0%Z ∧
   f' = Frame (opinions f) (opinion_counts f) (np_slice_to (richness f) (-1))
              (opinion_counts_store f) (np_slice_to (time f) (-1)) (time_c f)
              (k f) (k_c f) (rng f)).
Proof.
  unfold trim_trailing. destruct (k f =? L)%Z eqn:Ek.
  2:{ intros [= _ <-]. by left. }
  apply Z.eqb_eq in Ek. rewrite run_bind. unfold lift at 1.
  destruct (np_get (richness f) (-1)) as [r|e] eqn:Er; [|done].
  destruct (r =? 0)%Z eqn:E0.
  - apply Z.eqb_eq in E0 as ->. intros [= _ <-]. by right.
  - intros [= _ <-]. by left.
Qed.

End Checkpoints.

(** * What a run records, step by step *)

Section Trace.
Context {G : Type} `{GeneratorContract G}.
Variables (S J : Z) (nu : Q) (log_steps log_steps_count : list Z).
Variables (r0 : Z) (c0 : list Z).
Hypothesis S_pos : (1 ≤ S)%Z.
Hypothesis J_pos : (1 ≤ J)%Z.
Hypothesis log_steps_sorted : StronglySorted Z.lt log_steps.
Hypothesis log_steps_count_sorted : StronglySorted Z.lt log_steps_count.

#[local] Abbreviation L := (Z.of_nat (length log_steps)).
#[local] Abbreviation Lc := (Z.of_nat (length log_steps_count)).
#[local] Abbreviation trace := (trace_ok J log_steps log_steps_count r0 c0).

Lemma sorted_lookup_lt (s : list Z) (i j : nat) x y :
  StronglySorted Z.lt s → s !! i = Some x → s !! j = Some y → i < j →
  (x < y)%Z.
Proof.
  intros Hs. revert i j. induction Hs as [|z s Hs IH Hz]; intros i j Hi Hj Hij.
  { by rewrite lookup_nil in Hi. }
  destruct j as [|j]; [lia|]. simpl in Hj. destruct i as [|i]; simpl in Hi.
  - injection Hi as ->. eapply list.Forall_forall in Hz; [exact Hz|].
    by eapply list_elem_of_lookup_2.
  - eapply IH; [exact Hi|exact Hj|lia].
Qed.

Lemma times_recorded_hit (sched : list Z) idx t (times : list Q) :
  (1 ≤ idx)%Z → Z.to_nat idx < length times →
  sched !! Z.to_nat (idx - 1) = Some t →
  times_recorded J sched idx times →
  times_recorded J sched (idx + 1)
                 (<[Z.to_nat idx := generation_time J t]> times).
Proof.
  unfold times_recorded. intros Hidx Hlen Ht Hrec.
  replace (Z.to_nat (idx + 1)) with (Datatypes.S (Z.to_nat idx)) by lia.
  rewrite (take_S_r _ _ (generation_time J t))
    by (by apply list_lookup_insert_eq).
  rewrite take_insert_ge by lia. rewrite Hrec.
  replace (Z.to_nat (idx + 1 - 1)) with (Datatypes.S (Z.to_nat (idx - 1))) by lia.
  rewrite (take_S_r _ _ t) by done.
  by rewrite fmap_app.
Qed.

Lemma times_recorded_first (sched : list Z) idx (times : list Q) :
  (1 ≤ idx)%Z → times_recorded J sched idx times → times !! 0 = Some 0%Q.
Proof.
  unfold times_recorded. intros Hidx Hrec.
  rewrite <- (lookup_take_lt times (Z.to_nat idx) 0) by lia. by rewrite Hrec.
Qed.

Lemma not_passed_hit (sched : list Z) idx t :
  StronglySorted Z.lt sched → (1 ≤ idx)%Z →
  pending sched idx t → not_passed sched (idx + 1) (t + 1).
Proof.
  intros Hs Hidx [Hlt Ht] Hlt'.
  destruct (lookup_lt_is_Some_2 sched (Z.to_nat (idx + 1 - 1))) as [s Hs']; [lia|].
  exists s. split; [done|].
  pose proof (sorted_lookup_lt sched _ _ _ _ Hs Ht Hs' ltac:(lia)). lia.
Qed.

Lemma not_passed_skip (sched : list Z) idx t :
  ¬ pending sched idx t → not_passed sched idx t → not_passed sched idx (t + 1).
Proof.
  intros Hnp Hpass Hlt. destruct (Hpass Hlt) as (s & Hs & Hle).
  exists s. split; [done|].
  destruct (decide (s = t)) as [->|Hne]; [|lia].
  exfalso. apply Hnp. by split.
Qed.

(** The richness checkpoint of step [t] *)
Lemma richness_phase t tc (f : @frame G) h a h' c :
  frame_ok S J L Lc f → h !! opinions f = Some a →
  trace t tc f →
  record_richness J nu log_steps t f h = (h', Ok c) →
  match c with
  | Continue f1 => trace (t + 1) tc f1
  | Return o => initial_slot r0 c0 o
  end.
Proof.
  intros Hf Hops (Htr & Htcr & Hp & Hpc & Hr0 & Hc0).
  pose proof Hf as ((Hk1 & Hk2) & (Hc1 & Hc2) & Htl & Hrs & _ & _).
  destruct (decide (pending log_steps (k f) t)) as [Hpend|Hnp].
  - rewrite (record_richness_hit S J nu log_steps log_steps_count
               J_pos t f h a Hf Hops Hpend).
    pose proof Hpend as [Hlt Ht].
    destruct Hrs as (written & Hwl & Hwp & [Hr|[HkL _]]); [|lia].
    assert (Z.to_nat (k f) < length (richness f)) as Hrl.
    { rewrite Hr, length_app, length_replicate. lia. }
    destruct (Qeq_bool nu 0 && _); intros [= _ <-].
    + split; [|split; [done|split]]; simpl.
      * rewrite lookup_take_lt by lia. by rewrite list_lookup_insert_ne by lia.
      * rewrite lookup_take_lt by lia. rewrite list_lookup_insert_ne by lia.
        apply (times_recorded_first log_steps (k f)); [lia|done].
      * unfold times_recorded in Htcr. by rewrite Htcr.
    + split; [|split; [done|split; [|split; [done|split; [|done]]]]]; simpl.
      * apply times_recorded_hit; [lia|lia|done|done].
      * by apply not_passed_hit.
      * by rewrite list_lookup_insert_ne by lia.
  - rewrite (record_richness_skip J nu log_steps t f h Hk1 Hnp).
    intros [= _ <-]. split; [done|]. split; [done|].
    split; [by apply not_passed_skip|done].
Qed.

(** The abundance checkpoint of step [t] *)
Lemma counts_phase t tr (f f' : @frame G) h a h' :
  frame_ok S J L Lc f → h !! opinions f = Some a → Forall (in_range S) a →
  trace tr t f →
  record_counts S J log_steps_count t f h = (h', Ok f') →
  trace tr (t + 1) f'.
Proof.
  intros Hf Hops Ha (Htr & Htcr & Hp & Hpc & Hr0 & Hc0).
  pose proof Hf as (_ & (Hc1 & Hc2) & _ & _ & (Htabl & _) & (Htcl & _)).
  destruct (decide (pending log_steps_count (k_c f) t)) as [Hpend|Hnp].
  - rewrite (record_counts_hit S J log_steps log_steps_count S_pos J_pos
               t f h a Hf Hops Ha Hpend).
    pose proof Hpend as [Hlt Ht]. intros [= _ <-].
    split; [done|]. split; [|split; [done|split; [|split; [done|]]]]; simpl.
    + apply times_recorded_hit; [lia|lia|done|done].
    + by apply not_passed_hit.
    + by rewrite list_lookup_insert_ne by lia.
  - rewrite (record_counts_skip S J log_steps_count t f h Hc1 Hnp).
    intros [= _ <-]. split; [done|]. split; [done|]. split; [done|].
    split; [by apply not_passed_skip|done].
Qed.

(** Dropping the trailing slot loses nothing that was recorded. *)
Lemma trim_phase t tc (f f' : @frame G) h h' :
  frame_ok S J L Lc f → trace t tc f →
  trim_trailing log_steps f h = (h', Ok f') → trace t tc f'.
Proof.
  intros Hf Htrace Htrim.
  apply trim_trailing_effect in Htrim as [->|(HkL & Hlast & ->)]; [done|].
  destruct Htrace as (Htr & Htcr & Hp & Hpc & Hr0 & Hc0).
  pose proof Hf as ((Hk1 & Hk2) & _ & Htl & Hrs & _ & _).
  destruct Hrs as (written & Hwl & Hwp & [Hr|[_ Hr]]).
  - replace (Z.to_nat (L + 1 - k f)) with 1 in Hr by lia. simpl in Hr.
    assert (np_slice_to (time f) (-1) = take (Z.to_nat (k f)) (time f)) as Htime.
    { unfold np_slice_to. simpl. f_equal.
      rewrite Htl, Hr, length_app. simpl. lia. }
    split; [|split; [done|split; [done|split; [done|split; [|done]]]]]; simpl.
    + unfold times_recorded in *. rewrite Htime, take_take.
      by replace (Z.to_nat (k f) `min` Z.to_nat (k f)) with (Z.to_nat (k f)) by lia.
    + rewrite Hr, np_slice_to_last. rewrite Hr in Hr0.
      rewrite lookup_app_l in Hr0 by lia. done.
  - exfalso. destruct (exists_last (l := written)) as (w' & x & Hw).
    { intros ->. simpl in Hwl. lia. }
    rewrite Hr, Hw, np_get_last in Hlast. injection Hlast as ->.
    rewrite Hw in Hwp. apply Forall_app in Hwp as [_ Hx].
    apply list.Forall_cons in Hx as [Hx _]. lia.
Qed.

(** One iteration of the loop *)
Lemma loop_body_trace t (f : @frame G) h h' c :
  frame_ok S J L Lc f → population S J (opinions f) h →
  trace t t f →
  loop_body S J nu log_steps log_steps_count t f h = (h', Ok c) →
  match c with
  | Continue f' => trace (t + 1) (t + 1) f'
  | Return o => initial_slot r0 c0 o
  end.
Proof.
  intros Hf Hpop Htrace. unfold loop_body.
  destruct (update_step_ok S J nu (opinions f) (rng f) h S_pos J_pos Hpop)
    as (a' & g' & Hup & Hlen' & Ha').
  rewrite (run_bind_ok _ _ _ _ _ Hup).
  set (f0 := Frame _ _ _ _ _ _ _ _ g').
  set (h1 := <[opinions f := a']> h).
  assert (frame_ok S J L Lc f0) as Hf0 by exact Hf.
  assert (trace t t f0) as Htrace0 by exact Htrace.
  assert (h1 !! opinions f0 = Some a') as Hops1.
  { destruct Hpop as (a & Hops & _).
    apply list_lookup_insert_eq. by eapply lookup_lt_Some. }
  assert (population S J (opinions f0) h1) as Hpop1 by (by exists a').
  destruct (record_richness_ok S J nu log_steps log_steps_count J_pos
              t f0 h1 Hf0 Hpop1) as (c1 & Hrr & Hc1).
  pose proof (richness_phase t t f0 h1 a' h1 c1 Hf0 Hops1 Htrace0 Hrr) as Hph1.
  rewrite (run_bind_ok _ _ _ _ _ Hrr).
  destruct c1 as [f1|o1].
  2:{ intros [= _ <-]. done. }
  destruct Hc1 as [Hf1 Ho1].
  assert (h1 !! opinions f1 = Some a') as Hops1' by (by rewrite Ho1).
  assert (population S J (opinions f1) h1) as Hpop1' by (by exists a').
  destruct (record_counts_ok S J log_steps log_steps_count S_pos J_pos
              t f1 h1 Hf1 Hpop1') as (f2 & h2 & Hrc & Hf2 & Ho2 & _ & Hpop2).
  pose proof (counts_phase t (t + 1) f1 f2 h1 a' h2 Hf1 Hops1' Ha' Hph1 Hrc)
    as Hph2.
  rewrite (run_bind_ok _ _ _ _ _ Hrc).
  destruct (trim_trailing_ok S J log_steps log_steps_count f2 h2 Hf2)
    as (f3 & Htt & Hf3 & _ & _).
  pose proof (trim_phase (t + 1) (t + 1) f2 f3 h2 h2 Hf2 Hph2 Htt) as Hph3.
  rewrite (run_bind_ok _ _ _ _ _ Htt).
  intros [= _ <-]. done.
Qed.

(** Any number of consecutive iterations *)
Lemma run_steps_trace (n : nat) t (f : @frame G) h h' c :
  frame_ok S J L Lc f → population S J (opinions f) h →
  trace t t f →
  run_steps S J nu log_steps log_steps_count (seqZ t (Z.of_nat n)) f h
  = (h', Ok c) →
  match c with
  | Continue f' => trace (t + Z.of_nat n) (t + Z.of_nat n) f'
  | Return o => initial_slot r0 c0 o
  end.
Proof.
  revert t f h. induction n as [|n IH]; intros t f h Hf Hpop Htrace.
  - simpl. intros [= _ <-]. by rewrite Z.add_0_r.
  - rewrite seqZ_cons by lia. simpl.
    destruct (loop_body_ok S J nu log_steps log_steps_count S_pos J_pos
                t f h Hf Hpop) as (h1 & c1 & Hlb & Hc1).
    pose proof (loop_body_trace t f h h1 c1 Hf Hpop Htrace Hlb) as Hstep.
    rewrite (run_bind_ok _ _ _ _ _ Hlb).
    destruct c1 as [f1|o1].
    2:{ intros [= _ <-]. done. }
    destruct Hc1 as (Hf1 & _ & _ & Hpop1).
    replace (Z.succ t) with (t + 1)%Z by lia.
    replace (Z.pred (Z.of_nat (Datatypes.S n))) with (Z.of_nat n) by lia.
    intros Hrun. specialize (IH (t + 1)%Z f1 h1 Hf1 Hpop1 Hstep Hrun).
    destruct c as [f'|o]; [|done].
    by replace (t + Z.of_nat (Datatypes.S n))%Z with (t + 1 + Z.of_nat n)%Z by lia.
Qed.

End Trace.

(** * The richness never exceeds the labels or the individuals *)

Lemma count_positive_le_length (l : list Z) :
  (0 ≤ count_positive l ≤ Z.of_nat (length l))%Z.
Proof.
  unfold count_positive.
  pose proof (length_filter (λ c, (0 < c)%Z) l). lia.
Qed.

Lemma count_positive_le_sum (l : list Z) :
  Forall (λ c, (0 ≤ c)%Z) l → (count_positive l ≤ Zsum l)%Z.
Proof.
  unfold count_positive, Zsum. induction 1 as [|x l Hx Hl IH]; [done|].
  rewrite filter_cons. simpl. destruct (decide (0 < x)%Z); simpl length; lia.
Qed.

Lemma count_positive_bound S J (cv : list Z) :
  (0 ≤ S)%Z → valid_counts S J cv → (0 ≤ count_positive cv ≤ Z.min S J)%Z.
Proof.
  intros HS (Hl & Hp & Hs).
  pose proof (count_positive_le_length cv).
  pose proof (count_positive_le_sum cv Hp). lia.
Qed.

Section Richness_bound.
Context {G : Type} `{GeneratorContract G}.
Variables (S J : Z) (nu : Q) (log_steps log_steps_count : list Z).
Hypothesis S_pos : (1 ≤ S)%Z.
Hypothesis J_pos : (1 ≤ J)%Z.

#[local] Abbreviation L' := (Z.of_nat (length log_steps)).
#[local] Abbreviation Lc' := (Z.of_nat (length log_steps_count)).
#[local] Abbreviation bounded := (Forall (λ r, (0 ≤ r ≤ Z.min S J)%Z)).

Lemma distinct_labels_bound (a : list Z) :
  length a = Z.to_nat J → Forall (in_range S) a →
  (0 ≤ Z.of_nat (length (np_unique a)) ≤ Z.min S J)%Z.
Proof.
  intros Hlen Ha.
  rewrite <- (count_positive_label_counts S a Ha).
  apply count_positive_bound; [lia|].
  apply label_counts_valid; [lia|lia|done|done].
Qed.

Lemma loop_body_bounded t (f : @frame G) h h' c :
  frame_ok S J L' Lc' f → population S J (opinions f) h →
  bounded (richness f) →
  loop_body S J nu log_steps log_steps_count t f h = (h', Ok c) →
  match c with
  | Continue f' => bounded (richness f')
  | Return o => bounded (out_richness o)
  end.
Proof.
  intros Hf Hpop Hb. unfold loop_body.
  destruct (update_step_ok S J nu (opinions f) (rng f) h S_pos J_pos Hpop)
    as (a' & g' & Hup & Hlen' & Ha').
  rewrite (run_bind_ok _ _ _ _ _ Hup).
  set (f0 := Frame _ _ _ _ _ _ _ _ g').
  set (h1 := <[opinions f := a']> h).
  assert (frame_ok S J L' Lc' f0) as Hf0 by exact Hf.
  assert (h1 !! opinions f0 = Some a') as Hops1.
  { destruct Hpop as (a & Hops & _).
    apply list_lookup_insert_eq. by eapply lookup_lt_Some. }
  assert (population S J (opinions f0) h1) as Hpop1 by (by exists a').
  pose proof (distinct_labels_bound a' Hlen' Ha') as Hr.
  destruct (record_richness_ok S J nu log_steps log_steps_count J_pos
              t f0 h1 Hf0 Hpop1) as (c1 & Hrr & Hc1).
  rewrite (run_bind_ok _ _ _ _ _ Hrr).
  assert (match c1 with
          | Continue f1 => bounded (richness f1)
          | Return o => bounded (out_richness o)
          end) as Hb1.
  { pose proof Hf0 as ((Hk1 & _) & _).
    destruct (decide (pending log_steps (k f0) t)) as [Hpend|Hnp].
    - rewrite (record_richness_hit S J nu log_steps log_steps_count
                 J_pos t f0 h1 a' Hf0 Hops1 Hpend) in Hrr.
      cbv zeta in Hrr.
      destruct (Qeq_bool nu 0 && (Z.of_nat (length (np_unique a')) =? 1)%Z);
        injection Hrr as <-; simpl.
      + apply Forall_take. by apply Forall_insert.
      + by apply Forall_insert.
    - rewrite (record_richness_skip J nu log_steps t f0 h1 Hk1 Hnp) in Hrr.
      by injection Hrr as <-. }
  destruct c1 as [f1|o1].
  2:{ intros [= _ <-]. done. }
  destruct Hc1 as [Hf1 Ho1].
  assert (h1 !! opinions f1 = Some a') as Hops1' by (by rewrite Ho1).
  assert (population S J (opinions f1) h1) as Hpop1' by (by exists a').
  destruct (record_counts_ok S J log_steps log_steps_count S_pos J_pos
              t f1 h1 Hf1 Hpop1') as (f2 & h2 & Hrc & Hf2 & Ho2 & _ & Hpop2).
  rewrite (run_bind_ok _ _ _ _ _ Hrc).
  assert (bounded (richness f2)) as Hb2.
  { pose proof Hf1 as (_ & (Hc1 & _) & _).
    destruct (decide (pending log_steps_count (k_c f1) t)) as [Hpend|Hnp].
    - rewrite (record_counts_hit S J log_steps log_steps_count S_pos J_pos
                 t f1 h1 a' Hf1 Hops1' Ha' Hpend) in Hrc.
      by injection Hrc as _ <-.
    - rewrite (record_counts_skip S J log_steps_count t f1 h1 Hc1 Hnp) in Hrc.
      by injection Hrc as _ <-. }
  destruct (trim_trailing_ok S J log_steps log_steps_count f2 h2 Hf2)
    as (f3 & Htt & Hf3 & _ & _).
  rewrite (run_bind_ok _ _ _ _ _ Htt).
  intros [= _ <-].
  apply trim_trailing_effect in Htt as [->|(_ & _ & ->)]; [done|].
  simpl. unfold np_slice_to. simpl. by apply Forall_take.
Qed.

Lemma run_steps_bounded ts (f : @frame G) h h' c :
  frame_ok S J L' Lc' f → population S J (opinions f) h →
  bounded (richness f) →
  run_steps S J nu log_steps log_steps_count ts f h = (h', Ok c) →
  match c with
  | Continue f' => bounded (richness f')
  | Return o => bounded (out_richness o)
  end.
Proof.
  revert f h. induction ts as [|t ts IH]; intros f h Hf Hpop Hb; simpl.
  - by intros [= _ <-].
  - destruct (loop_body_ok S J nu log_steps log_steps_count S_pos J_pos
                t f h Hf Hpop) as (h1 & c1 & Hlb & Hc1).
    pose proof (loop_body_bounded t f h h1 c1 Hf Hpop Hb Hlb) as Hstep.
    rewrite (run_bind_ok _ _ _ _ _ Hlb).
    destruct c1 as [f1|o1].
    2:{ by intros [= _ <-]. }
    destruct Hc1 as (Hf1 & _ & _ & Hpop1).
    by apply IH.
Qed.

End Richness_bound.

(** * What a whole run records *)

Section Whole_run.
Context {G : Type} `{GeneratorContract G}.
Variables (S J T : Z) (nu : Q).
Hypothesis S_pos : (1 ≤ S)%Z.
Hypothesis J_pos : (1 ≤ J)%Z.

Lemma init_opinions_supplied l (g : G) h a :
  h !! l = Some a →
  init_opinions S J (Some l) g h
  = ((h ++ [a]) ++ [a], Ok (length (h ++ [a]), g)).
Proof.
  intros Hl. unfold init_opinions.
  rewrite run_bind.
  rewrite (run_bind_ok _ _ _ _ _ (run_load _ _ _ Hl)).
  rewrite run_bind. unfold alloc at 1.
  unfold mret at 1, M_ret, ret.
  rewrite (run_bind_ok _ _ _ _ _ (run_load _ _ _ (lookup_alloc_new h a))).
  rewrite run_bind. unfold alloc at 1. done.
Qed.

Lemma init_counts_absent ops h a :
  h !! ops = Some a → Forall (in_range S) a →
  init_counts S ops None h = (h ++ [label_counts S a], Ok (length h)).
Proof.
  intros Hops Ha. unfold init_counts.
  rewrite run_bind. unfold lift at 1. rewrite np_zeros_nonneg by lia.
  rewrite run_bind. unfold alloc at 1.
  set (zeros := replicate (Z.to_nat S) 0%Z).
  rewrite (run_bind_ok _ _ _ _ _
             (run_load _ _ _ (lookup_alloc_old h zeros _ _ Hops))).
  assert (Forall (λ o, (0 ≤ o < Z.of_nat (length zeros))%Z) a) as Hin.
  { unfold zeros. rewrite length_replicate.
    eapply Forall_impl; [|exact Ha]. unfold in_range. simpl. intros. lia. }
  rewrite (run_bind_ok _ _ _ _ _
             (run_for_each_increment _ _ _ zeros (lookup_alloc_new h zeros) Hin)).
  rewrite insert_alloc_new. unfold zeros.
  by rewrite tally_label_counts.
Qed.

(** The state in which the loop starts *)
Lemma init_frame_trace log_steps log_steps_count ops oc (g : G) h cv :
  h !! oc = Some cv → valid_counts S J cv → population S J ops h →
  Forall (λ t, (1 ≤ t)%Z) log_steps → Forall (λ t, (1 ≤ t)%Z) log_steps_count →
  ∃ f, init_frame S log_steps log_steps_count ops oc g h = (h ++ [cv], Ok f) ∧
       frame_ok S J (Z.of_nat (length log_steps))
                (Z.of_nat (length log_steps_count)) f ∧
       opinions f = ops ∧
       trace_ok J log_steps log_steps_count (count_positive cv) cv 1 1 f ∧
       richness f
       = count_positive cv :: replicate (length log_steps) 0%Z.
Proof.
  intros Hoc Hcv Hpop Hls Hlsc.
  destruct (init_frame_ok S J S_pos J_pos log_steps log_steps_count
              ops oc g h cv Hoc Hcv Hpop) as (f & Hinit & Hf & Hops).
  exists f. split; [done|]. split; [done|]. split; [done|].
  destruct Hcv as (Hcl & Hcp & Hcs).
  revert Hinit. unfold init_frame.
  set (L := Z.of_nat (length log_steps)) in *.
  set (Lc := Z.of_nat (length log_steps_count)) in *.
  rewrite run_bind. unfold lift at 1. rewrite np_zeros_nonneg by lia.
  rewrite run_bind. unfold lift at 1. unfold np_zeros2.
  destruct ((S <? 0)%Z || (Lc + 1 <? 0)%Z) eqn:E.
  { apply orb_true_iff in E as [E|E]; apply Z.ltb_lt in E; lia. }
  rewrite run_bind. unfold lift at 1. unfold np_zeros_float.
  destruct (L + 1 <? 0)%Z eqn:E1; [apply Z.ltb_lt in E1; lia|].
  rewrite run_bind. unfold lift at 1.
  destruct (Lc + 1 <? 0)%Z eqn:E2; [apply Z.ltb_lt in E2; lia|].
  rewrite (run_bind_ok _ _ _ _ _ (run_load _ _ _ Hoc)).
  rewrite run_bind. unfold lift at 1.
  rewrite np_set_nonneg by (rewrite length_replicate; lia).
  rewrite run_bind. unfold alloc at 1.
  rewrite (run_bind_ok _ _ _ _ _ (run_load _ _ _ (lookup_alloc_new h cv))).
  rewrite run_bind. unfold lift at 1. unfold np_set_column.
  rewrite np_index_nonneg by (rewrite length_replicate; lia). simpl rbind.
  destruct (Z.of_nat (length cv) =? S)%Z eqn:El; [|lia].
  rewrite run_bind. unfold lift at 1.
  rewrite np_set_nonneg by (rewrite length_replicate; lia).
  rewrite run_bind. unfold lift at 1.
  rewrite np_set_nonneg by (rewrite length_replicate; lia).
  intros [= <-]. unfold trace_ok, times_recorded, not_passed. simpl.
  replace (Z.to_nat (L + 1)) with (Datatypes.S (Z.to_nat L)) by lia.
  replace (Z.to_nat (Lc + 1)) with (Datatypes.S (Z.to_nat Lc)) by lia.
  simpl. rewrite !take_0.
  split; [|by unfold L; rewrite Nat2Z.id].
  split; [done|]. split; [done|]. split; [|split; [|done]].
  - intros Hlt. destruct (lookup_lt_is_Some_2 log_steps 0) as [s Hs]; [lia|].
    exists s. split; [done|]. by eapply Forall_lookup_1 in Hls.
  - intros Hlt. destruct (lookup_lt_is_Some_2 log_steps_count 0) as [s Hs]; [lia|].
    exists s. split; [done|]. by eapply Forall_lookup_1 in Hlsc.
Qed.


Lemma seqZ_to_nat m n : seqZ m n = seqZ m (Z.of_nat (Z.to_nat n)).
Proof. unfold seqZ. by rewrite Nat2Z.id. Qed.

(** A frame that has gone through every step of a run with at least one
    entry in each schedule, none above the number of steps: what its
    arrays hold. *)
Lemma trace_complete log_steps log_steps_count r0 c0 (f : @frame G) :
  let L := Z.of_nat (length log_steps) in
  let Lc := Z.of_nat (length log_steps_count) in
  (1 ≤ L)%Z → (1 ≤ Lc)%Z →
  Forall (λ t, (t ≤ T * J)%Z) log_steps →
  Forall (λ t, (t ≤ T * J)%Z) log_steps_count →
  frame_ok S J L Lc f → settled L f →
  trace_ok J log_steps log_steps_count r0 c0 (T * J + 1) (T * J + 1) f →
  time f = 0%Q :: (generation_time J <$> take (length log_steps - 1) log_steps) ∧
  time_c f = (0%Q :: (generation_time J <$>
                        take (length log_steps_count - 1) log_steps_count)) ++ [0%Q] ∧
  length (richness f) = length log_steps ∧
  Forall (λ r, (1 ≤ r)%Z) (richness f).
Proof.
  intros L Lc HL HLc Hls Hlsc (Hk & Hkc & Htl & Hrs & Htab & Htc) Hset
         (Htime & Htime_c & Hnp & Hnpc & _ & _).
  assert (k f = L) as Ek.
  { destruct (decide (k f < L)%Z) as [Hlt|]; [|lia].
    destruct (Hnp Hlt) as (s & Hs & Hle).
    eapply Forall_lookup_1 in Hls; [|exact Hs]. simpl in Hls. lia. }
  assert (k_c f = Lc) as Ekc.
  { destruct (decide (k_c f < Lc)%Z) as [Hlt|]; [|lia].
    destruct (Hnpc Hlt) as (s & Hs & Hle).
    eapply Forall_lookup_1 in Hlsc; [|exact Hs]. simpl in Hlsc. lia. }
  specialize (Hset Ek).
  unfold times_recorded in Htime, Htime_c. rewrite Ek in Htime. rewrite Ekc in Htime_c.
  split; [|split; [|split]].
  - rewrite take_ge in Htime by lia. rewrite Htime.
    do 3 f_equal. lia.
  - destruct Htc as [Htcl Htc0].
    rewrite <- (take_drop (Z.to_nat Lc) (time_c f)), Htime_c.
    f_equal; [do 3 f_equal; lia|].
    destruct (drop (Z.to_nat Lc) (time_c f)) as [|q [|q' rest]] eqn:Ed.
    + apply (f_equal length) in Ed. rewrite length_drop in Ed. simpl in Ed. lia.
    + f_equal. apply (Htc0 (Z.to_nat Lc)); [lia|].
      rewrite <- (Nat.add_0_r (Z.to_nat Lc)), <- lookup_drop. by rewrite Ed.
    + apply (f_equal length) in Ed. rewrite length_drop in Ed. simpl in Ed. lia.
  - lia.
  - destruct Hrs as (written & Hwl & Hwp & [Hr|[_ Hr]]); [|by rewrite Hr].
    apply (f_equal length) in Hr.
    rewrite length_app, length_replicate in Hr. lia.
Qed.

(** The run for given sorted schedules of steps >= 1: slot 0 holds the
    initial state, and a run with nu <> 0 fills every slot but the last
    with the schedule's steps. *)
Lemma simulate_trace log_steps log_steps_count ops oc (g : G) h cv :
  StronglySorted Z.lt log_steps → StronglySorted Z.lt log_steps_count →
  Forall (λ t, (1 ≤ t)%Z) log_steps → Forall (λ t, (1 ≤ t)%Z) log_steps_count →
  h !! oc = Some cv → valid_counts S J cv → population S J ops h →
  ∃ h' o,
    simulate S J T nu log_steps log_steps_count ops oc g h = (h', Ok o) ∧
    initial_slot (count_positive cv) cv o ∧
    Forall (λ r, (0 ≤ r ≤ Z.min S J)%Z) (out_richness o) ∧
    (Qeq_bool nu 0 = false →
     1 ≤ length log_steps → 1 ≤ length log_steps_count → (1 ≤ T * J)%Z →
     Forall (λ t, (t ≤ T * J)%Z) log_steps →
     Forall (λ t, (t ≤ T * J)%Z) log_steps_count →
     out_time o
     = 0%Q :: (generation_time J <$> take (length log_steps - 1) log_steps) ∧
     out_time_c o
     = (0%Q :: (generation_time J <$>
                  take (length log_steps_count - 1) log_steps_count)) ++ [0%Q] ∧
     length (out_richness o) = length log_steps ∧
     Forall (λ r, (1 ≤ r)%Z) (out_richness o)).
Proof.
  intros Hsort Hsortc Hls Hlsc Hoc Hcv Hpop. unfold simulate.
  destruct (init_frame_trace log_steps log_steps_count ops oc g h cv
              Hoc Hcv Hpop Hls Hlsc) as (f & Hinit & Hf & Hops & Htr & Hr).
  rewrite (run_bind_ok _ _ _ _ _ Hinit).
  assert (population S J (opinions f) (h ++ [cv])) as Hpop'.
  { rewrite Hops. destruct Hpop as (a & Ha & ?). exists a.
    split; [by apply lookup_alloc_old|done]. }
  destruct (run_steps_ok S J nu log_steps log_steps_count S_pos J_pos
              (seqZ 1 (T * J)) f _ Hf Hpop') as (h' & c & Hrun & Hc).
  rewrite (run_bind_ok _ _ _ _ _ Hrun).
  pose proof Hrun as Hrun'. rewrite seqZ_to_nat in Hrun'.
  pose proof (run_steps_trace S J nu log_steps log_steps_count
                (count_positive cv) cv S_pos J_pos Hsort Hsortc
                (Z.to_nat (T * J)) 1 f _ h' c Hf Hpop' Htr Hrun') as Hend.
  assert (Forall (λ r, (0 ≤ r ≤ Z.min S J)%Z) (richness f)) as Hb.
  { rewrite Hr. apply list.Forall_cons. split.
    - apply count_positive_bound; [lia|done].
    - apply Forall_replicate. lia. }
  pose proof (run_steps_bounded S J nu log_steps log_steps_count S_pos J_pos
                (seqZ 1 (T * J)) f _ h' c Hf Hpop' Hb Hrun) as Hbound.
  destruct c as [f'|o].
  - exists h', (final_outputs f'). split; [done|].
    destruct Hc as (Hf' & Hs & _). split; [|split; [done|]].
    + destruct Hend as (Htime & Htime_c & _ & _ & Hr0 & Hc0).
      destruct Hf' as (Hk & Hkc & _).
      split; [done|]. split; [done|]. simpl. split.
      * apply (times_recorded_first J log_steps (k f')); [lia|done].
      * apply (times_recorded_first J log_steps_count (k_c f')); [lia|done].
    + intros _ HL HLc HTJ Hub Hubc. simpl.
      apply (trace_complete log_steps log_steps_count (count_positive cv) cv);
        [lia|lia|done|done|done| |].
      * apply Hs, seqZ_nonempty. lia.
      * by replace (T * J + 1)%Z with (1 + Z.of_nat (Z.to_nat (T * J)))%Z by lia.
  - exists h', o. split; [done|]. split; [done|]. split; [done|].
    intros Hnu. apply run_steps_return in Hrun as [Hnu' _]. congruence.
Qed.

End Whole_run.


(** * What a call returns *)

Section Whole_call.
Context {G : Type} `{GeneratorContract G}.
Variables (S J T : Z) (nu : Q).
Hypothesis S_pos : (1 ≤ S)%Z.
Hypothesis J_pos : (1 ≤ J)%Z.

(** The population array the call works on: a copy of the supplied one *)
Lemma init_opinions_array IC (g : G) h :
  valid_IC S J IC h →
  ∃ h' ops g' a,
    init_opinions S J IC g h = (h', Ok (ops, g')) ∧ keeps h h' ∧
    h' !! ops = Some a ∧ length a = Z.to_nat J ∧ Forall (in_range S) a ∧
    match IC with Some l => h !! l = Some a | None => True end.
Proof.
  intros HIC. destruct IC as [l|].
  - destruct HIC as (a & Hl & Hlen & Ha).
    exists ((h ++ [a]) ++ [a]), (length (h ++ [a])), g, a.
    split; [by apply init_opinions_supplied|]. split.
    { unfold keeps. rewrite <- app_assoc. by apply prefix_app_r. }
    split; [apply lookup_alloc_new|done].
  - destruct (init_opinions_ok S J S_pos J_pos None g h HIC)
      as (h' & ops & g' & Hrun & Hk & a & Ha & Hlen & Hr).
    by exists h', ops, g', a.
Qed.

(** The whole call for given schedules: the vector [cv] that seeds slot 0
    is the supplied one, or else the tally of the population. *)
Lemma voter_model_with_trace log_steps log_steps_count IC oc (g : G) h :
  StronglySorted Z.lt log_steps → StronglySorted Z.lt log_steps_count →
  Forall (λ t, (1 ≤ t)%Z) log_steps → Forall (λ t, (1 ≤ t)%Z) log_steps_count →
  valid_IC S J IC h → valid_opinion_counts S J oc h →
  ∃ h' o cv,
    voter_model_with (Ok log_steps) (Ok log_steps_count) S J T nu IC oc g h
    = (h', Ok o) ∧
    initial_slot (count_positive cv) cv o ∧
    Forall (λ r, (0 ≤ r ≤ Z.min S J)%Z) (out_richness o) ∧
    match oc, IC with
    | Some c, _ => h !! c = Some cv
    | None, Some l => ∃ a, h !! l = Some a ∧ cv = label_counts S a
    | None, None => True
    end ∧
    (Qeq_bool nu 0 = false →
     1 ≤ length log_steps → 1 ≤ length log_steps_count → (1 ≤ T * J)%Z →
     Forall (λ t, (t ≤ T * J)%Z) log_steps →
     Forall (λ t, (t ≤ T * J)%Z) log_steps_count →
     out_time o
     = 0%Q :: (generation_time J <$> take (length log_steps - 1) log_steps) ∧
     out_time_c o
     = (0%Q :: (generation_time J <$>
                  take (length log_steps_count - 1) log_steps_count)) ++ [0%Q] ∧
     length (out_richness o) = length log_steps ∧
     Forall (λ r, (1 ≤ r)%Z) (out_richness o)).
Proof.
  intros Hsort Hsortc Hls Hlsc HIC Hoc. unfold voter_model_with.
  destruct (init_opinions_array IC g h HIC)
    as (h1 & ops & g1 & a & Hio & Hk1 & Hops & Hlen & Ha & Hsrc).
  rewrite (run_bind_ok _ _ _ _ _ Hio).
  assert (∃ h2 c cv,
    init_counts S ops oc h1 = (h2, Ok c) ∧ keeps h1 h2 ∧
    h2 !! c = Some cv ∧ valid_counts S J cv ∧
    match oc, IC with
    | Some c, _ => h !! c = Some cv
    | None, Some l => ∃ a, h !! l = Some a ∧ cv = label_counts S a
    | None, None => True
    end) as (h2 & c & cv & Hic & Hk2 & Hc & Hcv & Hseed).
  { destruct oc as [c|].
    - destruct Hoc as (cv & Hc & Hcv). exists h1, c, cv.
      split; [done|]. split; [done|]. split; [by eapply keeps_lookup|done].
    - exists (h1 ++ [label_counts S a]), (length h1), (label_counts S a).
      split; [by apply init_counts_absent|].
      split; [by apply prefix_app_r|]. split; [apply lookup_alloc_new|].
      split; [apply label_counts_valid; [lia|lia|done|done]|].
      destruct IC as [l|]; [by exists a|done]. }
  rewrite (run_bind_ok _ _ _ _ _ Hic).
  assert (population S J ops h2) as Hpop2.
  { exists a. split; [by eapply keeps_lookup|done]. }
  rewrite run_bind. unfold lift at 1. rewrite run_bind. unfold lift at 1.
  destruct (simulate_trace S J T nu S_pos J_pos log_steps log_steps_count
              ops c g1 h2 cv Hsort Hsortc Hls Hlsc Hc Hcv Hpop2)
    as (h' & o & Hrun & Hslot & Hbound & Hfull).
  by exists h', o, cv.
Qed.

End Whole_call.

(** What lines 65-66 give for [J >= 1] and [T >= 1]: increasing steps
    between [J] and [T * J]. *)
Lemma log_schedule_steps (J T num : Z) :
  (1 ≤ J)%Z → (1 ≤ T)%Z → (0 ≤ num)%Z →
  ∃ s, log_schedule J (T * J) num = Ok s ∧ StronglySorted Z.lt s ∧
       Forall (λ t, (J ≤ t ≤ T * J)%Z) s ∧ ((1 ≤ num)%Z → 1 ≤ length s).
Proof.
  intros HJ HT Hn. rewrite log_schedule_elements by done.
  eexists. split; [done|]. split; [apply np_unique_sorted|]. split.
  - apply list.Forall_forall. intros t Ht. rewrite np_unique_elem in Ht.
    pose proof (schedule_rounds_in_bounds J (T * J) (Z.to_nat num) HJ ltac:(nia)) as Hb.
    eapply list.Forall_forall in Hb; [exact Hb|done].
  - intros Hnum.
    apply np_unique_nonempty. intros E. apply (f_equal length) in E.
    unfold logspace in E. rewrite !length_map, linspace_length in E.
    simpl in E. lia.
Qed.

(** X10. Slot 0 of every returned array describes the population the run
    starts from (lines 59-62 and 75-78). For a supplied initial array [a]
    of J labels in [0, S) and no supplied counts, whatever nu and the
    generator, and whether or not the run stops early: [richness[0]] is
    the number of distinct labels of [a], column 0 of the table holds for
    each label of [0, S) its number of occurrences in [a], and both times
    start at 0. *)
Theorem slot_0_describes_initial_population {G : Type} `{GeneratorContract G}
    (S J T : Z) (nu : Q) (num_log_steps num_log_steps_count : Z)
    (l : loc) (a : list Z) (g : G) (h : heap) :
  (1 ≤ S)%Z → (1 ≤ J)%Z → (1 ≤ T)%Z →
  (0 ≤ num_log_steps)%Z → (0 ≤ num_log_steps_count)%Z →
  h !! l = Some a → length a = Z.to_nat J → Forall (in_range S) a →
  ∃ h' o,
    voter_model S J T nu num_log_steps num_log_steps_count (Some l) None g h
    = (h', Ok o) ∧
    out_richness o !! 0 = Some (Z.of_nat (length (np_unique a))) ∧
    out_counts o !! 0 = Some (label_counts S a) ∧
    out_time o !! 0 = Some 0%Q ∧ out_time_c o !! 0 = Some 0%Q.
Proof.
  intros HS HJ HT HN HNc Hl Hlen Ha. unfold voter_model.
  destruct (log_schedule_steps J T num_log_steps HJ HT HN)
    as (ls & -> & Hsort & Hb & _).
  destruct (log_schedule_steps J T num_log_steps_count HJ HT HNc)
    as (lsc & -> & Hsortc & Hbc & _).
  destruct (voter_model_with_trace S J T nu HS HJ ls lsc (Some l) None g h
              Hsort Hsortc) as (h' & o & cv & Hrun & Hslot & _ & Hseed & _).
  { eapply Forall_impl; [|exact Hb]. simpl. intros. lia. }
  { eapply Forall_impl; [|exact Hbc]. simpl. intros. lia. }
  { by exists a. }
  { done. }
  destruct Hseed as (a' & Hl' & ->). rewrite Hl in Hl'. injection Hl' as <-.
  destruct Hslot as (Hr0 & Hc0 & Ht0 & Htc0).
  exists h', o. split; [done|].
  rewrite count_positive_label_counts in Hr0 by done. done.
Qed.

Lemma slot_0_describes_initial_population_witness :
  ∃ h' o,
    voter_model 3 4 2 (1 # 10) 4 3 (Some 0) None (default_rng 5) [[2; 0; 2; 2]%Z]
    = (h', Ok o) ∧
    out_richness o !! 0 = Some (Z.of_nat (length (np_unique [2; 0; 2; 2]%Z))) ∧
    out_counts o !! 0 = Some (label_counts 3 [2; 0; 2; 2]%Z) ∧
    out_time o !! 0 = Some 0%Q ∧ out_time_c o !! 0 = Some 0%Q.
Proof.
  apply (slot_0_describes_initial_population 3 4 2 (1 # 10) 4 3 0
           [2; 0; 2; 2]%Z (default_rng 5) [[2; 0; 2; 2]%Z]);
    try lia; try reflexivity.
  unfold in_range. repeat constructor; lia.
Defined.

(** X11. A supplied count vector seeds slot 0 as it is (lines 75-76): for
    valid arguments, column 0 of the returned table is the caller's vector
    and [richness[0]] is the number of its positive entries; the
    population array is not consulted for either. *)
Theorem supplied_counts_seed_slot_0 {G : Type} `{GeneratorContract G}
    (S J T : Z) (nu : Q) (num_log_steps num_log_steps_count : Z)
    (IC : option loc) (c : loc) (cv : list Z) (g : G) (h : heap) :
  (1 ≤ S)%Z → (1 ≤ J)%Z → (1 ≤ T)%Z →
  (0 ≤ num_log_steps)%Z → (0 ≤ num_log_steps_count)%Z →
  valid_IC S J IC h → h !! c = Some cv → valid_counts S J cv →
  ∃ h' o,
    voter_model S J T nu num_log_steps num_log_steps_count IC (Some c) g h
    = (h', Ok o) ∧
    out_richness o !! 0 = Some (count_positive cv) ∧
    out_counts o !! 0 = Some cv.
Proof.
  intros HS HJ HT HN HNc HIC Hc Hcv. unfold voter_model.
  destruct (log_schedule_steps J T num_log_steps HJ HT HN)
    as (ls & -> & Hsort & Hb & _).
  destruct (log_schedule_steps J T num_log_steps_count HJ HT HNc)
    as (lsc & -> & Hsortc & Hbc & _).
  destruct (voter_model_with_trace S J T nu HS HJ ls lsc IC (Some c) g h
              Hsort Hsortc) as (h' & o & cv' & Hrun & Hslot & _ & Hseed & _).
  { eapply Forall_impl; [|exact Hb]. simpl. intros. lia. }
  { eapply Forall_impl; [|exact Hbc]. simpl. intros. lia. }
  { done. }
  { by exists cv. }
  simpl in Hseed. rewrite Hc in Hseed. injection Hseed as <-.
  destruct Hslot as (Hr0 & Hc0 & _).
  by exists h', o.
Qed.

Lemma supplied_counts_seed_slot_0_witness :
  ∃ h' o,
    voter_model 3 4 2 (1 # 10) 4 3 (Some 0) (Some 1) (default_rng 5)
      [[2; 0; 2; 2]; [0; 1; 3]]%Z
    = (h', Ok o) ∧
    out_richness o !! 0 = Some (count_positive [0; 1; 3]%Z) ∧
    out_counts o !! 0 = Some [0; 1; 3]%Z.
Proof.
  apply (supplied_counts_seed_slot_0 3 4 2 (1 # 10) 4 3 (Some 0) 1
           [0; 1; 3]%Z (default_rng 5) [[2; 0; 2; 2]; [0; 1; 3]]%Z);
    try lia; try reflexivity.
  - exists [2; 0; 2; 2]%Z. split; [done|]. split; [done|].
    unfold in_range. repeat constructor; lia.
  - split; [done|]. split; [|done]. repeat constructor; lia.
Defined.

(** X12. A run with nu <> 0 never stops early and samples at every entry
    of each schedule but the last. For valid arguments, [T >= 1] and at
    least one requested point in each schedule, the returned [time] is 0
    followed by [t / J] for every entry [t] of [log_steps] except the last
    one; [time_c] is the same for [log_steps_count], followed by the 0 of
    the slot never written; and [richness] has [len(log_steps)] entries,
    all at least 1. *)
Theorem speciating_run_samples_all_but_last {G : Type} `{GeneratorContract G}
    (S J T : Z) (nu : Q) (num_log_steps num_log_steps_count : Z)
    (IC opinion_counts : option loc) (g : G) (h : heap) :
  (1 ≤ S)%Z → (1 ≤ J)%Z → (1 ≤ T)%Z →
  (1 ≤ num_log_steps)%Z → (1 ≤ num_log_steps_count)%Z →
  ¬ (nu == 0)%Q →
  valid_IC S J IC h → valid_opinion_counts S J opinion_counts h →
  ∃ h' o log_steps log_steps_count,
    log_schedule J (T * J) num_log_steps = Ok log_steps ∧
    log_schedule J (T * J) num_log_steps_count = Ok log_steps_count ∧
    voter_model S J T nu num_log_steps num_log_steps_count
      IC opinion_counts g h = (h', Ok o) ∧
    out_time o
    = 0%Q :: (generation_time J <$> take (length log_steps - 1) log_steps) ∧
    out_time_c o
    = (0%Q :: (generation_time J <$>
                 take (length log_steps_count - 1) log_steps_count)) ++ [0%Q] ∧
    length (out_richness o) = length log_steps ∧
    Forall (λ r, (1 ≤ r)%Z) (out_richness o).
Proof.
  intros HS HJ HT HN HNc Hnu HIC Hoc. unfold voter_model.
  destruct (log_schedule_steps J T num_log_steps HJ HT ltac:(lia))
    as (ls & Els & Hsort & Hb & Hne).
  destruct (log_schedule_steps J T num_log_steps_count HJ HT ltac:(lia))
    as (lsc & Elsc & Hsortc & Hbc & Hnec).
  rewrite Els, Elsc.
  destruct (voter_model_with_trace S J T nu HS HJ ls lsc IC opinion_counts g h
              Hsort Hsortc) as (h' & o & cv & Hrun & _ & _ & _ & Hfull).
  { eapply Forall_impl; [|exact Hb]. simpl. intros. lia. }
  { eapply Forall_impl; [|exact Hbc]. simpl. intros. lia. }
  { done. }
  { done. }
  exists h', o, ls, lsc. split; [done|]. split; [done|]. split; [done|].
  apply Hfull.
  - destruct (Qeq_bool nu 0) eqn:E; [|done]. by apply Qeq_bool_iff in E.
  - lia.
  - lia.
  - nia.
  - eapply Forall_impl; [|exact Hb]. simpl. intros. lia.
  - eapply Forall_impl; [|exact Hbc]. simpl. intros. lia.
Qed.

Lemma speciating_run_samples_all_but_last_witness :
  ∃ h' o log_steps log_steps_count,
    log_schedule 3 (4 * 3) 5 = Ok log_steps ∧
    log_schedule 3 (4 * 3) 3 = Ok log_steps_count ∧
    voter_model 2 3 4 (1 # 10) 5 3 (Some 0) None (default_rng 3) [[0; 1; 1]%Z]
    = (h', Ok o) ∧
    out_time o
    = 0%Q :: (generation_time 3 <$> take (length log_steps - 1) log_steps) ∧
    out_time_c o
    = (0%Q :: (generation_time 3 <$>
                 take (length log_steps_count - 1) log_steps_count)) ++ [0%Q] ∧
    length (out_richness o) = length log_steps ∧
    Forall (λ r, (1 ≤ r)%Z) (out_richness o).
Proof.
  apply (speciating_run_samples_all_but_last 2 3 4 (1 # 10) 5 3 (Some 0) None
           (default_rng 3) [[0; 1; 1]%Z]); try lia.
  - intros E. vm_compute in E. discriminate.
  - exists [0; 1; 1]%Z. split; [done|]. split; [done|].
    unfold in_range. repeat constructor; lia.
  - done.
Defined.

(** ** The richness stays within bounds *)

(** X13. The richness never exceeds the number of labels nor the number
    of individuals: every entry of the richness series a valid call
    returns, written or not, early return or not, lies between 0 and
    [min(S, J)]. *)
Theorem richness_within_labels_and_individuals {G : Type} `{GeneratorContract G}
    (S J T : Z) (nu : Q) (num_log_steps num_log_steps_count : Z)
    (IC opinion_counts : option loc) (g : G) (h : heap) :
  (1 ≤ S)%Z → (1 ≤ J)%Z → (1 ≤ T)%Z →
  (0 ≤ num_log_steps)%Z → (0 ≤ num_log_steps_count)%Z →
  valid_IC S J IC h → valid_opinion_counts S J opinion_counts h →
  ∃ h' o,
    voter_model S J T nu num_log_steps num_log_steps_count
      IC opinion_counts g h = (h', Ok o) ∧
    Forall (λ r, (0 ≤ r ≤ Z.min S J)%Z) (out_richness o).
Proof.
  intros HS HJ HT HN HNc HIC Hoc. unfold voter_model.
  destruct (log_schedule_steps J T num_log_steps HJ HT HN)
    as (ls & -> & Hsort & Hb & _).
  destruct (log_schedule_steps J T num_log_steps_count HJ HT HNc)
    as (lsc & -> & Hsortc & Hbc & _).
  destruct (voter_model_with_trace S J T nu HS HJ ls lsc IC opinion_counts g h
              Hsort Hsortc) as (h' & o & cv & Hrun & _ & Hbound & _).
  { eapply Forall_impl; [|exact Hb]. simpl. intros. lia. }
  { eapply Forall_impl; [|exact Hbc]. simpl. intros. lia. }
  { done. }
  { done. }
  by exists h', o.
Qed.

Lemma richness_within_labels_and_individuals_witness :
  ∃ h' o,
    voter_model 5 3 4 (1 # 2) 5 3 (Some 0) None (default_rng 3) [[0; 4; 1]%Z]
    = (h', Ok o) ∧
    Forall (λ r, (0 ≤ r ≤ Z.min 5 3)%Z) (out_richness o).
Proof.
  apply (richness_within_labels_and_individuals 5 3 4 (1 # 2) 5 3 (Some 0) None
           (default_rng 3) [[0; 4; 1]%Z]); try lia.
  - exists [0; 4; 1]%Z. split; [done|]. split; [done|].
    unfold in_range. repeat constructor; lia.
  - done.
Defined.

(** ** The abundance checkpoint *)

(** X14. What an abundance checkpoint writes (lines 103-110). When step
    [t] is the one the abundance index [k_c] waits for, the checkpoint
    writes into column [k_c] of the table, for every label of [0, S), the
    number of individuals that hold it now (the [Counter] of the
    population, scattered over a zero vector), and [t / J] into
    [time_c[k_c]]; it advances [k_c] by one and leaves the other columns,
    the richness series and the population as they are. *)
Theorem abundance_checkpoint_stores_label_counts {G : Type} `{GeneratorContract G}
    (S J : Z) (log_steps log_steps_count : list Z) (t : Z)
    (f : @frame G) (h : heap) (a : list Z) :
  (1 ≤ S)%Z → (1 ≤ J)%Z →
  frame_ok S J (Z.of_nat (length log_steps))
           (Z.of_nat (length log_steps_count)) f →
  h !! opinions f = Some a → Forall (in_range S) a →
  pending log_steps_count (k_c f) t →
  ∃ h' f',
    record_counts S J log_steps_count t f h = (h', Ok f') ∧
    opinion_counts_store f' !! Z.to_nat (k_c f) = Some (label_counts S a) ∧
    time_c f' !! Z.to_nat (k_c f) = Some (generation_time J t) ∧
    k_c f' = (k_c f + 1)%Z ∧
    (∀ c, c ≠ Z.to_nat (k_c f) →
          opinion_counts_store f' !! c = opinion_counts_store f !! c) ∧
    richness f' = richness f ∧ time f' = time f ∧
    h' !! opinions f = Some a.
Proof.
  intros HS HJ Hf Hops Ha Hpend.
  pose proof Hf as (_ & (Hc1 & Hc2) & _ & _ & (Htabl & _) & (Htcl & _)).
  pose proof Hpend as [Hlt _].
  eexists _, _. split.
  { exact (record_counts_hit S J log_steps log_steps_count HS HJ
             t f h a Hf Hops Ha Hpend). }
  simpl. split; [|split; [|split; [done|split; [|split; [done|split; [done|]]]]]].
  - apply list_lookup_insert_eq. lia.
  - apply list_lookup_insert_eq. lia.
  - intros c Hc. by apply list_lookup_insert_ne.
  - apply lookup_alloc_old. done.
Qed.

Lemma abundance_checkpoint_stores_label_counts_witness :
  let f := Frame 0 1 [2; 0; 0]%Z [[1; 2]; [0; 0]; [0; 0]]%Z
                 [0; 0; 0]%Q [0; 0; 0]%Q 1 1 (default_rng 1) in
  ∃ h' f',
    record_counts 2 3 [3; 6]%Z 3 f [[0; 0; 1]; [1; 2]]%Z = (h', Ok f') ∧
    opinion_counts_store f' !! Z.to_nat (k_c f) = Some (label_counts 2 [0; 0; 1]%Z) ∧
    time_c f' !! Z.to_nat (k_c f) = Some (generation_time 3 3) ∧
    k_c f' = (k_c f + 1)%Z ∧
    (∀ c, c ≠ Z.to_nat (k_c f) →
          opinion_counts_store f' !! c = opinion_counts_store f !! c) ∧
    richness f' = richness f ∧ time f' = time f ∧
    h' !! opinions f = Some [0; 0; 1]%Z.
Proof.
  intros f.
  apply (abundance_checkpoint_stores_label_counts 2 3 [3; 6]%Z [3; 6]%Z 3 f
           [[0; 0; 1]; [1; 2]]%Z [0; 0; 1]%Z); try lia; try reflexivity.
  - unfold frame_ok. simpl. split; [lia|]. split; [lia|]. split; [done|].
    split; [|split].
    + exists [2%Z]. split; [done|]. split; [repeat constructor; lia|by left].
    + split; [done|]. intros [|[|[|c]]] col Hc; simpl in Hc; simplify_eq; simpl.
      * split; [done|]. split; [repeat constructor; lia|done].
      * done.
      * done.
    + split; [done|]. intros [|[|[|c]]] q Hge Hc; simpl in Hc; simplify_eq; done.
  - unfold in_range. repeat constructor; lia.
  - split; [simpl; lia|done].
Defined.

(** ** Sampling times *)

Lemma generation_time_lt J t s :
  (1 ≤ J)%Z → (t < s)%Z → (generation_time J t < generation_time J s)%Q.
Proof.
  intros HJ Hts. unfold generation_time. rewrite !Qred_correct.
  unfold Qdiv. apply Qmult_lt_compat_r.
  - apply Qinv_lt_0_compat. unfold Qlt. simpl. lia.
  - unfold Qlt. simpl. lia.
Qed.

Lemma generation_time_pos J t :
  (1 ≤ J)%Z → (1 ≤ t)%Z → (0 < generation_time J t)%Q.
Proof.
  intros HJ Ht. unfold generation_time. rewrite Qred_correct.
  unfold Qdiv. apply Qmult_lt_0_compat.
  - unfold Qlt. simpl. lia.
  - apply Qinv_lt_0_compat. unfold Qlt. simpl. lia.
Qed.

Lemma sorted_take {A} (R : A → A → Prop) (l : list A) n :
  StronglySorted R l → StronglySorted R (take n l).
Proof.
  intros Hs. revert n. induction Hs as [|x l Hs IH Hx]; intros [|n]; simpl;
    try constructor.
  - apply IH.
  - by apply Forall_take.
Qed.

Lemma sorted_generation_times J (l : list Z) :
  (1 ≤ J)%Z → StronglySorted Z.lt l →
  StronglySorted Qlt (generation_time J <$> l).
Proof.
  intros HJ Hs. induction Hs as [|x l Hs IH Hx]; csimpl; constructor; [done|].
  apply Forall_fmap. eapply Forall_impl; [|exact Hx].
  simpl. intros s Hxs. by apply generation_time_lt.
Qed.

(** X15. In a run with nu <> 0 the richness times come back strictly
    increasing, starting at 0: each sample is later than the one before.
    (The abundance times do not: their last slot is the 0 of a slot never
    written.) *)
Theorem richness_times_strictly_increase {G : Type} `{GeneratorContract G}
    (S J T : Z) (nu : Q) (num_log_steps num_log_steps_count : Z)
    (IC opinion_counts : option loc) (g : G) (h : heap) :
  (1 ≤ S)%Z → (1 ≤ J)%Z → (1 ≤ T)%Z →
  (1 ≤ num_log_steps)%Z → (1 ≤ num_log_steps_count)%Z →
  ¬ (nu == 0)%Q →
  valid_IC S J IC h → valid_opinion_counts S J opinion_counts h →
  ∃ h' o,
    voter_model S J T nu num_log_steps num_log_steps_count
      IC opinion_counts g h = (h', Ok o) ∧
    out_time o !! 0 = Some 0%Q ∧
    StronglySorted Qlt (out_time o) ∧
    ¬ StronglySorted Qlt (out_time_c o).
Proof.
  intros HS HJ HT HN HNc Hnu HIC Hoc. unfold voter_model.
  destruct (log_schedule_steps J T num_log_steps HJ HT ltac:(lia))
    as (ls & Els & Hsort & Hb & Hne).
  destruct (log_schedule_steps J T num_log_steps_count HJ HT ltac:(lia))
    as (lsc & Elsc & Hsortc & Hbc & Hnec).
  rewrite Els, Elsc.
  destruct (voter_model_with_trace S J T nu HS HJ ls lsc IC opinion_counts g h
              Hsort Hsortc) as (h' & o & cv & Hrun & _ & _ & _ & Hfull).
  { eapply Forall_impl; [|exact Hb]. simpl. intros. lia. }
  { eapply Forall_impl; [|exact Hbc]. simpl. intros. lia. }
  { done. }
  { done. }
  exists h', o. split; [done|].
  destruct Hfull as (Ht & Htc & _).
  - destruct (Qeq_bool nu 0) eqn:E; [|done]. by apply Qeq_bool_iff in E.
  - lia.
  - lia.
  - nia.
  - eapply Forall_impl; [|exact Hb]. simpl. intros. lia.
  - eapply Forall_impl; [|exact Hbc]. simpl. intros. lia.
  - rewrite Ht, Htc. split; [done|]. split.
    + constructor.
      * apply sorted_generation_times; [done|]. by apply sorted_take.
      * apply Forall_fmap, Forall_take. eapply Forall_impl; [|exact Hb].
        simpl. intros t Hbt. apply generation_time_pos; lia.
    + intros Hs. apply StronglySorted_inv in Hs as [_ Hall].
      apply Forall_app in Hall as [_ Hlast].
      apply list.Forall_cons in Hlast as [Hlast _].
      by apply Qlt_irrefl in Hlast.
Qed.

Lemma richness_times_strictly_increase_witness :
  ∃ h' o,
    voter_model 2 3 4 (1 # 10) 5 3 (Some 0) None (default_rng 3) [[0; 1; 1]%Z]
    = (h', Ok o) ∧
    out_time o !! 0 = Some 0%Q ∧
    StronglySorted Qlt (out_time o) ∧
    ¬ StronglySorted Qlt (out_time_c o).
Proof.
  apply (richness_times_strictly_increase 2 3 4 (1 # 10) 5 3 (Some 0) None
           (default_rng 3) [[0; 1; 1]%Z]); try lia.
  - intros E. vm_compute in E. discriminate.
  - exists [0; 1; 1]%Z. split; [done|]. split; [done|].
    unfold in_range. repeat constructor; lia.
  - done.
Defined.

(** ** Errors raised before the first step *)

Section Entry_errors.
Context {G : Type} `{GeneratorContract G}.

Lemma init_frame_bad_counts (S : Z) (log_steps log_steps_count : list Z)
    (ops oc : loc) (g : G) (h : heap) (cv : list Z) :
  (0 ≤ S)%Z → h !! oc = Some cv →
  Z.of_nat (length cv) ≠ S → length cv ≠ 1 →
  init_frame S log_steps log_steps_count ops oc g h
  = (h ++ [cv], Raise ValueError).
Proof.
  intros HS Hoc HlS Hl1. unfold init_frame.
  set (L := Z.of_nat (length log_steps)).
  set (Lc := Z.of_nat (length log_steps_count)).
  rewrite run_bind. unfold lift at 1. rewrite np_zeros_nonneg by lia.
  rewrite run_bind. unfold lift at 1. unfold np_zeros2.
  destruct ((S <? 0)%Z || (Lc + 1 <? 0)%Z) eqn:E.
  { apply orb_true_iff in E as [E|E]; apply Z.ltb_lt in E; lia. }
  rewrite run_bind. unfold lift at 1. unfold np_zeros_float.
  destruct (L + 1 <? 0)%Z eqn:E1; [apply Z.ltb_lt in E1; lia|].
  rewrite run_bind. unfold lift at 1.
  destruct (Lc + 1 <? 0)%Z eqn:E2; [apply Z.ltb_lt in E2; lia|].
  rewrite (run_bind_ok _ _ _ _ _ (run_load _ _ _ Hoc)).
  rewrite run_bind. unfold lift at 1.
  rewrite np_set_nonneg by (rewrite length_replicate; lia).
  rewrite run_bind. unfold alloc at 1.
  rewrite (run_bind_ok _ _ _ _ _ (run_load _ _ _ (lookup_alloc_new h cv))).
  rewrite run_bind. unfold lift at 1. unfold np_set_column.
  rewrite np_index_nonneg by (rewrite length_replicate; lia). simpl rbind.
  destruct (Z.of_nat (length cv) =? S)%Z eqn:El; [apply Z.eqb_eq in El; lia|].
  destruct cv as [|x [|y cv]]; [done| |done]. simpl in Hl1. lia.
Qed.

End Entry_errors.

(** X16. A supplied count vector of the wrong length stops the call at
    line 76, before the first step: with a valid initial condition and a
    vector whose length is neither S nor 1 (a single entry is broadcast),
    the column assignment raises ValueError, whatever nu and the
    generator. *)
Theorem miscounted_vector_raises_at_entry {G : Type} `{GeneratorContract G}
    (S J T : Z) (nu : Q) (num_log_steps num_log_steps_count : Z)
    (IC : option loc) (c : loc) (cv : list Z) (g : G) (h : heap) :
  (1 ≤ S)%Z → (1 ≤ J)%Z → (1 ≤ T)%Z →
  (0 ≤ num_log_steps)%Z → (0 ≤ num_log_steps_count)%Z →
  valid_IC S J IC h → h !! c = Some cv →
  Z.of_nat (length cv) ≠ S → length cv ≠ 1 →
  ∃ h',
    voter_model S J T nu num_log_steps num_log_steps_count IC (Some c) g h
    = (h', Raise ValueError).
Proof.
  intros HS HJ HT HN HNc HIC Hc HlS Hl1. unfold voter_model, voter_model_with.
  rewrite (log_schedule_elements J (T * J) _ HN).
  rewrite (log_schedule_elements J (T * J) _ HNc).
  destruct (init_opinions_array S J HS HJ IC g h HIC)
    as (h1 & ops & g1 & a & Hio & Hk1 & Hops & Hlen & Ha & _).
  rewrite (run_bind_ok _ _ _ _ _ Hio).
  rewrite run_bind. unfold init_counts at 1. unfold mret at 1, M_ret, ret.
  rewrite run_bind. unfold lift at 1. rewrite run_bind. unfold lift at 1.
  unfold simulate. rewrite run_bind.
  rewrite (init_frame_bad_counts S _ _ ops c g1 h1 cv); [|lia| |done|done].
  - by eexists.
  - by eapply keeps_lookup.
Qed.

Lemma miscounted_vector_raises_at_entry_witness :
  ∃ h',
    voter_model 3 4 2 (1 # 10) 4 3 (Some 0) (Some 1) (default_rng 5)
      [[2; 0; 2; 2]; [1; 3]]%Z
    = (h', Raise ValueError).
Proof.
  apply (miscounted_vector_raises_at_entry 3 4 2 (1 # 10) 4 3 (Some 0) 1
           [1; 3]%Z (default_rng 5) [[2; 0; 2; 2]; [1; 3]]%Z);
    try lia; try reflexivity; try (simpl; lia).
  exists [2; 0; 2; 2]%Z. split; [done|]. split; [done|].
  unfold in_range. repeat constructor; lia.
Defined.

(** X17. A negative number of requested samples stops the call at lines
    65-66, before the first step: with valid arrays, if either
    [num_log_steps] or [num_log_steps_count] is negative, [np.logspace]
    raises ValueError and the call returns nothing. *)
Theorem negative_sample_count_raises_at_entry {G : Type} `{GeneratorContract G}
    (S J T : Z) (nu : Q) (num_log_steps num_log_steps_count : Z)
    (IC opinion_counts : option loc) (g : G) (h : heap) :
  (1 ≤ S)%Z → (1 ≤ J)%Z →
  (num_log_steps < 0 ∨ num_log_steps_count < 0)%Z →
  valid_IC S J IC h → valid_opinion_counts S J opinion_counts h →
  ∃ h',
    voter_model S J T nu num_log_steps num_log_steps_count
      IC opinion_counts g h = (h', Raise ValueError).
Proof.
  intros HS HJ Hneg HIC Hoc. unfold voter_model, voter_model_with.
  destruct (init_opinions_ok S J HS HJ IC g h HIC)
    as (h1 & ops & g1 & Hio & Hk1 & Hpop1).
  rewrite (run_bind_ok _ _ _ _ _ Hio).
  assert (valid_opinion_counts S J opinion_counts h1) as Hoc1.
  { destruct opinion_counts as [c|]; [|done]. destruct Hoc as (cv & Hc & Hcv).
    exists cv. split; [by eapply keeps_lookup|done]. }
  destruct (init_counts_ok S J HS HJ ops opinion_counts h1 Hpop1 Hoc1)
    as (h2 & c & cv & Hic & _).
  rewrite (run_bind_ok _ _ _ _ _ Hic).
  rewrite run_bind. unfold lift at 1. unfold log_schedule at 1.
  destruct (num_log_steps <? 0)%Z eqn:E; [by eexists|].
  rewrite run_bind. unfold lift at 1. unfold log_schedule at 1.
  destruct (num_log_steps_count <? 0)%Z eqn:Ec; [by eexists|].
  apply Z.ltb_ge in E, Ec. lia.
Qed.

Lemma negative_sample_count_raises_at_entry_witness :
  ∃ h',
    voter_model 3 4 2 (1 # 10) 4 (-1) (Some 0) None (default_rng 5)
      [[2; 0; 2; 2]]%Z
    = (h', Raise ValueError).
Proof.
  apply (negative_sample_count_raises_at_entry 3 4 2 (1 # 10) 4 (-1) (Some 0)
           None (default_rng 5) [[2; 0; 2; 2]]%Z); try lia.
  - exists [2; 0; 2; 2]%Z. split; [done|]. split; [done|].
    unfold in_range. repeat constructor; lia.
  - done.
Defined.
